(** * get_next_line: a buffered, delimiter-driven segment reader

    Shallow embedding of [get_next_line.c] / [get_next_line.h] and the
    properties of its buffering algorithm.

    Modelling conventions.
    - [size_t] and [ssize_t] are 64-bit; [size_t] arithmetic wraps modulo
      [2^64] ([uadd], [usub], [umul]) and conversions are written out
      ([to_size], [to_ssize]).
    - A heap block is the list of its bytes.  [buf->data] is the whole block
      of [buf->size] bytes, scratch space included.
    - The allocator and the [read] system call are driven by scripts held in
      the [world]: every allocation and every read consumes one scripted
      event when one is left, and succeeds fully once the script is empty.
    - Loops that the C code does not bound ([while (1)], the doubling loop)
      take fuel and return [None] when it runs out.
    - [free] is not tracked: releasing a buffer only clears its entry in
      [g_buffers].

    The older reader kept in [get_next_line_bonus.c] and
    [get_next_line_utils_bonus.c] is a separate implementation on
    zero-terminated strings; it is embedded in the module [Bonus], with
    conventions of its own stated there. *)

From Stdlib Require Import ZArith Lia List.
From Stdlib.Strings Require Import Byte String.
From stdpp Require Import base list gmap.

Open Scope Z_scope.

(** ** Machine integers *)

Definition SIZE_MODULUS : Z := 2 ^ 64.

(** Conversion to [size_t]. *)
Definition to_size (z : Z) : Z := z mod SIZE_MODULUS.

(** Conversion to [ssize_t] (two's complement). *)
Definition to_ssize (z : Z) : Z := (z + 2 ^ 63) mod SIZE_MODULUS - 2 ^ 63.

Definition uadd (a b : Z) : Z := to_size (a + b).
Definition usub (a b : Z) : Z := to_size (a - b).
Definition umul (a b : Z) : Z := to_size (a * b).

(** ** get_next_line.h *)

Definition GNL_LINE_READ : Z := 1.
Definition GNL_EOF : Z := 0.
Definition GNL_ERROR : Z := -1.

(** The configuration macros, overridable at compile time. *)
Record config := {
  GNL_BUFFER_SIZE : Z;
  GNL_MAX_FD : Z;
  GNL_DEFAULT_DELIM : byte
}.

Definition default_config : config :=
  {| GNL_BUFFER_SIZE := 4096; GNL_MAX_FD := 1024; GNL_DEFAULT_DELIM := x0a |}.

Record t_gnl_buffer := {
  data : list byte;
  size : Z;
  len : Z;
  eof_reached : Z
}.

(** ** The host environment: allocator and file descriptors *)

Inductive alloc_ev :=
  | AllocFail
  | AllocOk (junk : byte).

Inductive read_ev :=
  | ReadFail
  | ReadShort (k : positive).

(** An open descriptor: the bytes the stream has still to deliver and the
    behaviour of the coming [read] calls. *)
Record file := {
  f_bytes : list byte;
  f_script : list read_ev
}.

Record world := {
  w_files : gmap Z file;
  w_allocs : list alloc_ev
}.

(** The next answer of the allocator: [None] for a failure, otherwise the
    byte an uninitialised block happens to be filled with. *)
Definition next_alloc (w : world) : option byte * world :=
  match w_allocs w with
  | [] => (Some x00, w)
  | AllocFail :: s => (None, {| w_files := w_files w; w_allocs := s |})
  | AllocOk junk :: s => (Some junk, {| w_files := w_files w; w_allocs := s |})
  end.

Definition malloc (n : Z) (w : world) : option (list byte) * world :=
  match next_alloc w with
  | (None, w') => (None, w')
  | (Some junk, w') => (Some (replicate (Z.to_nat n) junk), w')
  end.

(** [realloc] keeps the common prefix of the old block.  ([realloc(p, 0)]
    is implementation-defined in C; here it gives an empty block.  The
    range hypotheses of the theorems keep the requested size positive.) *)
Definition realloc (old : list byte) (n : Z) (w : world)
  : option (list byte) * world :=
  match next_alloc w with
  | (None, w') => (None, w')
  | (Some junk, w') => (Some (resize (Z.to_nat n) junk old), w')
  end.

(** [calloc(1, sizeof(t_gnl_buffer))]: a zeroed structure. *)
Definition calloc_buffer (w : world) : option t_gnl_buffer * world :=
  match next_alloc w with
  | (None, w') => (None, w')
  | (Some _, w') =>
      (Some {| data := []; size := 0; len := 0; eof_reached := 0 |}, w')
  end.

(** Writing [src] into the block [dst] at offset [off]
    ([memcpy], [memmove] and the kernel's copy in [read]).  Writing past
    the end of [dst] overflows the block in C; the list then grows, and
    [wf_buf] together with the room made by [gnl_ensure_capacity] rules it
    out. *)
Definition mem_write (dst : list byte) (off : nat) (src : list byte)
  : list byte :=
  take off dst ++ src ++ drop (off + length src) dst.

(** [read(fd, _, count)]: the return value, the bytes delivered and the
    new world.  A read delivers at least one byte while the stream has some
    left, and zero bytes only at its end. *)
Definition sys_read (fd : Z) (count : Z) (w : world)
  : Z * list byte * world :=
  match w_files w !! fd with
  | None => (-1, [], w)
  | Some f =>
      let deliver (n : Z) (s : list read_ev) :=
        let got := take (Z.to_nat n) (f_bytes f) in
        (Z.of_nat (length got), got,
         {| w_files :=
              <[fd := {| f_bytes := drop (Z.to_nat n) (f_bytes f);
                         f_script := s |}]> (w_files w);
            w_allocs := w_allocs w |}) in
      match f_script f with
      | [] => deliver count []
      | ReadFail :: s =>
          (-1, [],
           {| w_files :=
                <[fd := {| f_bytes := f_bytes f; f_script := s |}]> (w_files w);
              w_allocs := w_allocs w |})
      | ReadShort k :: s => deliver (Z.min count (Z.pos k)) s
      end
  end.

(** [memchr(s, c, n)]: offset of the first [c] among the first [n] bytes. *)
Fixpoint memchr (s : list byte) (c : byte) (n : nat) : option nat :=
  match n, s with
  | S n', b :: s' =>
      if Byte.eqb b c then Some O else option_map S (memchr s' c n')
  | _, _ => None
  end.

(** ** get_next_line.c *)

Record machine := {
  g_buffers : gmap Z t_gnl_buffer;
  os : world
}.

Section Code.

Variable cfg : config.

(** [gnl_get_buffer]: the buffer of [fd], allocated on first use
    ([calloc] of the structure, then [malloc(GNL_BUFFER_SIZE)] for the
    data; the structure is freed again when the second allocation fails). *)
Definition gnl_get_buffer (fd : Z) (m : machine)
  : option t_gnl_buffer * machine :=
  match g_buffers m !! fd with
  | Some buf => (Some buf, m)
  | None =>
      match calloc_buffer (os m) with
      | (None, w1) => (None, {| g_buffers := g_buffers m; os := w1 |})
      | (Some buf0, w1) =>
          match malloc (to_size (GNL_BUFFER_SIZE cfg)) w1 with
          | (None, w2) => (None, {| g_buffers := g_buffers m; os := w2 |})
          | (Some block, w2) =>
              let buf := {| data := block;
                            size := to_size (GNL_BUFFER_SIZE cfg);
                            len := 0;
                            eof_reached := 0 |} in
              (Some buf,
               {| g_buffers := <[fd := buf]> (g_buffers m); os := w2 |})
          end
      end
  end.

(** [while (new_size - buf->len < needed) new_size *= 2;] *)
Fixpoint grow_size (fuel : nat) (new_size blen needed : Z) : option Z :=
  if usub new_size blen <? needed then
    match fuel with
    | O => None
    | S fuel' => grow_size fuel' (umul new_size 2) blen needed
    end
  else Some new_size.

(** [gnl_ensure_capacity]: returns [0], or [-1] when [realloc] fails. *)
Definition gnl_ensure_capacity (fuel : nat) (buf : t_gnl_buffer) (needed : Z)
    (w : world) : option (Z * t_gnl_buffer * world) :=
  if needed <=? usub (size buf) (len buf) then Some (0, buf, w)
  else
    match grow_size fuel (size buf) (len buf) needed with
    | None => None
    | Some new_size =>
        match realloc (data buf) new_size w with
        | (None, w') => Some (-1, buf, w')
        | (Some new_data, w') =>
            Some (0,
                  {| data := new_data; size := new_size;
                     len := len buf; eof_reached := eof_reached buf |},
                  w')
        end
    end.

(** [gnl_extract_line]: [malloc(line_len + 1)], [memcpy] of the first
    [line_len] bytes, the terminator at index [line_len], then [memmove] of
    the [remaining] bytes to the front.  The result is the whole allocated
    block, or [None] for a null pointer. *)
Definition gnl_extract_line (buf : t_gnl_buffer) (delim_pos : Z) (w : world)
  : option (list byte) * t_gnl_buffer * world :=
  let line_len := uadd delim_pos 1 in
  match malloc (uadd line_len 1) w with
  | (None, w') => (None, buf, w')
  | (Some block, w') =>
      let line :=
        <[Z.to_nat line_len := x00]>
          (mem_write block 0 (take (Z.to_nat line_len) (data buf))) in
      let remaining := usub (len buf) line_len in
      let data' :=
        if 0 <? remaining then
          mem_write (data buf) 0
            (take (Z.to_nat remaining) (drop (Z.to_nat line_len) (data buf)))
        else data buf in
      (Some line,
       {| data := data'; size := size buf;
          len := remaining; eof_reached := eof_reached buf |},
       w')
  end.

(** [gnl_fill_buffer]: room for one chunk, then one [read] into
    [buf->data + buf->len]. *)
Definition gnl_fill_buffer (fuel : nat) (fd : Z) (buf : t_gnl_buffer)
    (w : world) : option (Z * t_gnl_buffer * world) :=
  match gnl_ensure_capacity fuel buf (to_size (GNL_BUFFER_SIZE cfg)) w with
  | None => None
  | Some (r, buf1, w1) =>
      if r <? 0 then Some (-1, buf1, w1)
      else
        let '(bytes_read, got, w2) :=
          sys_read fd (to_size (GNL_BUFFER_SIZE cfg)) w1 in
        if bytes_read <? 0 then Some (-1, buf1, w2)
        else
          Some (bytes_read,
                {| data := mem_write (data buf1) (Z.to_nat (len buf1)) got;
                   size := size buf1;
                   len := uadd (len buf1) bytes_read;
                   eof_reached :=
                     if bytes_read =? 0 then 1 else eof_reached buf1 |},
                w2)
  end.

(** [gnl_find_delim]: [memchr] over the first [len] bytes; the offset as
    an [ssize_t], or [-1]. *)
Definition gnl_find_delim (buf : t_gnl_buffer) (delim : byte) : Z :=
  if len buf =? 0 then -1
  else
    match memchr (data buf) delim (Z.to_nat (len buf)) with
    | Some found => to_ssize (Z.of_nat found)
    | None => -1
    end.

(** The status returned after an extraction: [GNL_LINE_READ] when the
    line was allocated, [GNL_ERROR] when it is null. *)
Definition line_status (line : option (list byte)) : Z :=
  match line with
  | Some _ => GNL_LINE_READ
  | None => GNL_ERROR
  end.

(** The [while (1)] loop of [get_next_line_delim], on the buffer that
    [g_buffers[fd]] points to. *)
Fixpoint gnl_read_loop (fuel : nat) (fd : Z) (delim : byte)
    (buf : t_gnl_buffer) (w : world)
  : option (Z * option (list byte) * t_gnl_buffer * world) :=
  match fuel with
  | O => None
  | S fuel' =>
      let delim_pos := gnl_find_delim buf delim in
      if 0 <=? delim_pos then
        let '(line, buf', w') :=
          gnl_extract_line buf (to_size delim_pos) w in
        Some (line_status line, line, buf', w')
      else if negb (eof_reached buf =? 0) then
        if 0 <? len buf then
          let '(line, buf', w') :=
            gnl_extract_line buf (usub (len buf) 1) w in
          Some (line_status line, line, buf', w')
        else Some (GNL_EOF, None, buf, w)
      else
        match gnl_fill_buffer fuel' fd buf w with
        | None => None
        | Some (bytes_read, buf', w') =>
            if bytes_read <? 0 then Some (GNL_ERROR, None, buf', w')
            else gnl_read_loop fuel' fd delim buf' w'
        end
  end.

(** The argument [line : char **] is [None] for a null pointer and
    [Some slot] for a pointer to a slot holding [slot]; the result gives the
    slot back as the call leaves it. *)
Definition get_next_line_delim (fuel : nat) (fd : Z)
    (line : option (option (list byte))) (delim : byte) (m : machine)
  : option (Z * option (option (list byte)) * machine) :=
  match line with
  | None => Some (GNL_ERROR, line, m)
  | Some _ =>
      if (fd <? 0) || (GNL_MAX_FD cfg <=? fd) then Some (GNL_ERROR, line, m)
      else
        match gnl_get_buffer fd m with
        | (None, m1) => Some (GNL_ERROR, Some None, m1)
        | (Some buf, m1) =>
            match gnl_read_loop fuel fd delim buf (os m1) with
            | None => None
            | Some (ret, out, buf', w') =>
                Some (ret, Some out,
                      {| g_buffers := <[fd := buf']> (g_buffers m1);
                         os := w' |})
            end
        end
  end.

Definition get_next_line (fuel : nat) (fd : Z)
    (line : option (option (list byte))) (m : machine) :=
  get_next_line_delim fuel fd line (GNL_DEFAULT_DELIM cfg) m.

(** [gnl_close]: frees the buffer of [fd] and clears its entry. *)
Definition gnl_close (fd : Z) (m : machine) : machine :=
  if (fd <? 0) || (GNL_MAX_FD cfg <=? fd) then m
  else
    match g_buffers m !! fd with
    | Some _ => {| g_buffers := delete fd (g_buffers m); os := os m |}
    | None => m
    end.

(** [i = 0; while (i < GNL_MAX_FD) { gnl_close(i); i++; }] *)
Fixpoint gnl_cleanup_loop (todo : nat) (i : Z) (m : machine) : machine :=
  match todo with
  | O => m
  | S todo' => gnl_cleanup_loop todo' (i + 1) (gnl_close i m)
  end.

Definition gnl_cleanup_all (m : machine) : machine :=
  gnl_cleanup_loop (Z.to_nat (GNL_MAX_FD cfg)) 0 m.

End Code.

(** ** A client reading a descriptor to its end *)

(** What one call hands back: the status and the slot [*line]. *)
Definition outcome : Type := Z * option (option (list byte)).

(** Successive calls of [get_next_line_delim] on [fd], up to and including
    the one that returns [GNL_EOF].  Each call is given a slot holding a
    null pointer. *)
Fixpoint read_to_eof (cfg : config) (calls fuel : nat) (fd : Z) (delim : byte)
    (m : machine) : option (list outcome * machine) :=
  match calls with
  | O => None
  | S calls' =>
      match get_next_line_delim cfg fuel fd (Some None) delim m with
      | None => None
      | Some (ret, line, m') =>
          if ret =? GNL_EOF then Some ([(ret, line)], m')
          else
            match read_to_eof cfg calls' fuel fd delim m' with
            | None => None
            | Some (outs, m'') => Some ((ret, line) :: outs, m'')
            end
      end
  end.

(** The segment held by a returned line: the block without its final
    terminator byte. *)
Definition segment (block : list byte) : list byte :=
  take (length block - 1) block.

(** The segments returned by a run, in call order. *)
Fixpoint segments (outs : list outcome) : list (list byte) :=
  match outs with
  | [] => []
  | (ret, Some (Some block)) :: outs' =>
      if ret =? GNL_LINE_READ then segment block :: segments outs'
      else segments outs'
  | _ :: outs' => segments outs'
  end.

(** A machine with no buffer yet and one open descriptor that delivers
    [bytes] with the given scripts. *)
Definition fresh_machine (fd : Z) (bytes : list byte)
    (reads : list read_ev) (allocs : list alloc_ev) : machine :=
  {| g_buffers := ∅;
     os := {| w_files := {[ fd := {| f_bytes := bytes; f_script := reads |} ]};
              w_allocs := allocs |} |}.

(** ** Abstraction of a machine: what is still to be returned *)

(** The unconsumed bytes of a buffer, [data[0, len)]. *)
Definition valid (buf : t_gnl_buffer) : list byte :=
  take (Z.to_nat (len buf)) (data buf).

(** The representation invariant of a buffer: the block has [size] bytes,
    of which the first [len] are in use. *)
Definition wf_buf (buf : t_gnl_buffer) : Prop :=
  0 < size buf < SIZE_MODULUS /\
  0 <= len buf <= size buf /\
  Z.of_nat (length (data buf)) = size buf.

Definition buffered (fd : Z) (m : machine) : list byte :=
  match g_buffers m !! fd with
  | Some buf => valid buf
  | None => []
  end.

Definition unread (fd : Z) (w : world) : list byte :=
  match w_files w !! fd with
  | Some f => f_bytes f
  | None => []
  end.

(** Everything the stream behind [fd] produced and no call has returned
    yet: the bytes kept in the buffer, then those not read so far. *)
Definition pending (fd : Z) (m : machine) : list byte :=
  buffered fd m ++ unread fd (os m).

Fixpoint alloc_failures (s : list alloc_ev) : nat :=
  match s with
  | [] => O
  | AllocFail :: s' => S (alloc_failures s')
  | AllocOk _ :: s' => alloc_failures s'
  end.

Fixpoint read_failures (s : list read_ev) : nat :=
  match s with
  | [] => O
  | ReadFail :: s' => S (read_failures s')
  | ReadShort _ :: s' => read_failures s'
  end.

(** The failures the environment still has in store for [fd]. *)
Definition failures (fd : Z) (w : world) : nat :=
  (alloc_failures (w_allocs w) +
   match w_files w !! fd with
   | Some f => read_failures (f_script f)
   | None => O
   end)%nat.

(** A machine on which [fd] can be read: the descriptor is in range and
    open, its buffer (if any) is well formed and has seen the end of the
    stream only if nothing is left to read, and all sizes stay within the
    range of [ssize_t]. *)
Definition wf_machine (cfg : config) (fd : Z) (m : machine) : Prop :=
  0 <= fd < GNL_MAX_FD cfg /\
  0 < GNL_BUFFER_SIZE cfg /\
  is_Some (w_files (os m) !! fd) /\
  (forall buf, g_buffers m !! fd = Some buf ->
     wf_buf buf /\ (eof_reached buf <> 0 -> unread fd (os m) = [])) /\
  Z.of_nat (length (pending fd m)) + GNL_BUFFER_SIZE cfg <= 2 ^ 63.

(** ** Splitting a byte sequence after each delimiter *)

(** The first segment of [l] (through the first [d], or all of [l]) and
    what follows it. *)
Fixpoint cut_segment (d : byte) (l : list byte) : list byte * list byte :=
  match l with
  | [] => ([], [])
  | b :: l' =>
      if Byte.eqb b d then ([b], l')
      else let '(s, r) := cut_segment d l' in (b :: s, r)
  end.

Fixpoint split_acc (d : byte) (acc l : list byte) : list (list byte) :=
  match l with
  | [] => match acc with [] => [] | _ => [acc] end
  | b :: l' =>
      if Byte.eqb b d then (acc ++ [b]) :: split_acc d [] l'
      else split_acc d (acc ++ [b]) l'
  end.

(** The segments of [l]: each ends with its only [d], except possibly the
    last. *)
Definition split_segments (d : byte) (l : list byte) : list (list byte) :=
  split_acc d [] l.

(** A segment terminated by the delimiter: [d] once, in last position. *)
Definition delimited (d : byte) (s : list byte) : Prop :=
  exists body, s = body ++ [d] /\ d ∉ body.

(** ** The shape of a run *)

(** Fuel that lets one call on [m] run to its end: one turn of the loop per
    byte to read plus two, and the doublings of one refill. *)
Definition call_fuel (cfg : config) (fd : Z) (m : machine) : nat :=
  (length (unread fd (os m)) + 2 +
   Z.to_nat (Z.of_nat (length (pending fd m)) + GNL_BUFFER_SIZE cfg))%nat.

Definition line_outcome (seg : list byte) : outcome :=
  (GNL_LINE_READ, Some (Some (seg ++ [x00]))).

Definition eof_outcome : outcome := (GNL_EOF, Some None).

Definition error_outcome : outcome := (GNL_ERROR, Some None).

(** [run_of d p k outs]: [outs] returns the bytes [p] segment by segment,
    interleaved with at most [k] failed calls, and ends with the end of
    stream. *)
Inductive run_of (d : byte) : list byte -> nat -> list outcome -> Prop :=
  | run_eof k : run_of d [] k [eof_outcome]
  | run_line p k seg p' outs :
      p <> [] -> cut_segment d p = (seg, p') -> run_of d p' k outs ->
      run_of d p k (line_outcome seg :: outs)
  | run_error p k outs :
      run_of d p k outs -> run_of d p (S k) (error_outcome :: outs).

(** A handle read for the first time: [fd] is in range and open on a stream
    that still holds [f_bytes f], no buffer exists for it, and the sizes fit
    the range of [ssize_t]. *)
Definition fresh_handle (cfg : config) (fd : Z) (m : machine) (f : file)
  : Prop :=
  0 <= fd < GNL_MAX_FD cfg /\
  0 < GNL_BUFFER_SIZE cfg /\
  g_buffers m !! fd = None /\
  w_files (os m) !! fd = Some f /\
  Z.of_nat (length (f_bytes f)) + GNL_BUFFER_SIZE cfg <= 2 ^ 63.

(** Calls and fuel that suffice to read [m] to the end of [fd]. *)
Definition run_bound (cfg : config) (fd : Z) (m : machine) : nat :=
  (length (pending fd m) + failures fd (os m) + 1 + call_fuel cfg fd m)%nat.

(** ** Several descriptors read in turn *)

(** One call on each descriptor of [sched], in that order; every outcome is
    filed under the descriptor it was returned for. *)
Fixpoint interleave (cfg : config) (fuel : nat) (delim : byte)
    (sched : list Z) (m : machine) : option (list (Z * outcome) * machine) :=
  match sched with
  | [] => Some ([], m)
  | fd :: sched' =>
      match get_next_line_delim cfg fuel fd (Some None) delim m with
      | None => None
      | Some (ret, line, m') =>
          match interleave cfg fuel delim sched' m' with
          | None => None
          | Some (outs, m'') => Some ((fd, (ret, line)) :: outs, m'')
          end
      end
  end.

(** The outcomes filed under [fd], in call order. *)
Fixpoint outcomes_for (fd : Z) (outs : list (Z * outcome)) : list outcome :=
  match outs with
  | [] => []
  | (fd', o) :: outs' =>
      if fd' =? fd then o :: outcomes_for fd outs' else outcomes_for fd outs'
  end.

(** ** The older reader: get_next_line_bonus.c and its utilities

    The repository keeps an earlier reader that works on zero-terminated
    strings.  A [char *] is [None] for a null pointer and [Some blk] for a
    pointer to the first byte of the heap block [blk]; the C string it
    denotes ends at the first zero byte of [blk].  A result [None] of one of
    these functions stands for undefined behaviour: an access outside a
    block, a write through a null pointer, an overflow of an [int], or an
    index outside the array [container].  (No loop here runs out of fuel
    before that: each is given one more turn than the block has bytes, and
    [read_loop] takes its fuel from the caller.)

    The header [get_next_line_bonus.h] is not part of the sources; the
    macro [BUFFER_SIZE] it defines is a parameter. *)

Module Bonus.

Definition INT_MAX : Z := 2 ^ 31 - 1.

(** [int] addition; [None] on signed overflow, which is undefined. *)
Definition int_add (a b : Z) : option Z :=
  if (- 2 ^ 31 <=? a + b) && (a + b <=? INT_MAX) then Some (a + b) else None.

(** [(char)c] for an [int c]. *)
Definition to_char (c : Z) : byte :=
  match Byte.of_N (Z.to_N (c mod 256)) with
  | Some b => b
  | None => x00
  end.

(** [str[i]]; [None] when the access leaves the block. *)
Definition char_at (str : list byte) (i : Z) : option byte :=
  if i <? 0 then None else str !! Z.to_nat i.

(** [str[i] = c]; [None] when the access leaves the block. *)
Definition store (str : list byte) (i : Z) (c : byte) : option (list byte) :=
  if (0 <=? i) && (i <? Z.of_nat (length str)) then
    Some (<[Z.to_nat i := c]> str)
  else None.

(** *** get_next_line_utils_bonus.c *)

(** [while (str[x] != '\0') x++;] with [size_t x]. *)
Fixpoint strlen_loop (fuel : nat) (str : list byte) (x : Z) : option Z :=
  match fuel with
  | O => None
  | S fuel' =>
      c ← char_at str x;
      if Byte.eqb c x00 then Some x else strlen_loop fuel' str (uadd x 1)
  end.

Definition ft_strlen (str : list byte) : option Z :=
  strlen_loop (S (length str)) str 0.

(** [while (s[i] != '\0') if (s[i++] == (char) c) return (1);]
    with [int i]. *)
Fixpoint strchr_loop (fuel : nat) (s : list byte) (c : byte) (i : Z)
  : option Z :=
  match fuel with
  | O => None
  | S fuel' =>
      b ← char_at s i;
      if Byte.eqb b x00 then Some 0
      else
        i' ← int_add i 1;
        if Byte.eqb b c then Some 1 else strchr_loop fuel' s c i'
  end.

Definition ft_strchr (s : option (list byte)) (c : Z) : option Z :=
  match s with
  | None => Some 0
  | Some str =>
      if c =? 0 then Some 1
      else strchr_loop (S (length str)) str (to_char c) 0
  end.

(** [while (first_str[++i]) str[i] = first_str[i];] with [size_t i]. *)
Fixpoint join_first (fuel : nat) (first_str str : list byte) (i : Z)
  : option (Z * list byte) :=
  match fuel with
  | O => None
  | S fuel' =>
      let i1 := uadd i 1 in
      c ← char_at first_str i1;
      if Byte.eqb c x00 then Some (i1, str)
      else str' ← store str i1 c; join_first fuel' first_str str' i1
  end.

(** [while (second_str[j]) str[i++] = second_str[j++];] *)
Fixpoint join_second (fuel : nat) (second_str str : list byte) (i j : Z)
  : option (Z * list byte) :=
  match fuel with
  | O => None
  | S fuel' =>
      c ← char_at second_str j;
      if Byte.eqb c x00 then Some (i, str)
      else
        str' ← store str i c;
        join_second fuel' second_str str' (uadd i 1) (uadd j 1)
  end.

(** [ft_strjoin]: a null [first_str] is replaced by a fresh empty string
    (written without checking [malloc]'s result); the joined string is
    built in a new block and [first_str] is freed. *)
Definition ft_strjoin (first_str second_str : option (list byte)) (w : world)
  : option (option (list byte) * world) :=
  '(first1, w1) ←
    match first_str with
    | Some blk => Some (blk, w)
    | None =>
        match malloc 1 w with
        | (None, w') => None
        | (Some blk, w') => blk' ← store blk 0 x00; Some (blk', w')
        end
    end;
  match second_str with
  | None => Some (None, w1)
  | Some second1 =>
      n1 ← ft_strlen first1;
      n2 ← ft_strlen second1;
      match malloc (uadd (uadd n1 n2) 1) w1 with
      | (None, w2) => Some (None, w2)
      | (Some str, w2) =>
          '(i, str1) ← join_first (S (length first1)) first1 str (to_size (-1));
          '(i', str2) ← join_second (S (length second1)) second1 str1 i 0;
          str3 ← store str2 i' x00;
          Some (Some str3, w2)
      end
  end.

(** *** get_next_line_bonus.c *)

(** [while (str[i] && str[i] != '\n') i++;] with [int i] ([ft_save_line]
    writes the two tests in the other order). *)
Fixpoint scan_line (fuel : nat) (str : list byte) (i : Z) : option Z :=
  match fuel with
  | O => None
  | S fuel' =>
      c ← char_at str i;
      if Byte.eqb c x00 || Byte.eqb c x0a then Some i
      else i' ← int_add i 1; scan_line fuel' str i'
  end.

(** [while (str[i] && str[i] != '\n') new_line[j++] = str[i++];] *)
Fixpoint save_copy (fuel : nat) (str new_line : list byte) (i j : Z)
  : option (Z * Z * list byte) :=
  match fuel with
  | O => None
  | S fuel' =>
      c ← char_at str i;
      if Byte.eqb c x00 || Byte.eqb c x0a then Some (i, j, new_line)
      else
        new_line' ← store new_line j c;
        j' ← int_add j 1;
        i' ← int_add i 1;
        save_copy fuel' str new_line' i' j'
  end.

(** [ft_save_line]: a copy of the first line of [str], newline included;
    null for a null or empty [str] and when [malloc] fails. *)
Definition ft_save_line (str : option (list byte)) (w : world)
  : option (option (list byte) * world) :=
  match str with
  | None => Some (None, w)
  | Some s =>
      c0 ← char_at s 0;
      if Byte.eqb c0 x00 then Some (None, w)
      else
        i ← scan_line (S (length s)) s 0;
        ci ← char_at s i;
        n ← (if Byte.eqb ci x0a then int_add i 2 else int_add i 1);
        match malloc (to_size n) w with
        | (None, w') => Some (None, w')
        | (Some new_line, w') =>
            '(i1, j1, new_line1) ← save_copy (S (length s)) s new_line 0 0;
            c1 ← char_at s i1;
            '(i2, new_line2) ←
              (if Byte.eqb c1 x0a then
                 new_line' ← store new_line1 j1 c1;
                 _ ← int_add j1 1;
                 i' ← int_add i1 1;
                 Some (i', new_line')
               else Some (i1, new_line1));
            new_line3 ← store new_line2 i2 x00;
            Some (Some new_line3, w')
        end
  end.

(** [while (str[i++]) right_line[j++] = str[i];] *)
Fixpoint next_copy (fuel : nat) (str right_line : list byte) (i j : Z)
  : option (Z * list byte) :=
  match fuel with
  | O => None
  | S fuel' =>
      c ← char_at str i;
      i' ← int_add i 1;
      if Byte.eqb c x00 then Some (j, right_line)
      else
        c' ← char_at str i';
        right_line' ← store right_line j c';
        j' ← int_add j 1;
        next_copy fuel' str right_line' i' j'
  end.

(** [ft_next_line]: a new block with what follows the first line; [str] is
    freed, except when [malloc] fails. *)
Definition ft_next_line (str : option (list byte)) (w : world)
  : option (option (list byte) * world) :=
  match str with
  | None => Some (None, w)
  | Some s =>
      i ← scan_line (S (length s)) s 0;
      n ← ft_strlen s;
      match malloc (uadd (usub n (to_size i)) 1) w with
      | (None, w') => Some (None, w')
      | (Some right_line, w') =>
          '(j, right_line1) ← next_copy (S (length s)) s right_line i 0;
          right_line2 ← store right_line1 j x00;
          Some (Some right_line2, w')
      end
  end.

(** The array [static char *container[1024]] and the environment. *)
Record state := {
  container : gmap Z (list byte);
  env : world
}.

Section WithBufferSize.

Variable BUFFER_SIZE : Z.

(** The loop of [ft_read_line]:
    [while (!ft_strchr(str, '\n') && byread != 0)]; [buff] is the chunk
    buffer. *)
Fixpoint read_loop (fuel : nat) (fd : Z) (str : option (list byte))
    (buff : list byte) (byread : Z) (w : world)
  : option (option (list byte) * world) :=
  match fuel with
  | O => None
  | S fuel' =>
      found ← ft_strchr str 10;
      if (found =? 0) && negb (byread =? 0) then
        let '(r, got, w1) := sys_read fd (to_size BUFFER_SIZE) w in
        if r <? 0 then Some (None, w1)
        else
          buff1 ← store (mem_write buff 0 got) r x00;
          '(str', w2) ← ft_strjoin str (Some buff1) w1;
          match str' with
          | None => Some (None, w2)
          | Some _ => read_loop fuel' fd str' buff1 r w2
          end
      else Some (str, w)
  end.

Definition ft_read_line (fuel : nat) (fd : Z) (str : option (list byte))
    (w : world) : option (option (list byte) * world) :=
  n ← int_add BUFFER_SIZE 1;
  match malloc (to_size n) w with
  | (None, w') => Some (None, w')
  | (Some buff, w') => read_loop fuel fd str buff 1 w'
  end.

(** [get_next_line(fd)]: the returned line, or null.  Every path of the
    function indexes [container[fd]], so a descriptor outside [0, 1024) is
    undefined. *)
Definition get_next_line (fuel : nat) (fd : Z) (m : state)
  : option (option (list byte) * state) :=
  if (fd <? 0) || (1024 <=? fd) then None
  else
    let '(bad, w1) :=
      if BUFFER_SIZE <=? 0 then (true, env m)
      else let '(r, _, w') := sys_read fd 0 (env m) in (r <? 0, w') in
    let dropped w :=
      Some (None, {| container := delete fd (container m); env := w |}) in
    if bad then dropped w1
    else
      '(str, w2) ← ft_read_line fuel fd (container m !! fd) w1;
      match str with
      | None => dropped w2
      | Some s =>
          '(buffer, w3) ← ft_save_line (Some s) w2;
          match buffer with
          | None => dropped w3
          | Some line =>
              '(rest, w4) ← ft_next_line (Some s) w3;
              match rest with
              | None => dropped w4
              | Some r =>
                  Some (Some line,
                        {| container := <[fd := r]> (container m); env := w4 |})
              end
          end
      end.

(** Successive calls up to the first null result. *)
Fixpoint read_lines (calls fuel : nat) (fd : Z) (m : state)
  : option (list (list byte) * state) :=
  match calls with
  | O => None
  | S calls' =>
      '(line, m') ← get_next_line fuel fd m;
      match line with
      | None => Some ([], m')
      | Some blk =>
          '(lines, m'') ← read_lines calls' fuel fd m';
          Some (blk :: lines, m'')
      end
  end.

End WithBufferSize.

(** *** Zero-terminated strings *)

(** The C string held by a block: its bytes before the first zero byte. *)
Fixpoint c_string (blk : list byte) : list byte :=
  match blk with
  | [] => []
  | b :: blk' => if Byte.eqb b x00 then [] else b :: c_string blk'
  end.

(** The C string behind a pointer that may be null (the reader takes a
    null pointer for the empty string). *)
Definition string_of (p : option (list byte)) : list byte :=
  match p with
  | Some blk => c_string blk
  | None => []
  end.

(** A pointer to a block that holds a terminator, or null. *)
Definition terminated (p : option (list byte)) : Prop :=
  match p with
  | Some blk => x00 ∈ blk /\ Z.of_nat (length blk) < SIZE_MODULUS
  | None => True
  end.

(** Number of bytes before the first newline (all of them if none). *)
Fixpoint line_end (c : list byte) : nat :=
  match c with
  | [] => O
  | b :: c' => if Byte.eqb b x0a then O else S (line_end c')
  end.

(** What the older reader has still to return for [fd]: the string it
    keeps, then the unread bytes. *)
Definition bonus_pending (fd : Z) (m : state) : list byte :=
  string_of (container m !! fd) ++ unread fd (env m).

(** A state on which [fd] can be read by the older reader without
    meeting undefined behaviour or a failure: the descriptor indexes the
    array, the kept string is terminated, the stream holds no zero byte, no
    allocation or read is going to fail, and the lengths fit an [int]. *)
Definition ready (bs : Z) (fd : Z) (m : state) : Prop :=
  0 <= fd < 1024 /\
  0 < bs < INT_MAX /\
  terminated (container m !! fd) /\
  (exists f, w_files (env m) !! fd = Some f /\
     read_failures (f_script f) = O) /\
  (x00 ∉ unread fd (env m)) /\
  alloc_failures (w_allocs (env m)) = O /\
  Z.of_nat (length (bonus_pending fd m)) + 2 <= INT_MAX.

End Bonus.

#[global] Instance byte_eq_decision : EqDecision byte := Byte.byte_eq_dec.

(** ** Proof automation *)

(** Closes a goal whose hypothesis [H] looks up an empty list. *)
Ltac nil_lookup H := cbn in H; rewrite ?lookup_nil in H; discriminate.

(** Discharges [fresh_handle] on a concrete machine by evaluation. *)
Ltac concrete_handle :=
  unfold fresh_handle; repeat split;
  first [ reflexivity | simpl; lia | vm_compute; reflexivity ].

(** Discharges [Bonus.ready] on a concrete state by evaluation. *)
Ltac concrete_ready :=
  unfold Bonus.ready, Bonus.terminated, Bonus.bonus_pending, Bonus.string_of,
    unread;
  repeat split;
  first [ reflexivity | simpl; lia | vm_compute; reflexivity
        | vm_compute; discriminate
        | eexists; split; vm_compute; reflexivity
        | apply (bool_decide_unpack _); vm_compute; exact I ].

(** * Properties *)

(** ** Running the model *)

Example run_custom_delimiter :
  option_map fst
    (read_to_eof default_config 5 4 3 ","
       (fresh_machine 3 (list_byte_of_string "a,b,,c") [] [])) =
  Some [line_outcome (list_byte_of_string "a,");
        line_outcome (list_byte_of_string "b,");
        line_outcome (list_byte_of_string ",");
        line_outcome (list_byte_of_string "c");
        eof_outcome].
Proof. vm_compute. reflexivity. Qed.

Example run_newlines :
  option_map fst
    (read_to_eof default_config 4 4 0 x0a
       (fresh_machine 0 [x61; x62; x0a; x63; x64; x0a; x65; x66] [] [])) =
  Some [line_outcome [x61; x62; x0a];
        line_outcome [x63; x64; x0a];
        line_outcome [x65; x66];
        eof_outcome].
Proof. vm_compute. reflexivity. Qed.

Example run_empty_stream :
  option_map fst
    (read_to_eof default_config 1 3 0 x0a (fresh_machine 0 [] [] [])) =
  Some [eof_outcome].
Proof. vm_compute. reflexivity. Qed.

(** One byte per read, a failing read, a short read and failing
    allocations: the failed calls return [GNL_ERROR] and a null line, the
    segments are the same. *)
Example run_with_failures :
  option_map fst
    (read_to_eof
       {| GNL_BUFFER_SIZE := 1; GNL_MAX_FD := 8; GNL_DEFAULT_DELIM := x0a |}
       10 10 3 ","
       (fresh_machine 3 (list_byte_of_string "a,b,,c")
          [ReadFail; ReadShort 1]
          [AllocOk x41; AllocFail; AllocOk x42; AllocOk x43; AllocFail])) =
  Some [error_outcome; error_outcome; error_outcome;
        line_outcome (list_byte_of_string "a,");
        line_outcome (list_byte_of_string "b,");
        line_outcome (list_byte_of_string ",");
        line_outcome (list_byte_of_string "c");
        eof_outcome].
Proof. vm_compute. reflexivity. Qed.

(** The compaction leaves stale bytes behind [len]; they are never
    searched. *)
Example extract_compacts :
  let buf := {| data := list_byte_of_string "a,b,,c.."; size := 8; len := 6;
                eof_reached := 0 |} in
  gnl_extract_line buf 1 {| w_files := ∅; w_allocs := [] |} =
  (Some (list_byte_of_string "a," ++ [x00]),
   {| data := list_byte_of_string "b,,c,c.."; size := 8; len := 4;
      eof_reached := 0 |},
   {| w_files := ∅; w_allocs := [] |}).
Proof. vm_compute. reflexivity. Qed.

(** ** Machine arithmetic within range *)

Lemma to_size_small z : 0 <= z < SIZE_MODULUS -> to_size z = z.
Proof. intros H. unfold to_size. apply Z.mod_small. exact H. Qed.

Lemma to_ssize_small z : - 2 ^ 63 <= z < 2 ^ 63 -> to_ssize z = z.
Proof.
  intros H. unfold to_ssize, SIZE_MODULUS.
  rewrite Z.mod_small; lia.
Qed.

Lemma usub_small a b : 0 <= b <= a -> a < SIZE_MODULUS -> usub a b = a - b.
Proof. intros H1 H2. unfold usub. apply to_size_small. lia. Qed.

Lemma uadd_small a b : 0 <= a -> 0 <= b -> a + b < SIZE_MODULUS -> uadd a b = a + b.
Proof. intros H1 H2 H3. unfold uadd. apply to_size_small. lia. Qed.

Lemma umul_small a b : 0 <= a -> 0 <= b -> a * b < SIZE_MODULUS -> umul a b = a * b.
Proof. intros H1 H2 H3. unfold umul. apply to_size_small. lia. Qed.

Lemma size_modulus_eq : SIZE_MODULUS = 2 * 2 ^ 63.
Proof. reflexivity. Qed.

(** ** The doubling loop *)

Lemma grow_size_spec fuel : forall ns blen needed,
  0 < ns -> 0 <= blen <= ns -> ns < SIZE_MODULUS ->
  blen + needed <= 2 ^ 63 ->
  (Z.to_nat (blen + needed - ns) <= fuel)%nat ->
  exists k : nat,
    grow_size fuel ns blen needed = Some (ns * 2 ^ Z.of_nat k) /\
    needed <= ns * 2 ^ Z.of_nat k - blen /\
    ns * 2 ^ Z.of_nat k < SIZE_MODULUS /\
    (forall j : nat, (j < k)%nat -> ns * 2 ^ Z.of_nat j - blen < needed).
Proof.
  induction fuel as [|fuel IH]; intros ns blen needed Hns Hlen Hlt Hsum Hfuel.
  - exists O. cbn [grow_size]. rewrite usub_small by lia.
    destruct (Z.ltb_spec (ns - blen) needed) as [Hc|Hc]; [lia|].
    change (2 ^ Z.of_nat 0) with 1. rewrite Z.mul_1_r.
    repeat split; intros; lia.
  - cbn [grow_size]. rewrite usub_small by lia.
    destruct (Z.ltb_spec (ns - blen) needed) as [Hc|Hc].
    + pose proof size_modulus_eq as HM.
      rewrite umul_small by lia.
      destruct (IH (ns * 2) blen needed) as (k & Hk & Hge & Hlt' & Hmin);
        try lia.
      exists (S k).
      assert (Hpow : ns * 2 ^ Z.of_nat (S k) = ns * 2 * 2 ^ Z.of_nat k).
      { rewrite Nat2Z.inj_succ, Z.pow_succ_r by lia. ring. }
      rewrite Hpow. repeat split; try assumption.
      intros j Hj. destruct j as [|j].
      * change (2 ^ Z.of_nat 0) with 1. lia.
      * rewrite Nat2Z.inj_succ, Z.pow_succ_r by lia.
        specialize (Hmin j). replace (ns * (2 * 2 ^ Z.of_nat j))
          with (ns * 2 * 2 ^ Z.of_nat j) by ring. apply Hmin. lia.
    + exists O. change (2 ^ Z.of_nat 0) with 1. rewrite Z.mul_1_r.
      repeat split; intros; lia.
Qed.

(** ** The allocator *)

Lemma next_alloc_cases w :
  (exists junk w', next_alloc w = (Some junk, w') /\
     w_files w' = w_files w /\
     alloc_failures (w_allocs w') = alloc_failures (w_allocs w)) \/
  (exists w', next_alloc w = (None, w') /\
     w_files w' = w_files w /\
     S (alloc_failures (w_allocs w')) = alloc_failures (w_allocs w)).
Proof.
  unfold next_alloc. destruct (w_allocs w) as [|[|junk] s] eqn:E.
  - left. exists x00, w. rewrite E. auto.
  - right. eexists. split; [reflexivity|]. cbn. auto.
  - left. exists junk. eexists. split; [reflexivity|]. cbn. auto.
Qed.

Lemma failures_alloc_same fd w w' :
  w_files w' = w_files w ->
  alloc_failures (w_allocs w') = alloc_failures (w_allocs w) ->
  failures fd w' = failures fd w.
Proof. intros Hf Ha. unfold failures. rewrite Hf, Ha. reflexivity. Qed.

Lemma failures_alloc_less fd w w' :
  w_files w' = w_files w ->
  S (alloc_failures (w_allocs w')) = alloc_failures (w_allocs w) ->
  S (failures fd w') = failures fd w.
Proof. intros Hf Ha. unfold failures. rewrite Hf, <- Ha. reflexivity. Qed.

Lemma unread_files fd w w' : w_files w' = w_files w -> unread fd w' = unread fd w.
Proof. intros Hf. unfold unread. rewrite Hf. reflexivity. Qed.

(** ** gnl_ensure_capacity *)

Lemma valid_length buf :
  wf_buf buf -> Z.of_nat (length (valid buf)) = len buf.
Proof.
  intros (Hs & Hl & Hd). unfold valid. rewrite length_take. lia.
Qed.

(** The two branches of [gnl_ensure_capacity] on a well-formed buffer: no
    change when the room is there, otherwise the size reached by the
    doubling loop and the answer of [realloc]. *)
Lemma ensure_capacity_cases fuel buf needed w :
  wf_buf buf ->
  len buf + needed <= 2 ^ 63 ->
  (Z.to_nat (len buf + needed) <= fuel)%nat ->
  (needed <= size buf - len buf /\
   gnl_ensure_capacity fuel buf needed w = Some (0, buf, w)) \/
  (size buf - len buf < needed /\
   exists k : nat,
     (0 < k)%nat /\
     needed <= size buf * 2 ^ Z.of_nat k - len buf /\
     size buf * 2 ^ Z.of_nat k < SIZE_MODULUS /\
     (forall j : nat, (j < k)%nat ->
        size buf * 2 ^ Z.of_nat j - len buf < needed) /\
     gnl_ensure_capacity fuel buf needed w =
       match next_alloc w with
       | (None, w') => Some (-1, buf, w')
       | (Some junk, w') =>
           Some (0,
                 {| data := resize (Z.to_nat (size buf * 2 ^ Z.of_nat k))
                              junk (data buf);
                    size := size buf * 2 ^ Z.of_nat k;
                    len := len buf;
                    eof_reached := eof_reached buf |},
                 w')
       end).
Proof.
  intros (Hs & Hl & Hd) Hsum Hfuel. unfold gnl_ensure_capacity.
  rewrite usub_small by lia.
  destruct (Z.leb_spec needed (size buf - len buf)) as [Hc|Hc].
  - left. auto.
  - right. split; [assumption|].
    destruct (grow_size_spec fuel (size buf) (len buf) needed)
      as (k & Hk & Hge & Hlt & Hmin); try lia.
    exists k. split.
    { destruct k as [|k]; [|lia]. change (2 ^ Z.of_nat 0) with 1 in Hge. lia. }
    repeat split; try assumption.
    rewrite Hk. unfold realloc. destruct (next_alloc w) as [[junk|] w']; reflexivity.
Qed.

Lemma ensure_capacity_spec fuel buf needed w :
  wf_buf buf ->
  len buf + needed <= 2 ^ 63 ->
  (Z.to_nat (len buf + needed) <= fuel)%nat ->
  exists r buf' w',
    gnl_ensure_capacity fuel buf needed w = Some (r, buf', w') /\
    w_files w' = w_files w /\
    ((r = 0 /\ wf_buf buf' /\ len buf' = len buf /\
      eof_reached buf' = eof_reached buf /\ valid buf' = valid buf /\
      needed <= size buf' - len buf' /\
      alloc_failures (w_allocs w') = alloc_failures (w_allocs w)) \/
     (r = -1 /\ buf' = buf /\
      S (alloc_failures (w_allocs w')) = alloc_failures (w_allocs w))).
Proof.
  intros Hwf Hsum Hfuel.
  destruct (ensure_capacity_cases fuel buf needed w Hwf Hsum Hfuel)
    as [[Hc Heq]|[Hc (k & Hk & Hge & Hlt & Hmin & Heq)]].
  - exists 0, buf, w. split; [assumption|]. split; [reflexivity|].
    left. repeat split; try apply Hwf; auto.
  - rewrite Heq. destruct Hwf as (Hs & Hl & Hd).
    destruct (next_alloc_cases w) as [(junk & w' & Hn & Hf & Ha)|(w' & Hn & Hf & Ha)];
      rewrite Hn.
    + eexists _, _, _. split; [reflexivity|]. split; [assumption|].
      left. cbn. split; [reflexivity|].
      assert (Hpos : size buf <= size buf * 2 ^ Z.of_nat k).
      { assert (1 <= 2 ^ Z.of_nat k) by (apply Z.pow_le_mono_r with (b := 0); lia).
        nia. }
      split.
      { unfold wf_buf; cbn. rewrite length_resize. lia. }
      repeat split; try assumption.
      unfold valid; cbn. rewrite take_resize_le by lia.
      apply resize_le. lia.
    + eexists _, _, _. split; [reflexivity|]. split; [assumption|].
      right. auto.
Qed.

(** ** gnl_find_delim *)

Lemma byte_eqb_refl b : Byte.eqb b b = true.
Proof. apply Byte.byte_dec_lb. reflexivity. Qed.

Lemma memchr_Some s : forall d n p,
  memchr s d n = Some p ->
  (p < n)%nat /\ s !! p = Some d /\ d ∉ take p s.
Proof.
  induction s as [|b s IH]; intros d n p H.
  - destruct n; discriminate.
  - destruct n as [|n]; [discriminate|]. cbn [memchr] in H.
    destruct (Byte.eqb b d) eqn:E.
    + injection H as <-. apply Byte.byte_dec_bl in E. subst b.
      split; [lia|]. split; [reflexivity|]. cbn. apply not_elem_of_nil.
    + destruct (memchr s d n) as [q|] eqn:Hq; [|discriminate].
      cbn in H. injection H as <-.
      destruct (IH d n q Hq) as (Hlt & Hlk & Hnot).
      split; [lia|]. split; [exact Hlk|].
      cbn. apply not_elem_of_cons. split; [|exact Hnot].
      intros ->. rewrite byte_eqb_refl in E. discriminate.
Qed.

Lemma memchr_None s : forall d n,
  memchr s d n = None -> (n <= length s)%nat -> d ∉ take n s.
Proof.
  induction s as [|b s IH]; intros d n H Hn.
  - rewrite take_nil. apply not_elem_of_nil.
  - destruct n as [|n]; [apply not_elem_of_nil|]. cbn [memchr] in H.
    destruct (Byte.eqb b d) eqn:E; [discriminate|].
    destruct (memchr s d n) as [q|] eqn:Hq; [discriminate|].
    cbn. apply not_elem_of_cons. split.
    + intros ->. rewrite byte_eqb_refl in E. discriminate.
    + apply IH; [exact Hq|]. cbn in Hn. lia.
Qed.

Lemma find_delim_cases buf d :
  wf_buf buf -> len buf <= 2 ^ 63 ->
  (gnl_find_delim buf d = -1 /\ d ∉ valid buf) \/
  (exists p : nat,
     gnl_find_delim buf d = Z.of_nat p /\ Z.of_nat p < len buf /\
     valid buf !! p = Some d /\ d ∉ take p (valid buf)).
Proof.
  intros (Hs & Hl & Hd) Hr. unfold gnl_find_delim, valid.
  destruct (Z.eqb_spec (len buf) 0) as [H0|H0].
  - left. split; [reflexivity|]. rewrite H0. cbn. apply not_elem_of_nil.
  - destruct (memchr (data buf) d (Z.to_nat (len buf))) as [p|] eqn:Hm.
    + right. exists p. apply memchr_Some in Hm. destruct Hm as (Hlt & Hlk & Hnot).
      split; [apply to_ssize_small; lia|]. split; [lia|].
      split.
      * rewrite lookup_take_lt by lia. exact Hlk.
      * rewrite take_take. replace (Nat.min p (Z.to_nat (len buf))) with p by lia.
        exact Hnot.
    + left. split; [reflexivity|]. apply memchr_None; [exact Hm|lia].
Qed.

Lemma cut_segment_found d l : forall p rest,
  l !! p = Some d -> d ∉ take p l ->
  cut_segment d (l ++ rest) = (take (S p) l, drop (S p) l ++ rest).
Proof.
  induction l as [|b l IH]; intros p rest Hlk Hnot; [discriminate|].
  destruct p as [|p]; cbn [app cut_segment].
  - cbn in Hlk. injection Hlk as ->.
    rewrite byte_eqb_refl. reflexivity.
  - cbn in Hlk, Hnot. apply not_elem_of_cons in Hnot. destruct Hnot as [Hne Hnot].
    destruct (Byte.eqb b d) eqn:E.
    + apply Byte.byte_dec_bl in E. congruence.
    + rewrite (IH p rest Hlk Hnot). reflexivity.
Qed.

Lemma cut_segment_absent d l : d ∉ l -> cut_segment d l = (l, []).
Proof.
  induction l as [|b l IH]; intros Hnot; [reflexivity|].
  apply not_elem_of_cons in Hnot. destruct Hnot as [Hne Hnot].
  cbn [cut_segment]. destruct (Byte.eqb b d) eqn:E.
  - apply Byte.byte_dec_bl in E. congruence.
  - rewrite (IH Hnot). reflexivity.
Qed.

(** ** gnl_extract_line *)

Lemma extract_line_spec buf pos w :
  wf_buf buf -> 0 <= pos < len buf -> len buf <= 2 ^ 63 ->
  exists line buf' w',
    gnl_extract_line buf pos w = (line, buf', w') /\
    w_files w' = w_files w /\
    ((line = Some (take (Z.to_nat (pos + 1)) (valid buf) ++ [x00]) /\
      wf_buf buf' /\
      valid buf' = drop (Z.to_nat (pos + 1)) (valid buf) /\
      len buf' = len buf - (pos + 1) /\
      size buf' = size buf /\
      eof_reached buf' = eof_reached buf /\
      alloc_failures (w_allocs w') = alloc_failures (w_allocs w)) \/
     (line = None /\ buf' = buf /\
      S (alloc_failures (w_allocs w')) = alloc_failures (w_allocs w))).
Proof.
  intros (Hs & Hl & Hd) Hpos Hr. pose proof size_modulus_eq as HM.
  unfold gnl_extract_line, malloc.
  rewrite (uadd_small pos 1) by lia.
  rewrite (uadd_small (pos + 1) 1) by lia.
  destruct (next_alloc_cases w) as [(junk & w' & Hn & Hf & Ha)|(w' & Hn & Hf & Ha)];
    rewrite Hn.
  - eexists _, _, _. split; [reflexivity|]. split; [assumption|]. left.
    rewrite usub_small by lia.
    set (n := Z.to_nat (pos + 1)).
    assert (Hn1 : (n <= Z.to_nat (len buf))%nat) by lia.
    assert (Hn2 : (Z.to_nat (len buf) <= length (data buf))%nat) by lia.
    assert (Hsrc : length (take n (data buf)) = n) by (rewrite length_take; lia).
    split.
    { f_equal. unfold mem_write. rewrite take_0, Hsrc. cbn [app Nat.add].
      replace (Z.to_nat (pos + 1 + 1)) with (n + 1)%nat by lia.
      rewrite drop_replicate_add. cbn [replicate].
      rewrite <- Hsrc at 1. rewrite <- (Nat.add_0_r (length (take n (data buf)))).
      rewrite insert_app_r. cbn.
      unfold valid. rewrite take_take. f_equal. f_equal. lia. }
    cbn [data size len eof_reached].
    destruct (Z.ltb_spec 0 (len buf - (pos + 1))) as [Hrem|Hrem].
    + split.
      { unfold wf_buf; cbn. unfold mem_write.
        rewrite take_0. cbn [app Nat.add]. rewrite length_app, length_take, !length_drop. lia. }
      split; [|auto].
      unfold valid; cbn. unfold mem_write. rewrite take_0. cbn [app Nat.add].
      rewrite take_app_le by (rewrite length_take, length_drop; lia).
      rewrite take_take, Nat.min_id.
      rewrite take_drop_commute. f_equal. f_equal. lia.
    + split.
      { unfold wf_buf; cbn. lia. }
      split; [|auto].
      unfold valid; cbn. replace (Z.to_nat (len buf - (pos + 1))) with O by lia.
      rewrite take_0. symmetry. apply drop_ge. rewrite length_take. lia.
  - eexists _, _, _. split; [reflexivity|]. split; [assumption|]. right. auto.
Qed.

(** ** The read system call *)

Lemma sys_read_cases fd count w f :
  w_files w !! fd = Some f -> 0 < count ->
  exists r got w' f',
    sys_read fd count w = (r, got, w') /\
    w_allocs w' = w_allocs w /\
    w_files w' = <[fd := f']> (w_files w) /\
    ((r = -1 /\ got = [] /\ f_bytes f' = f_bytes f /\
      S (read_failures (f_script f')) = read_failures (f_script f)) \/
     (r = Z.of_nat (length got) /\ r <= count /\
      f_bytes f = got ++ f_bytes f' /\
      read_failures (f_script f') = read_failures (f_script f) /\
      (got = [] -> f_bytes f = []))).
Proof.
  intros Hf Hc. unfold sys_read. rewrite Hf.
  assert (Hdeliver : forall n s, 0 < n <= count ->
    read_failures s = read_failures (f_script f) ->
    exists r got w' f',
      (Z.of_nat (length (take (Z.to_nat n) (f_bytes f))),
       take (Z.to_nat n) (f_bytes f),
       {| w_files :=
            <[fd := {| f_bytes := drop (Z.to_nat n) (f_bytes f);
                       f_script := s |}]> (w_files w);
          w_allocs := w_allocs w |}) = (r, got, w') /\
      w_allocs w' = w_allocs w /\
      w_files w' = <[fd := f']> (w_files w) /\
      ((r = -1 /\ got = [] /\ f_bytes f' = f_bytes f /\
        S (read_failures (f_script f')) = read_failures (f_script f)) \/
       (r = Z.of_nat (length got) /\ r <= count /\
        f_bytes f = got ++ f_bytes f' /\
        read_failures (f_script f') = read_failures (f_script f) /\
        (got = [] -> f_bytes f = [])))).
  { intros n s Hn Hs. eexists _, _, _, _. split; [reflexivity|].
    split; [reflexivity|]. split; [reflexivity|]. right. cbn.
    split; [reflexivity|]. split; [rewrite length_take; lia|].
    split; [symmetry; apply take_drop|]. split; [exact Hs|].
    intros Hnil. apply take_nil_inv in Hnil. destruct Hnil; [lia|assumption]. }
  destruct (f_script f) as [|[|k] s] eqn:Es.
  - apply Hdeliver; [lia|reflexivity].
  - eexists _, _, _, _. split; [reflexivity|]. split; [reflexivity|].
    split; [reflexivity|]. left. cbn. auto.
  - apply Hdeliver; [lia|reflexivity].
Qed.

Lemma failures_read fd w w' f f' :
  w_files w !! fd = Some f ->
  w_files w' = <[fd := f']> (w_files w) ->
  w_allocs w' = w_allocs w ->
  failures fd w' =
    (alloc_failures (w_allocs w) + read_failures (f_script f'))%nat /\
  failures fd w =
    (alloc_failures (w_allocs w) + read_failures (f_script f))%nat /\
  unread fd w' = f_bytes f' /\ unread fd w = f_bytes f /\
  w_files w' !! fd = Some f'.
Proof.
  intros Hf Hw Ha. unfold failures, unread.
  rewrite Hw, Ha, Hf, lookup_insert_eq. auto.
Qed.

(** ** gnl_fill_buffer *)

Lemma fill_buffer_spec cfg fuel fd buf w f :
  wf_buf buf -> 0 < GNL_BUFFER_SIZE cfg ->
  len buf + GNL_BUFFER_SIZE cfg <= 2 ^ 63 ->
  w_files w !! fd = Some f ->
  (Z.to_nat (len buf + GNL_BUFFER_SIZE cfg) <= fuel)%nat ->
  exists r buf' w' f',
    gnl_fill_buffer cfg fuel fd buf w = Some (r, buf', w') /\
    wf_buf buf' /\
    w_files w' = <[fd := f']> (w_files w) /\
    ((r = -1 /\ valid buf' = valid buf /\ len buf' = len buf /\
      eof_reached buf' = eof_reached buf /\
      f_bytes f' = f_bytes f /\
      S (failures fd w') = failures fd w) \/
     (0 <= r /\ exists got,
        r = Z.of_nat (length got) /\
        valid buf' = valid buf ++ got /\
        f_bytes f = got ++ f_bytes f' /\
        failures fd w' = failures fd w /\
        (r = 0 -> eof_reached buf' = 1 /\ f_bytes f = []) /\
        (r <> 0 -> eof_reached buf' = eof_reached buf))).
Proof.
  intros Hwf Hbs Hsum Hf Hfuel. pose proof size_modulus_eq as HM.
  pose proof Hwf as (Hs0 & Hl0 & Hd0).
  unfold gnl_fill_buffer.
  rewrite (to_size_small (GNL_BUFFER_SIZE cfg)) by lia.
  destruct (ensure_capacity_spec fuel buf (GNL_BUFFER_SIZE cfg) w Hwf Hsum Hfuel)
    as (r1 & buf1 & w1 & He & Hf1 & Hcase).
  rewrite He.
  destruct Hcase as [(-> & Hwf1 & Hlen1 & Heof1 & Hval1 & Hroom & Ha1)
                    |(-> & -> & Ha1)].
  - cbn [Z.ltb Z.compare].
    assert (Hf1' : w_files w1 !! fd = Some f) by (rewrite Hf1; exact Hf).
    destruct (sys_read_cases fd (GNL_BUFFER_SIZE cfg) w1 f Hf1' Hbs)
      as (r & got & w2 & f' & Hr & Ha2 & Hf2 & Hcase).
    rewrite Hr.
    destruct (failures_read fd w1 w2 f f' Hf1' Hf2 Ha2)
      as (HF2 & HF1 & Hu2 & Hu1 & Hlk2).
    assert (HF0 : failures fd w1 = failures fd w)
      by (apply failures_alloc_same; assumption).
    rewrite Hf1 in Hf2.
    destruct Hcase as [(-> & -> & Hb & Hs)|(-> & Hle & Hb & Hs & Hnil)].
    + cbn [Z.ltb Z.compare]. exists (-1), buf1, w2, f'.
      split; [reflexivity|]. split; [exact Hwf1|]. split; [exact Hf2|].
      left. repeat split; try assumption. lia.
    + destruct (Z.ltb_spec (Z.of_nat (length got)) 0) as [Hneg|_]; [lia|].
      destruct Hwf1 as (Hs1 & Hl1 & Hd1).
      eexists _, _, w2, f'. split; [reflexivity|].
      assert (Hlenw : length (mem_write (data buf1) (Z.to_nat (len buf1)) got)
                      = length (data buf1)).
      { unfold mem_write. rewrite !length_app, length_take, length_drop. lia. }
      split.
      { unfold wf_buf; cbn. rewrite Hlenw, uadd_small by lia. lia. }
      split; [exact Hf2|]. right. split; [lia|].
      exists got. split; [reflexivity|]. cbn.
      split.
      { rewrite <- Hval1. unfold valid; cbn. rewrite uadd_small by lia.
        unfold mem_write. rewrite app_assoc.
        apply take_app_length'. rewrite length_app, length_take. lia. }
      split; [exact Hb|]. split; [lia|]. split.
      * intros H0. split.
        { destruct (Z.eqb_spec (Z.of_nat (length got)) 0); [reflexivity|lia]. }
        apply Hnil. destruct got; [reflexivity|cbn in H0; lia].
      * intros H0. rewrite <- Heof1.
        destruct (Z.eqb_spec (Z.of_nat (length got)) 0); [lia|reflexivity].
  - cbn [Z.ltb Z.compare]. exists (-1), buf, w1, f.
    split; [reflexivity|]. split; [exact Hwf|].
    split; [rewrite Hf1; symmetry; apply insert_id; exact Hf|].
    left. repeat split; try reflexivity.
    apply failures_alloc_less; assumption.
Qed.

(** ** The loop of get_next_line_delim *)

(** Extracting through [pos] when the first segment of the pending bytes
    ends there: the line is that segment, or nothing changes. *)
Lemma extract_step d fd buf pos w f :
  wf_buf buf -> 0 <= pos < len buf -> len buf <= 2 ^ 63 ->
  w_files w !! fd = Some f ->
  cut_segment d (valid buf ++ f_bytes f) =
    (take (Z.to_nat (pos + 1)) (valid buf),
     drop (Z.to_nat (pos + 1)) (valid buf) ++ f_bytes f) ->
  exists line buf' w',
    gnl_extract_line buf pos w = (line, buf', w') /\
    wf_buf buf' /\
    w_files w' = <[fd := f]> (w_files w) /\
    eof_reached buf' = eof_reached buf /\
    ((line_status line = GNL_LINE_READ /\
      exists seg, line = Some (seg ++ [x00]) /\
        cut_segment d (valid buf ++ f_bytes f) = (seg, valid buf' ++ f_bytes f) /\
        failures fd w' = failures fd w) \/
     (line_status line = GNL_ERROR /\ line = None /\ buf' = buf /\
      S (failures fd w') = failures fd w)).
Proof.
  intros Hwf Hpos Hr Hf Hcut.
  destruct (extract_line_spec buf pos w Hwf Hpos Hr)
    as (line & buf' & w' & He & Hfiles & Hcase).
  exists line, buf', w'. split; [exact He|].
  assert (Hid : w_files w' = <[fd := f]> (w_files w)).
  { rewrite Hfiles. symmetry. apply insert_id. exact Hf. }
  destruct Hcase as [(-> & Hwf' & Hval & Hlen & Hsz & Heof & Ha)|(-> & -> & Ha)].
  - split; [exact Hwf'|]. split; [exact Hid|]. split; [exact Heof|].
    left. split; [reflexivity|]. eexists. split; [reflexivity|].
    split; [rewrite Hval; exact Hcut|].
    apply failures_alloc_same; assumption.
  - split; [exact Hwf|]. split; [exact Hid|]. split; [reflexivity|].
    right. repeat split. apply failures_alloc_less; assumption.
Qed.

Lemma read_loop_spec cfg fd d :
  0 < GNL_BUFFER_SIZE cfg ->
  forall fuel buf w f G,
    wf_buf buf ->
    w_files w !! fd = Some f ->
    (eof_reached buf <> 0 -> f_bytes f = []) ->
    Z.of_nat (length (valid buf ++ f_bytes f)) + GNL_BUFFER_SIZE cfg <= 2 ^ 63 ->
    (Z.to_nat (Z.of_nat (length (valid buf ++ f_bytes f)) + GNL_BUFFER_SIZE cfg)
       <= G)%nat ->
    (length (f_bytes f) + (if (eof_reached buf =? 0)%Z then 1 else 0) + 1 + G
       <= fuel)%nat ->
    exists ret line buf' w' f',
      gnl_read_loop cfg fuel fd d buf w = Some (ret, line, buf', w') /\
      wf_buf buf' /\
      w_files w' = <[fd := f']> (w_files w) /\
      (eof_reached buf' <> 0 -> f_bytes f' = []) /\
      (eof_reached buf <> 0 -> eof_reached buf' <> 0) /\
      (length (f_bytes f') <= length (f_bytes f))%nat /\
      ((ret = GNL_LINE_READ /\ valid buf ++ f_bytes f <> [] /\
        exists seg, line = Some (seg ++ [x00]) /\
          cut_segment d (valid buf ++ f_bytes f) = (seg, valid buf' ++ f_bytes f') /\
          failures fd w' = failures fd w) \/
       (ret = GNL_EOF /\ line = None /\
        valid buf ++ f_bytes f = [] /\ valid buf' ++ f_bytes f' = [] /\
        failures fd w' = failures fd w) \/
       (ret = GNL_ERROR /\ line = None /\
        valid buf' ++ f_bytes f' = valid buf ++ f_bytes f /\
        S (failures fd w') = failures fd w)).
Proof.
  intros Hbs fuel.
  induction fuel as [|fuel IH]; intros buf w f G Hwf Hf Heof Hsum HG Hfuel;
    [lia|].
  pose proof (valid_length buf Hwf) as Hvl.
  pose proof Hwf as (Hs0 & Hl0 & Hd0).
  rewrite length_app in Hsum, HG.
  assert (Hr : len buf <= 2 ^ 63) by lia.
  cbn [gnl_read_loop].
  destruct (find_delim_cases buf d Hwf Hr)
    as [[Hfind Hnot]|(p & Hfind & Hp & Hlk & Hnot)]; rewrite Hfind.
  - (* no delimiter in the buffer *)
    change (0 <=? -1) with false. cbn match.
    destruct (Z.eqb_spec (eof_reached buf) 0) as [He0|He0]; cbn [negb].
    + (* refill *)
      destruct (fill_buffer_spec cfg fuel fd buf w f Hwf Hbs) as
        (r & buf1 & w1 & f1 & Hfill & Hwf1 & Hfiles1 & Hcase);
        [lia|exact Hf|lia|].
      rewrite Hfill.
      destruct Hcase as [(-> & Hval & Hlen & Heo & Hb & HF)
                        |(Hr0 & got & -> & Hval & Hb & HF & Hz & Hnz)].
      * cbn [Z.ltb Z.compare]. exists GNL_ERROR, None, buf1, w1, f1.
        split; [reflexivity|]. split; [exact Hwf1|]. split; [exact Hfiles1|].
        split; [intros H; congruence|]. split; [intros H; congruence|].
        split; [rewrite Hb; reflexivity|].
        right. right. repeat split; [|exact HF]. rewrite Hval, Hb. reflexivity.
      * destruct (Z.ltb_spec (Z.of_nat (length got)) 0) as [Hneg|_]; [lia|].
        assert (Hlk1 : w_files w1 !! fd = Some f1)
          by (rewrite Hfiles1; apply lookup_insert_eq).
        assert (HP : valid buf1 ++ f_bytes f1 = valid buf ++ f_bytes f)
          by (rewrite Hval, Hb, app_assoc; reflexivity).
        assert (Hlenb : length (f_bytes f) = (length got + length (f_bytes f1))%nat)
          by (rewrite Hb, length_app; reflexivity).
        destruct (IH buf1 w1 f1 G Hwf1 Hlk1) as
          (ret & line & buf2 & w2 & f2 & Hloop & Hwf2 & Hfiles2 & Heof2 & Hmono & Hle2 & Hcase).
        { intros H1. destruct (Z.eq_dec (Z.of_nat (length got)) 0) as [Hg|Hg].
          - destruct (Hz Hg) as [_ Hnil]. rewrite Hnil in Hb.
            symmetry in Hb. apply app_eq_nil in Hb. apply Hb.
          - rewrite (Hnz Hg) in H1. contradiction. }
        { rewrite HP, length_app. exact Hsum. }
        { rewrite HP, length_app. exact HG. }
        { cbn match in Hfuel.
          destruct (Z.eq_dec (Z.of_nat (length got)) 0) as [Hg|Hg].
          - destruct (Hz Hg) as [He1 _]. rewrite He1. cbn. lia.
          - destruct (eof_reached buf1 =? 0); lia. }
        exists ret, line, buf2, w2, f2. split; [exact Hloop|].
        split; [exact Hwf2|].
        split; [rewrite Hfiles2, Hfiles1; apply insert_insert_eq|].
        split; [exact Heof2|]. split; [intros H; contradiction|].
        split; [lia|].
        rewrite HP, HF in Hcase. exact Hcase.
    + (* end of stream already seen *)
      pose proof (Heof He0) as Hnil.
      destruct (Z.ltb_spec 0 (len buf)) as [Hpos|Hpos].
      * rewrite usub_small by (pose proof size_modulus_eq; lia).
        assert (Hcut : cut_segment d (valid buf ++ f_bytes f) =
                 (take (Z.to_nat (len buf - 1 + 1)) (valid buf),
                  drop (Z.to_nat (len buf - 1 + 1)) (valid buf) ++ f_bytes f)).
        { rewrite Hnil, app_nil_r, take_ge, drop_ge by lia.
          apply cut_segment_absent. exact Hnot. }
        destruct (extract_step d fd buf (len buf - 1) w f Hwf) as
          (line & buf' & w' & He & Hwf' & Hfiles & Heo & Hcase);
          [lia|exact Hr|exact Hf|exact Hcut|].
        rewrite He. exists (line_status line), line, buf', w', f.
        split; [reflexivity|]. split; [exact Hwf'|]. split; [exact Hfiles|].
        split; [intros _; exact Hnil|]. split; [intros _; congruence|].
        split; [reflexivity|].
        destruct Hcase as [(Hst & Hseg)|(Hst & -> & -> & HF)].
        -- left. split; [exact Hst|]. split; [|exact Hseg].
           intros Hp. apply (f_equal length) in Hp. rewrite length_app in Hp.
           cbn in Hp. lia.
        -- right. right. repeat split. exact HF.
      * exists GNL_EOF, None, buf, w, f. split; [reflexivity|].
        split; [exact Hwf|].
        split; [symmetry; apply insert_id; exact Hf|].
        split; [intros _; exact Hnil|]. split; [intros H; exact H|].
        split; [reflexivity|].
        right. left.
        assert (Hv : valid buf = []) by (apply nil_length_inv; lia).
        rewrite Hv, Hnil. repeat split.
  - (* delimiter found at offset p *)
    destruct (Z.leb_spec 0 (Z.of_nat p)) as [_|Hneg]; [|lia].
    rewrite to_size_small by (pose proof size_modulus_eq; lia).
    assert (Hcut : cut_segment d (valid buf ++ f_bytes f) =
             (take (Z.to_nat (Z.of_nat p + 1)) (valid buf),
              drop (Z.to_nat (Z.of_nat p + 1)) (valid buf) ++ f_bytes f)).
    { replace (Z.to_nat (Z.of_nat p + 1)) with (S p) by lia.
      apply cut_segment_found; assumption. }
    destruct (extract_step d fd buf (Z.of_nat p) w f Hwf) as
      (line & buf' & w' & He & Hwf' & Hfiles & Heo & Hcase);
      [lia|exact Hr|exact Hf|exact Hcut|].
    rewrite He. exists (line_status line), line, buf', w', f.
    split; [reflexivity|]. split; [exact Hwf'|]. split; [exact Hfiles|].
    split; [intros H; apply Heof; congruence|]. split; [intros H; congruence|].
    split; [reflexivity|].
    destruct Hcase as [(Hst & Hseg)|(Hst & -> & -> & HF)].
    + left. split; [exact Hst|]. split; [|exact Hseg].
      intros Hp'. apply (f_equal length) in Hp'. rewrite length_app in Hp'.
      cbn in Hp'. lia.
    + right. right. repeat split. exact HF.
Qed.

(** ** One call of get_next_line_delim *)

Lemma cut_segment_app d l : forall s r, cut_segment d l = (s, r) -> l = s ++ r.
Proof.
  induction l as [|b l IH]; intros s r H; cbn [cut_segment] in H.
  - injection H as <- <-. reflexivity.
  - destruct (Byte.eqb b d).
    + injection H as <- <-. reflexivity.
    + destruct (cut_segment d l) as [s' r']. injection H as <- <-.
      cbn. f_equal. apply IH. reflexivity.
Qed.

Lemma get_buffer_spec cfg fd m f :
  wf_machine cfg fd m ->
  w_files (os m) !! fd = Some f ->
  exists ob m1,
    gnl_get_buffer cfg fd m = (ob, m1) /\
    w_files (os m1) = w_files (os m) /\
    ((exists buf, ob = Some buf /\
        g_buffers m1 = <[fd := buf]> (g_buffers m) /\
        wf_buf buf /\ valid buf = buffered fd m /\
        (eof_reached buf <> 0 -> f_bytes f = []) /\
        failures fd (os m1) = failures fd (os m)) \/
     (ob = None /\ g_buffers m1 = g_buffers m /\
      S (failures fd (os m1)) = failures fd (os m))).
Proof.
  intros (Hfd & Hbs & Hopen & Hbuf & Hsum) Hf.
  unfold gnl_get_buffer, buffered.
  destruct (g_buffers m !! fd) as [buf|] eqn:Hg.
  - exists (Some buf), m. split; [reflexivity|]. split; [reflexivity|].
    left. exists buf. destruct (Hbuf buf eq_refl) as [Hwf Heof].
    split; [reflexivity|]. split; [symmetry; apply insert_id; exact Hg|].
    split; [exact Hwf|]. split; [reflexivity|].
    split; [|reflexivity].
    intros He. specialize (Heof He). unfold unread in Heof.
    rewrite Hf in Heof. exact Heof.
  - unfold calloc_buffer, malloc.
    destruct (next_alloc_cases (os m))
      as [(j1 & w1 & Hn1 & Hf1 & Ha1)|(w1 & Hn1 & Hf1 & Ha1)]; rewrite Hn1.
    + destruct (next_alloc_cases w1)
        as [(j2 & w2 & Hn2 & Hf2 & Ha2)|(w2 & Hn2 & Hf2 & Ha2)]; rewrite Hn2.
      * eexists _, _. split; [reflexivity|]. cbn [os g_buffers].
        split; [congruence|]. left. eexists. split; [reflexivity|].
        split; [reflexivity|].
        assert (Hr : GNL_BUFFER_SIZE cfg <= 2 ^ 63) by lia.
        pose proof size_modulus_eq as HM.
        rewrite to_size_small by lia.
        split.
        { unfold wf_buf; cbn. rewrite length_replicate. lia. }
        split; [reflexivity|]. split; [cbn; intros H; contradiction|].
        rewrite (failures_alloc_same fd w1 w2 Hf2 Ha2).
        apply failures_alloc_same; assumption.
      * eexists _, _. split; [reflexivity|]. cbn [os g_buffers].
        split; [congruence|]. right. split; [reflexivity|].
        split; [reflexivity|].
        rewrite (failures_alloc_less fd w1 w2 Hf2 Ha2).
        apply failures_alloc_same; assumption.
    + eexists _, _. split; [reflexivity|]. cbn [os g_buffers].
      split; [assumption|]. right. split; [reflexivity|].
      split; [reflexivity|]. apply failures_alloc_less; assumption.
Qed.

Lemma call_spec cfg fd d old m fuel :
  wf_machine cfg fd m ->
  (call_fuel cfg fd m <= fuel)%nat ->
  exists ret line m',
    get_next_line_delim cfg fuel fd (Some old) d m = Some (ret, Some line, m') /\
    wf_machine cfg fd m' /\
    (call_fuel cfg fd m' <= call_fuel cfg fd m)%nat /\
    ((ret = GNL_LINE_READ /\ pending fd m <> [] /\
      exists seg, line = Some (seg ++ [x00]) /\
        cut_segment d (pending fd m) = (seg, pending fd m') /\
        failures fd (os m') = failures fd (os m)) \/
     (ret = GNL_EOF /\ line = None /\
      pending fd m = [] /\ pending fd m' = [] /\
      failures fd (os m') = failures fd (os m)) \/
     (ret = GNL_ERROR /\ line = None /\
      pending fd m' = pending fd m /\
      S (failures fd (os m')) = failures fd (os m))).
Proof.
  intros Hwf Hfuel. pose proof Hwf as (Hfd & Hbs & [f Hf] & Hbuf & Hsum).
  unfold get_next_line_delim.
  destruct (Z.ltb_spec fd 0) as [?|_]; [lia|].
  destruct (Z.leb_spec (GNL_MAX_FD cfg) fd) as [?|_]; [lia|]. cbn [orb].
  destruct (get_buffer_spec cfg fd m f Hwf Hf) as (ob & m1 & Hget & Hfiles1 & Hcase).
  rewrite Hget.
  assert (Hun : unread fd (os m) = f_bytes f) by (unfold unread; rewrite Hf; reflexivity).
  assert (Hun1 : unread fd (os m1) = f_bytes f) by (unfold unread; rewrite Hfiles1, Hf; reflexivity).
  destruct Hcase as [(buf & -> & Hg1 & Hwfb & Hval & Heof & HF1)|(-> & Hg1 & HF1)].
  - assert (HP : pending fd m = valid buf ++ f_bytes f).
    { unfold pending. rewrite Hval, Hun. reflexivity. }
    assert (Hf1 : w_files (os m1) !! fd = Some f) by (rewrite Hfiles1; exact Hf).
    rewrite HP in Hsum.
    destruct (read_loop_spec cfg fd d Hbs fuel buf (os m1) f
                (Z.to_nat (Z.of_nat (length (valid buf ++ f_bytes f))
                           + GNL_BUFFER_SIZE cfg)) Hwfb Hf1 Heof Hsum)
      as (ret & line & buf' & w' & f' & Hloop & Hwf' & Hfiles' & Heof' & Hmono & Hle & Hcase).
    { lia. }
    { unfold call_fuel in Hfuel. rewrite HP, Hun in Hfuel.
      destruct (eof_reached buf =? 0); lia. }
    rewrite Hloop. eexists ret, line, _. split; [reflexivity|].
    set (m' := {| g_buffers := <[fd:=buf']> (g_buffers m1); os := w' |}).
    assert (Hlk' : w_files (os m') !! fd = Some f').
    { cbn. rewrite Hfiles'. apply lookup_insert_eq. }
    assert (Hun' : unread fd (os m') = f_bytes f').
    { unfold unread. rewrite Hlk'. reflexivity. }
    assert (HP' : pending fd m' = valid buf' ++ f_bytes f').
    { unfold pending, buffered. rewrite Hun'. cbn. rewrite lookup_insert_eq. reflexivity. }
    assert (HFm : failures fd (os m') = failures fd w') by reflexivity.
    assert (Hlen' : (length (pending fd m') <= length (valid buf ++ f_bytes f))%nat).
    { rewrite HP'. destruct Hcase as [(_ & _ & seg & _ & Hcut & _)|[(_ & _ & _ & -> & _)|(_ & _ & -> & _)]].
      - apply cut_segment_app in Hcut. rewrite Hcut, !length_app. lia.
      - cbn. lia.
      - lia. }
    split.
    { unfold wf_machine. split; [exact Hfd|]. split; [exact Hbs|].
      split; [eexists; exact Hlk'|]. split.
      - intros b Hb. cbn in Hb. rewrite lookup_insert_eq in Hb. injection Hb as <-.
        split; [exact Hwf'|]. rewrite Hun'. exact Heof'.
      - lia. }
    split.
    { unfold call_fuel. rewrite Hun', Hun, HP. lia. }
    rewrite HP, HP', HFm, <- HF1. exact Hcase.
  - eexists GNL_ERROR, None, m1. split; [reflexivity|].
    assert (HP : pending fd m1 = pending fd m).
    { unfold pending, buffered. rewrite Hg1, Hun, Hun1. reflexivity. }
    split.
    { unfold wf_machine. rewrite HP, Hg1, Hfiles1, Hun1, <- Hun.
      split; [exact Hfd|]. split; [exact Hbs|]. split; [eexists; exact Hf|].
      split; [exact Hbuf|exact Hsum]. }
    split.
    { unfold call_fuel. rewrite HP, Hun, Hun1. lia. }
    right. right. auto.
Qed.

(** ** Reading to the end of the stream *)

Lemma cut_segment_nonempty d l s r :
  l <> [] -> cut_segment d l = (s, r) -> s <> [].
Proof.
  destruct l as [|b l]; [congruence|]. intros _ H. cbn [cut_segment] in H.
  destruct (Byte.eqb b d).
  - injection H as <- <-. discriminate.
  - destruct (cut_segment d l). injection H as <- <-. discriminate.
Qed.

Lemma run_spec cfg fd d : forall n m calls fuel,
  (length (pending fd m) + failures fd (os m) <= n)%nat ->
  wf_machine cfg fd m ->
  (n < calls)%nat ->
  (call_fuel cfg fd m <= fuel)%nat ->
  exists outs m',
    read_to_eof cfg calls fuel fd d m = Some (outs, m') /\
    run_of d (pending fd m) (failures fd (os m)) outs /\
    wf_machine cfg fd m' /\ pending fd m' = [].
Proof.
  induction n as [n IH] using lt_wf_ind. intros m calls fuel Hn Hwf Hcalls Hfuel.
  destruct calls as [|calls]; [lia|]. cbn [read_to_eof].
  destruct (call_spec cfg fd d None m fuel Hwf Hfuel)
    as (ret & line & m1 & Hcall & Hwf1 & Hfuel1 & Hcase).
  rewrite Hcall.
  destruct Hcase as [(-> & Hne & seg & -> & Hcut & HF)
                    |[(-> & -> & Hnil & Hnil1 & HF)|(-> & -> & HP & HF)]].
  - change (GNL_LINE_READ =? GNL_EOF) with false. cbn match.
    pose proof (cut_segment_app _ _ _ _ Hcut) as Happ.
    pose proof (cut_segment_nonempty _ _ _ _ Hne Hcut) as Hseg.
    assert (Hlen : (length (pending fd m1) < length (pending fd m))%nat).
    { rewrite Happ, length_app. destruct seg; [congruence|cbn; lia]. }
    destruct n as [|n]; [lia|].
    destruct (IH n (Nat.lt_succ_diag_r n) m1 calls fuel) as (outs & m2 & Hrun & Hof & Hwf2 & Hp2);
      [lia|exact Hwf1|lia|lia|].
    rewrite Hrun. eexists _, m2. split; [reflexivity|].
    split; [|auto].
    rewrite HF in Hof. exact (run_line d _ _ seg _ outs Hne Hcut Hof).
  - change (GNL_EOF =? GNL_EOF) with true. cbn match.
    eexists _, m1. split; [reflexivity|].
    rewrite Hnil. split; [apply run_eof|auto].
  - change (GNL_ERROR =? GNL_EOF) with false. cbn match.
    destruct n as [|n]; [lia|].
    destruct (IH n (Nat.lt_succ_diag_r n) m1 calls fuel) as (outs & m2 & Hrun & Hof & Hwf2 & Hp2);
      [rewrite HP; lia|exact Hwf1|lia|lia|].
    rewrite Hrun. eexists _, m2. split; [reflexivity|].
    split; [|auto].
    rewrite <- HF. rewrite HP in Hof. apply run_error. exact Hof.
Qed.

(** ** Runs and the segments of the stream *)

Lemma segment_line seg : segment (seg ++ [x00]) = seg.
Proof.
  unfold segment. rewrite length_app. cbn [length].
  replace (length seg + 1 - 1)%nat with (length seg) by lia.
  apply take_app_length.
Qed.

Lemma split_acc_cut d l : forall acc s r,
  l <> [] -> cut_segment d l = (s, r) ->
  split_acc d acc l = (acc ++ s) :: split_acc d [] r.
Proof.
  induction l as [|b l IH]; intros acc s r Hne Hcut; [congruence|].
  cbn [cut_segment] in Hcut. cbn [split_acc].
  destruct (Byte.eqb b d).
  - injection Hcut as <- <-. reflexivity.
  - destruct (cut_segment d l) as [s' r'] eqn:Hc. injection Hcut as <- <-.
    destruct l as [|b' l].
    + cbn in Hc. injection Hc as <- <-. cbn [split_acc].
      destruct (acc ++ [b]) eqn:E; [|reflexivity].
      apply app_eq_nil in E. destruct E; discriminate.
    + rewrite (IH (acc ++ [b]) s' r') by (congruence || reflexivity).
      rewrite <- app_assoc. reflexivity.
Qed.

Lemma split_segments_cut d l s r :
  l <> [] -> cut_segment d l = (s, r) ->
  split_segments d l = s :: split_segments d r.
Proof. intros Hne Hcut. unfold split_segments. apply (split_acc_cut d l [] s r Hne Hcut). Qed.

Lemma run_of_segments d p k outs :
  run_of d p k outs -> segments outs = split_segments d p.
Proof.
  induction 1 as [k|p k seg p' outs Hne Hcut Hrun IH|p k outs Hrun IH].
  - reflexivity.
  - cbn [segments line_outcome]. change (GNL_LINE_READ =? GNL_LINE_READ) with true.
    cbn match. rewrite segment_line, IH.
    symmetry. apply split_segments_cut; assumption.
  - cbn [segments error_outcome]. exact IH.
Qed.

Lemma run_of_last d p k outs :
  run_of d p k outs -> last outs = Some eof_outcome.
Proof.
  induction 1 as [k|p k seg p' outs Hne Hcut Hrun IH|p k outs Hrun IH].
  - reflexivity.
  - destruct outs; [discriminate|]. exact IH.
  - destruct outs; [discriminate|]. exact IH.
Qed.

Lemma run_of_no_failure d p k outs :
  run_of d p k outs -> k = O ->
  outs = map line_outcome (split_segments d p) ++ [eof_outcome].
Proof.
  induction 1 as [k|p k seg p' outs Hne Hcut Hrun IH|p k outs Hrun IH]; intros Hk.
  - reflexivity.
  - rewrite (split_segments_cut d p seg p' Hne Hcut). cbn [map app].
    f_equal. apply IH. exact Hk.
  - discriminate.
Qed.

Lemma split_acc_concat d l : forall acc, concat (split_acc d acc l) = acc ++ l.
Proof.
  induction l as [|b l IH]; intros acc; cbn [split_acc].
  - destruct acc; cbn; rewrite ?app_nil_r; reflexivity.
  - destruct (Byte.eqb b d).
    + cbn [concat]. rewrite IH. cbn. rewrite <- app_assoc. reflexivity.
    + rewrite IH, <- app_assoc. reflexivity.
Qed.

Lemma split_segments_concat d l : concat (split_segments d l) = l.
Proof. unfold split_segments. apply (split_acc_concat d l []). Qed.

Lemma split_acc_delimited d l : forall acc i s,
  d ∉ acc ->
  split_acc d acc l !! i = Some s ->
  delimited d s \/
  (S i = length (split_acc d acc l) /\ (d ∉ s) /\ s <> [] /\
   last (acc ++ l) <> Some d).
Proof.
  induction l as [|b l IH]; intros acc i s Hacc Hlk; cbn [split_acc] in *.
  - destruct acc as [|a acc]; [nil_lookup Hlk|].
    destruct i as [|i]; [|nil_lookup Hlk].
    cbn in Hlk. injection Hlk as <-. right.
    split; [reflexivity|]. split; [exact Hacc|]. split; [discriminate|].
    rewrite app_nil_r. intros Hl. apply last_Some_elem_of in Hl. contradiction.
  - destruct (Byte.eqb b d) eqn:E.
    + apply Byte.byte_dec_bl in E. subst b. destruct i as [|i].
      * cbn in Hlk. injection Hlk as <-. left. exists acc. auto.
      * cbn in Hlk. destruct (IH [] i s (not_elem_of_nil d) Hlk)
          as [Hd|(Hi & Hs & Hne & Hlast)]; [left; exact Hd|].
        right. split; [cbn; lia|]. split; [exact Hs|]. split; [exact Hne|].
        rewrite last_app_cons, last_cons. cbn [app] in Hlast.
        destruct (last l) as [y|] eqn:El; [exact Hlast|].
        apply last_None in El. subst l. nil_lookup Hlk.
    + assert (Hacc' : d ∉ acc ++ [b]).
      { apply not_elem_of_app. split; [exact Hacc|].
        rewrite list_elem_of_singleton. intros ->.
        rewrite byte_eqb_refl in E. discriminate. }
      destruct (IH (acc ++ [b]) i s Hacc' Hlk) as [Hd|(Hi & Hs & Hne & Hlast)];
        [left; exact Hd|].
      right. rewrite <- app_assoc in Hlast. auto.
Qed.

Lemma split_segments_delimited d l i s :
  split_segments d l !! i = Some s ->
  delimited d s \/
  (S i = length (split_segments d l) /\ (d ∉ s) /\ s <> [] /\
   last l <> Some d).
Proof.
  intros H. apply (split_acc_delimited d l [] i s (not_elem_of_nil d) H).
Qed.

(** A descriptor that was never read: nothing is buffered, everything is
    still in the stream. *)
Lemma fresh_wf cfg fd m f :
  fresh_handle cfg fd m f ->
  wf_machine cfg fd m /\ pending fd m = f_bytes f.
Proof.
  intros (Hfd & Hbs & Hg & Hf & Hsum).
  assert (HP : pending fd m = f_bytes f).
  { unfold pending, buffered, unread. rewrite Hg, Hf. reflexivity. }
  split; [|exact HP]. unfold wf_machine. rewrite HP.
  split; [exact Hfd|]. split; [exact Hbs|]. split; [eexists; exact Hf|].
  split; [|exact Hsum]. intros buf Hb. congruence.
Qed.

(** With enough calls and fuel, reading a well-formed machine to the end
    returns, and the outcomes are a run over the pending bytes. *)
Lemma run_total cfg fd d m :
  wf_machine cfg fd m ->
  forall calls fuel,
    (run_bound cfg fd m <= calls)%nat ->
    (run_bound cfg fd m <= fuel)%nat ->
    exists outs m',
      read_to_eof cfg calls fuel fd d m = Some (outs, m') /\
      run_of d (pending fd m) (failures fd (os m)) outs.
Proof.
  unfold run_bound. intros Hwf calls fuel Hc Hf.
  destruct (run_spec cfg fd d (length (pending fd m) + failures fd (os m))
              m calls fuel) as (outs & m' & Hrun & Hof & _); [lia|exact Hwf|lia|lia|].
  exists outs, m'. auto.
Qed.

(** * The claims *)

(** ** Reading a stream from a fresh handle *)

Lemma fresh_run cfg fd d m f :
  fresh_handle cfg fd m f ->
  forall calls fuel,
    (run_bound cfg fd m <= calls)%nat ->
    (run_bound cfg fd m <= fuel)%nat ->
    exists outs m',
      read_to_eof cfg calls fuel fd d m = Some (outs, m') /\
      run_of d (f_bytes f) (failures fd (os m)) outs.
Proof.
  intros Hfresh calls fuel Hc Hf.
  destruct (fresh_wf cfg fd m f Hfresh) as [Hwf HP].
  rewrite <- HP. apply run_total; assumption.
Qed.

(** C1.  No loss, no duplication: on a handle read for the first time, the
    successive calls up to the one that returns [GNL_EOF] all return (given
    enough fuel), and the segments they return, concatenated in call order,
    are exactly the bytes of the stream.  This holds for every read
    schedule and every pattern of allocation and read failures. *)
Theorem segments_reproduce_stream cfg fd d m f :
  fresh_handle cfg fd m f ->
  exists bound,
    forall calls fuel, (bound <= calls)%nat -> (bound <= fuel)%nat ->
    exists outs m',
      read_to_eof cfg calls fuel fd d m = Some (outs, m') /\
      last outs = Some eof_outcome /\
      concat (segments outs) = f_bytes f.
Proof.
  intros Hfresh. exists (run_bound cfg fd m). intros calls fuel Hc Hf.
  destruct (fresh_run cfg fd d m f Hfresh calls fuel Hc Hf) as (outs & m' & Hrun & Hof).
  exists outs, m'. split; [exact Hrun|].
  split; [exact (run_of_last _ _ _ _ Hof)|].
  rewrite (run_of_segments _ _ _ _ Hof). apply split_segments_concat.
Qed.

Lemma segments_reproduce_stream_witness :
  exists bound,
    forall calls fuel, (bound <= calls)%nat -> (bound <= fuel)%nat ->
    exists outs m',
      read_to_eof default_config calls fuel 3 ","
        (fresh_machine 3 (list_byte_of_string "a,b,,c")
           [ReadFail; ReadShort 1] [AllocOk x41; AllocFail]) =
        Some (outs, m') /\
      last outs = Some eof_outcome /\
      concat (segments outs) = list_byte_of_string "a,b,,c".
Proof.
  apply (segments_reproduce_stream default_config 3 ","
           (fresh_machine 3 (list_byte_of_string "a,b,,c")
              [ReadFail; ReadShort 1] [AllocOk x41; AllocFail])
           {| f_bytes := list_byte_of_string "a,b,,c";
              f_script := [ReadFail; ReadShort 1] |}).
  concrete_handle.
Defined.

(** C2.  Delimiter-terminated segments: of the segments returned up to
    [GNL_EOF], every one holds the delimiter exactly once, as its final
    byte, except possibly the last, and then only when the stream does not
    end with the delimiter (that last segment holds no delimiter at all). *)
Theorem segments_end_with_delimiter cfg fd d m f :
  fresh_handle cfg fd m f ->
  exists bound,
    forall calls fuel, (bound <= calls)%nat -> (bound <= fuel)%nat ->
    exists outs m',
      read_to_eof cfg calls fuel fd d m = Some (outs, m') /\
      last outs = Some eof_outcome /\
      forall i s, segments outs !! i = Some s ->
        delimited d s \/
        (S i = length (segments outs) /\ (d ∉ s) /\ s <> [] /\
         last (f_bytes f) <> Some d).
Proof.
  intros Hfresh. exists (run_bound cfg fd m). intros calls fuel Hc Hf.
  destruct (fresh_run cfg fd d m f Hfresh calls fuel Hc Hf) as (outs & m' & Hrun & Hof).
  exists outs, m'. split; [exact Hrun|].
  split; [exact (run_of_last _ _ _ _ Hof)|].
  rewrite (run_of_segments _ _ _ _ Hof). intros i s.
  apply split_segments_delimited.
Qed.

Lemma segments_end_with_delimiter_witness :
  exists bound,
    forall calls fuel, (bound <= calls)%nat -> (bound <= fuel)%nat ->
    exists outs m',
      read_to_eof default_config calls fuel 3 ","
        (fresh_machine 3 (list_byte_of_string "a,b,,c") [ReadShort 1] []) =
        Some (outs, m') /\
      last outs = Some eof_outcome /\
      forall i s, segments outs !! i = Some s ->
        delimited "," s \/
        (S i = length (segments outs) /\ (x2c ∉ s) /\ s <> [] /\
         last (list_byte_of_string "a,b,,c") <> Some x2c).
Proof.
  apply (segments_end_with_delimiter default_config 3 ","
           (fresh_machine 3 (list_byte_of_string "a,b,,c") [ReadShort 1] [])
           {| f_bytes := list_byte_of_string "a,b,,c";
              f_script := [ReadShort 1] |}).
  concrete_handle.
Defined.

(** C3.  The stream ["a,b,,c"] read with delimiter [','] from a fresh
    handle yields the segments ["a,"], ["b,"], [","], ["c"] and then the end
    of stream, for every chunk size and read schedule; when no allocation
    or read fails, these five outcomes are the whole sequence of calls. *)
Theorem scenario_custom_delimiter cfg fd m f :
  fresh_handle cfg fd m f ->
  f_bytes f = list_byte_of_string "a,b,,c" ->
  exists bound,
    forall calls fuel, (bound <= calls)%nat -> (bound <= fuel)%nat ->
    exists outs m',
      read_to_eof cfg calls fuel fd "," m = Some (outs, m') /\
      last outs = Some eof_outcome /\
      segments outs =
        [list_byte_of_string "a,"; list_byte_of_string "b,";
         list_byte_of_string ","; list_byte_of_string "c"] /\
      (failures fd (os m) = O ->
       outs =
         [line_outcome (list_byte_of_string "a,");
          line_outcome (list_byte_of_string "b,");
          line_outcome (list_byte_of_string ",");
          line_outcome (list_byte_of_string "c");
          eof_outcome]).
Proof.
  intros Hfresh Hbytes. exists (run_bound cfg fd m). intros calls fuel Hc Hf.
  destruct (fresh_run cfg fd "," m f Hfresh calls fuel Hc Hf) as (outs & m' & Hrun & Hof).
  exists outs, m'. split; [exact Hrun|].
  split; [exact (run_of_last _ _ _ _ Hof)|].
  rewrite Hbytes in Hof. split.
  - rewrite (run_of_segments _ _ _ _ Hof). reflexivity.
  - intros H0. rewrite (run_of_no_failure _ _ _ _ Hof H0). reflexivity.
Qed.

Lemma scenario_custom_delimiter_witness :
  exists bound,
    forall calls fuel, (bound <= calls)%nat -> (bound <= fuel)%nat ->
    exists outs m',
      read_to_eof default_config calls fuel 3 ","
        (fresh_machine 3 (list_byte_of_string "a,b,,c") [] []) =
        Some (outs, m') /\
      last outs = Some eof_outcome /\
      segments outs =
        [list_byte_of_string "a,"; list_byte_of_string "b,";
         list_byte_of_string ","; list_byte_of_string "c"] /\
      (failures 3 (os (fresh_machine 3 (list_byte_of_string "a,b,,c") [] []))
         = O ->
       outs =
         [line_outcome (list_byte_of_string "a,");
          line_outcome (list_byte_of_string "b,");
          line_outcome (list_byte_of_string ",");
          line_outcome (list_byte_of_string "c");
          eof_outcome]).
Proof.
  apply (scenario_custom_delimiter default_config 3
           (fresh_machine 3 (list_byte_of_string "a,b,,c") [] [])
           {| f_bytes := list_byte_of_string "a,b,,c"; f_script := [] |}).
  - concrete_handle.
  - reflexivity.
Defined.

(** C4.  Chunk-boundary independence: two builds that differ in
    [GNL_BUFFER_SIZE] (any two positive sizes) return the same segments in
    the same order from the same stream, and both end with [GNL_EOF]; when
    no allocation or read fails the whole sequences of outcomes agree. *)
Theorem chunk_size_independence cfg1 cfg2 fd d m f :
  fresh_handle cfg1 fd m f ->
  fresh_handle cfg2 fd m f ->
  exists bound,
    forall calls fuel, (bound <= calls)%nat -> (bound <= fuel)%nat ->
    exists outs1 m1 outs2 m2,
      read_to_eof cfg1 calls fuel fd d m = Some (outs1, m1) /\
      read_to_eof cfg2 calls fuel fd d m = Some (outs2, m2) /\
      segments outs1 = segments outs2 /\
      last outs1 = Some eof_outcome /\
      last outs2 = Some eof_outcome /\
      (failures fd (os m) = O -> outs1 = outs2).
Proof.
  intros H1 H2. exists (Nat.max (run_bound cfg1 fd m) (run_bound cfg2 fd m)).
  intros calls fuel Hc Hf.
  destruct (fresh_run cfg1 fd d m f H1 calls fuel) as (outs1 & m1 & Hrun1 & Hof1);
    [lia|lia|].
  destruct (fresh_run cfg2 fd d m f H2 calls fuel) as (outs2 & m2 & Hrun2 & Hof2);
    [lia|lia|].
  exists outs1, m1, outs2, m2.
  split; [exact Hrun1|]. split; [exact Hrun2|].
  split.
  { rewrite (run_of_segments _ _ _ _ Hof1), (run_of_segments _ _ _ _ Hof2).
    reflexivity. }
  split; [exact (run_of_last _ _ _ _ Hof1)|].
  split; [exact (run_of_last _ _ _ _ Hof2)|].
  intros H0.
  rewrite (run_of_no_failure _ _ _ _ Hof1 H0), (run_of_no_failure _ _ _ _ Hof2 H0).
  reflexivity.
Qed.

Lemma chunk_size_independence_witness :
  exists bound,
    forall calls fuel, (bound <= calls)%nat -> (bound <= fuel)%nat ->
    exists outs1 m1 outs2 m2,
      read_to_eof
        {| GNL_BUFFER_SIZE := 1; GNL_MAX_FD := 1024; GNL_DEFAULT_DELIM := x0a |}
        calls fuel 3 x0a
        (fresh_machine 3 (list_byte_of_string "ab") [ReadShort 1] []) =
        Some (outs1, m1) /\
      read_to_eof default_config calls fuel 3 x0a
        (fresh_machine 3 (list_byte_of_string "ab") [ReadShort 1] []) =
        Some (outs2, m2) /\
      segments outs1 = segments outs2 /\
      last outs1 = Some eof_outcome /\
      last outs2 = Some eof_outcome /\
      (failures 3
         (os (fresh_machine 3 (list_byte_of_string "ab") [ReadShort 1] []))
         = O -> outs1 = outs2).
Proof.
  apply (chunk_size_independence
           {| GNL_BUFFER_SIZE := 1; GNL_MAX_FD := 1024;
              GNL_DEFAULT_DELIM := x0a |}
           default_config 3 x0a
           (fresh_machine 3 (list_byte_of_string "ab") [ReadShort 1] [])
           {| f_bytes := list_byte_of_string "ab";
              f_script := [ReadShort 1] |}).
  - concrete_handle.
  - concrete_handle.
Defined.

(** ** Capacity management *)

(** C5.  [gnl_ensure_capacity] on a well-formed buffer, with sizes in range:
    when [size - len >= needed] nothing changes at all; otherwise the new
    size is the old one doubled [k] times, [k] being the least number of
    doublings that makes room, and, when [realloc] succeeds, [len], the flag
    and the first [len] bytes are the old ones.  When [realloc] fails the
    buffer is left as it was. *)
Theorem ensure_capacity_doubles fuel buf needed w :
  wf_buf buf ->
  len buf + needed <= 2 ^ 63 ->
  (Z.to_nat (len buf + needed) <= fuel)%nat ->
  (needed <= size buf - len buf /\
   gnl_ensure_capacity fuel buf needed w = Some (0, buf, w)) \/
  (size buf - len buf < needed /\
   exists (k : nat) r buf' w',
     gnl_ensure_capacity fuel buf needed w = Some (r, buf', w') /\
     (0 < k)%nat /\
     needed <= size buf * 2 ^ Z.of_nat k - len buf /\
     (forall j : nat, (j < k)%nat ->
        size buf * 2 ^ Z.of_nat j - len buf < needed) /\
     ((exists junk, next_alloc w = (Some junk, w') /\ r = 0 /\
         size buf' = size buf * 2 ^ Z.of_nat k /\
         Z.of_nat (length (data buf')) = size buf' /\
         len buf' = len buf /\
         eof_reached buf' = eof_reached buf /\
         take (Z.to_nat (len buf)) (data buf') =
           take (Z.to_nat (len buf)) (data buf)) \/
      (next_alloc w = (None, w') /\ r = -1 /\ buf' = buf))).
Proof.
  intros Hwf Hsum Hfuel.
  destruct (ensure_capacity_cases fuel buf needed w Hwf Hsum Hfuel)
    as [Hsame|(Hlt & k & Hk & Hge & Hmod & Hmin & Heq)]; [left; exact Hsame|].
  right. split; [exact Hlt|]. exists k.
  destruct Hwf as (Hs & Hl & Hd).
  destruct (next_alloc w) as [[junk|] w'] eqn:Hn.
  - eexists _, _, w'. split; [exact Heq|]. split; [exact Hk|].
    split; [exact Hge|]. split; [exact Hmin|]. left. exists junk. cbn.
    split; [reflexivity|]. split; [reflexivity|]. split; [reflexivity|].
    split; [rewrite length_resize; lia|]. split; [reflexivity|].
    split; [reflexivity|].
    rewrite take_resize_le by lia. apply resize_le. lia.
  - eexists _, _, w'. split; [exact Heq|]. split; [exact Hk|].
    split; [exact Hge|]. split; [exact Hmin|]. right. auto.
Qed.

Lemma ensure_capacity_doubles_witness :
  let buf := {| data := list_byte_of_string "abcdefgh"; size := 8; len := 6;
                eof_reached := 0 |} in
  let w := {| w_files := ∅; w_allocs := [AllocOk x2e] |} in
  (20 <= size buf - len buf /\
   gnl_ensure_capacity 26 buf 20 w = Some (0, buf, w)) \/
  (size buf - len buf < 20 /\
   exists (k : nat) r buf' w',
     gnl_ensure_capacity 26 buf 20 w = Some (r, buf', w') /\
     (0 < k)%nat /\
     20 <= size buf * 2 ^ Z.of_nat k - len buf /\
     (forall j : nat, (j < k)%nat ->
        size buf * 2 ^ Z.of_nat j - len buf < 20) /\
     ((exists junk, next_alloc w = (Some junk, w') /\ r = 0 /\
         size buf' = size buf * 2 ^ Z.of_nat k /\
         Z.of_nat (length (data buf')) = size buf' /\
         len buf' = len buf /\
         eof_reached buf' = eof_reached buf /\
         take (Z.to_nat (len buf)) (data buf') =
           take (Z.to_nat (len buf)) (data buf)) \/
      (next_alloc w = (None, w') /\ r = -1 /\ buf' = buf))).
Proof.
  intros buf w.
  apply (ensure_capacity_doubles 26 buf 20 w).
  - unfold wf_buf. repeat split; first [reflexivity | simpl; lia | vm_compute; congruence].
  - simpl. lia.
  - simpl. lia.
Defined.

(** ** Refill: end of stream and read errors *)

Lemma ensure_capacity_eof fuel buf needed w r buf' w' :
  gnl_ensure_capacity fuel buf needed w = Some (r, buf', w') ->
  eof_reached buf' = eof_reached buf.
Proof.
  unfold gnl_ensure_capacity, realloc. intros H.
  destruct (needed <=? usub (size buf) (len buf)).
  - injection H as <- <- <-. reflexivity.
  - destruct (grow_size fuel (size buf) (len buf) needed); [|discriminate].
    destruct (next_alloc w) as [[junk|] w1]; injection H as <- <- <-; reflexivity.
Qed.

(** C6.  In a refill whose [read] returns zero, [gnl_fill_buffer] sets
    [eof_reached]; in a refill whose [read] returns a negative value the flag
    keeps its value, [gnl_fill_buffer] returns [-1], the loop of
    [get_next_line_delim] stops with [GNL_ERROR] and a null line, and so
    does the call itself when this is its first refill. *)
Theorem refill_eof_and_error cfg fuel fd d buf w buf1 w1 rd got w2 :
  gnl_ensure_capacity fuel buf (to_size (GNL_BUFFER_SIZE cfg)) w
    = Some (0, buf1, w1) ->
  sys_read fd (to_size (GNL_BUFFER_SIZE cfg)) w1 = (rd, got, w2) ->
  (rd = 0 ->
   exists buf2,
     gnl_fill_buffer cfg fuel fd buf w = Some (0, buf2, w2) /\
     eof_reached buf2 = 1) /\
  (rd < 0 ->
   gnl_fill_buffer cfg fuel fd buf w = Some (-1, buf1, w2) /\
   eof_reached buf1 = eof_reached buf /\
   (gnl_find_delim buf d < 0 -> eof_reached buf = 0 ->
    gnl_read_loop cfg (S fuel) fd d buf w = Some (GNL_ERROR, None, buf1, w2) /\
    forall m old,
      0 <= fd < GNL_MAX_FD cfg ->
      g_buffers m !! fd = Some buf -> os m = w ->
      get_next_line_delim cfg (S fuel) fd (Some old) d m =
        Some (GNL_ERROR, Some None,
              {| g_buffers := <[fd := buf1]> (g_buffers m); os := w2 |}))).
Proof.
  intros Hens Hread. split.
  - intros ->. eexists. unfold gnl_fill_buffer. rewrite Hens.
    cbn [Z.ltb Z.compare]. rewrite Hread. cbn [Z.ltb Z.compare Z.eqb].
    split; reflexivity.
  - intros Hneg.
    assert (Hfill : gnl_fill_buffer cfg fuel fd buf w = Some (-1, buf1, w2)).
    { unfold gnl_fill_buffer. rewrite Hens. cbn [Z.ltb Z.compare].
      rewrite Hread. destruct (Z.ltb_spec rd 0); [reflexivity|lia]. }
    split; [exact Hfill|].
    split; [exact (ensure_capacity_eof _ _ _ _ _ _ _ Hens)|].
    intros Hnf He0.
    assert (Hloop : gnl_read_loop cfg (S fuel) fd d buf w
                    = Some (GNL_ERROR, None, buf1, w2)).
    { cbn [gnl_read_loop].
      destruct (Z.leb_spec 0 (gnl_find_delim buf d)); [lia|].
      rewrite He0. cbn [Z.eqb negb]. rewrite Hfill. reflexivity. }
    split; [exact Hloop|].
    intros m old Hfd Hg Hos. unfold get_next_line_delim.
    destruct (Z.ltb_spec fd 0); [lia|].
    destruct (Z.leb_spec (GNL_MAX_FD cfg) fd); [lia|]. cbn [orb].
    unfold gnl_get_buffer. rewrite Hg, Hos, Hloop. reflexivity.
Qed.

Lemma refill_eof_and_error_witness :
  let buf := {| data := list_byte_of_string "abcdefgh"; size := 8; len := 2;
                eof_reached := 0 |} in
  let cfg := {| GNL_BUFFER_SIZE := 4; GNL_MAX_FD := 1024;
                GNL_DEFAULT_DELIM := x0a |} in
  let w := {| w_files := {[ 3 := {| f_bytes := list_byte_of_string "xyz";
                                    f_script := [ReadFail] |} ]};
              w_allocs := [] |} in
  let w2 := {| w_files := {[ 3 := {| f_bytes := list_byte_of_string "xyz";
                                     f_script := [] |} ]};
               w_allocs := [] |} in
  (-1 = 0 ->
   exists buf2,
     gnl_fill_buffer cfg 5 3 buf w = Some (0, buf2, w2) /\
     eof_reached buf2 = 1) /\
  (-1 < 0 ->
   gnl_fill_buffer cfg 5 3 buf w = Some (-1, buf, w2) /\
   eof_reached buf = eof_reached buf /\
   (gnl_find_delim buf x0a < 0 -> eof_reached buf = 0 ->
    gnl_read_loop cfg 6 3 x0a buf w = Some (GNL_ERROR, None, buf, w2) /\
    forall m old,
      0 <= 3 < GNL_MAX_FD cfg ->
      g_buffers m !! 3 = Some buf -> os m = w ->
      get_next_line_delim cfg 6 3 (Some old) x0a m =
        Some (GNL_ERROR, Some None,
              {| g_buffers := <[3 := buf]> (g_buffers m); os := w2 |}))).
Proof.
  intros buf cfg w w2.
  apply (refill_eof_and_error cfg 5 3 x0a buf w buf w (-1) [] w2).
  - vm_compute. reflexivity.
  - vm_compute. reflexivity.
Defined.

(** ** Failures leave the buffer as it was *)

Lemma ensure_capacity_fail_same fuel buf needed w r buf' w' :
  gnl_ensure_capacity fuel buf needed w = Some (r, buf', w') ->
  r < 0 -> buf' = buf.
Proof.
  unfold gnl_ensure_capacity, realloc. intros H Hr.
  destruct (needed <=? usub (size buf) (len buf)).
  - injection H as <- <- <-. reflexivity.
  - destruct (grow_size fuel (size buf) (len buf) needed); [|discriminate].
    destruct (next_alloc w) as [[junk|] w1]; injection H as <- <- <-;
      [lia|reflexivity].
Qed.

Lemma extract_line_fail_same buf pos w buf' w' :
  gnl_extract_line buf pos w = (None, buf', w') -> buf' = buf.
Proof.
  unfold gnl_extract_line, malloc. intros H.
  destruct (next_alloc w) as [[junk|] w1]; [discriminate|].
  injection H as <- <-. reflexivity.
Qed.

Lemma extract_line_eof buf pos w line buf' w' :
  gnl_extract_line buf pos w = (line, buf', w') ->
  eof_reached buf' = eof_reached buf.
Proof.
  unfold gnl_extract_line, malloc. intros H.
  destruct (next_alloc w) as [[junk|] w1]; injection H as <- <- <-; reflexivity.
Qed.

Lemma fill_buffer_fail_valid cfg fuel fd buf w r buf' w' :
  wf_buf buf ->
  0 < GNL_BUFFER_SIZE cfg ->
  len buf + GNL_BUFFER_SIZE cfg <= 2 ^ 63 ->
  (Z.to_nat (len buf + GNL_BUFFER_SIZE cfg) <= fuel)%nat ->
  gnl_fill_buffer cfg fuel fd buf w = Some (r, buf', w') ->
  r < 0 ->
  valid buf' = valid buf /\ len buf' = len buf /\
  eof_reached buf' = eof_reached buf.
Proof.
  intros Hwf Hbs Hsum Hfuel Hfill Hr. pose proof size_modulus_eq as HM.
  pose proof Hwf as (Hs0 & Hl0 & Hd0).
  unfold gnl_fill_buffer in Hfill.
  rewrite (to_size_small (GNL_BUFFER_SIZE cfg)) in Hfill by lia.
  destruct (ensure_capacity_spec fuel buf (GNL_BUFFER_SIZE cfg) w Hwf Hsum Hfuel)
    as (r1 & buf1 & w1 & He & Hf1 & Hcase).
  rewrite He in Hfill.
  destruct Hcase as [(-> & Hwf1 & Hlen1 & Heof1 & Hval1 & Hroom & Ha1)
                    |(-> & -> & Ha1)].
  - cbn [Z.ltb Z.compare] in Hfill.
    destruct (sys_read fd (GNL_BUFFER_SIZE cfg) w1) as [[rd got] w2].
    destruct (Z.ltb_spec rd 0).
    + injection Hfill as <- <- <-. auto.
    + injection Hfill as <- <- <-. lia.
  - cbn [Z.ltb Z.compare] in Hfill. injection Hfill as <- <- <-. auto.
Qed.

(** C7.  A failed call leaves a consistent state: it returns [GNL_ERROR]
    with a null line, the machine is still well formed, the bytes buffered
    and those left in the stream together are what they were before the
    call, and calling again until [GNL_EOF] returns exactly those bytes.
    In particular a failed [realloc] in [gnl_ensure_capacity] and a failed
    [malloc] in [gnl_extract_line] leave the buffer untouched, and a failed
    refill leaves [valid], [len] and [eof_reached] untouched. *)
Theorem failed_call_keeps_state cfg fd d old m fuel :
  wf_machine cfg fd m ->
  (call_fuel cfg fd m <= fuel)%nat ->
  exists ret line m',
    get_next_line_delim cfg fuel fd (Some old) d m = Some (ret, Some line, m') /\
    (ret = GNL_ERROR ->
     line = None /\ wf_machine cfg fd m' /\
     buffered fd m' ++ unread fd (os m') = buffered fd m ++ unread fd (os m) /\
     forall calls fuel',
       (run_bound cfg fd m' <= calls)%nat ->
       (run_bound cfg fd m' <= fuel')%nat ->
       exists outs m'',
         read_to_eof cfg calls fuel' fd d m' = Some (outs, m'') /\
         last outs = Some eof_outcome /\
         concat (segments outs) = buffered fd m ++ unread fd (os m)) /\
    (forall fuel0 buf needed w r buf' w',
       gnl_ensure_capacity fuel0 buf needed w = Some (r, buf', w') ->
       r < 0 -> buf' = buf) /\
    (forall buf pos w buf' w',
       gnl_extract_line buf pos w = (None, buf', w') -> buf' = buf) /\
    (forall fuel0 buf w r buf' w',
       wf_buf buf ->
       len buf + GNL_BUFFER_SIZE cfg <= 2 ^ 63 ->
       (Z.to_nat (len buf + GNL_BUFFER_SIZE cfg) <= fuel0)%nat ->
       gnl_fill_buffer cfg fuel0 fd buf w = Some (r, buf', w') ->
       r < 0 ->
       valid buf' = valid buf /\ len buf' = len buf /\
       eof_reached buf' = eof_reached buf).
Proof.
  intros Hwf Hfuel.
  destruct (call_spec cfg fd d old m fuel Hwf Hfuel)
    as (ret & line & m' & Hcall & Hwf' & Hfuel' & Hcase).
  exists ret, line, m'. split; [exact Hcall|]. split.
  - intros ->.
    destruct Hcase as [(Hret & _)|[(Hret & _)|(_ & -> & HP & HF)]];
      try discriminate.
    split; [reflexivity|]. split; [exact Hwf'|]. split; [exact HP|].
    intros calls fuel' Hc Hf.
    destruct (run_total cfg fd d m' Hwf' calls fuel' Hc Hf) as (outs & m'' & Hrun & Hof).
    exists outs, m''. split; [exact Hrun|].
    split; [exact (run_of_last _ _ _ _ Hof)|].
    rewrite (run_of_segments _ _ _ _ Hof), split_segments_concat. exact HP.
  - split; [exact ensure_capacity_fail_same|].
    split; [exact extract_line_fail_same|].
    intros fuel0 buf w r buf' w' Hb Hsum Hf0. destruct Hwf as (_ & Hbs & _).
    apply fill_buffer_fail_valid; assumption.
Qed.

Lemma failed_call_keeps_state_witness :
  let cfg := default_config in
  let m := fresh_machine 3 (list_byte_of_string "a,b,,c") [] [AllocFail] in
  exists ret line m',
    get_next_line_delim cfg 5000 3 (Some None) "," m = Some (ret, Some line, m') /\
    (ret = GNL_ERROR ->
     line = None /\ wf_machine cfg 3 m' /\
     buffered 3 m' ++ unread 3 (os m') = buffered 3 m ++ unread 3 (os m) /\
     forall calls fuel',
       (run_bound cfg 3 m' <= calls)%nat ->
       (run_bound cfg 3 m' <= fuel')%nat ->
       exists outs m'',
         read_to_eof cfg calls fuel' 3 "," m' = Some (outs, m'') /\
         last outs = Some eof_outcome /\
         concat (segments outs) = buffered 3 m ++ unread 3 (os m)) /\
    (forall fuel0 buf needed w r buf' w',
       gnl_ensure_capacity fuel0 buf needed w = Some (r, buf', w') ->
       r < 0 -> buf' = buf) /\
    (forall buf pos w buf' w',
       gnl_extract_line buf pos w = (None, buf', w') -> buf' = buf) /\
    (forall fuel0 buf w r buf' w',
       wf_buf buf ->
       len buf + GNL_BUFFER_SIZE cfg <= 2 ^ 63 ->
       (Z.to_nat (len buf + GNL_BUFFER_SIZE cfg) <= fuel0)%nat ->
       gnl_fill_buffer cfg fuel0 3 buf w = Some (r, buf', w') ->
       r < 0 ->
       valid buf' = valid buf /\ len buf' = len buf /\
       eof_reached buf' = eof_reached buf).
Proof.
  intros cfg m.
  apply (failed_call_keeps_state cfg 3 "," None m 5000).
  - apply (fresh_wf cfg 3 m
             {| f_bytes := list_byte_of_string "a,b,,c"; f_script := [] |}).
    concrete_handle.
  - vm_compute. lia.
Defined.

(** ** The buffer invariant *)

Lemma read_loop_eof_kept cfg fuel fd d buf w ret line buf' w' :
  gnl_read_loop cfg fuel fd d buf w = Some (ret, line, buf', w') ->
  eof_reached buf <> 0 -> eof_reached buf' <> 0.
Proof.
  intros H He. destruct fuel as [|fuel]; [discriminate|].
  cbn [gnl_read_loop] in H.
  destruct (0 <=? gnl_find_delim buf d).
  - destruct (gnl_extract_line buf (to_size (gnl_find_delim buf d)) w)
      as [[l b] w1] eqn:Hx.
    injection H as <- <- <- <-. rewrite (extract_line_eof _ _ _ _ _ _ Hx). exact He.
  - destruct (Z.eqb_spec (eof_reached buf) 0) as [H0|_]; [contradiction|].
    cbn [negb] in H. destruct (0 <? len buf).
    + destruct (gnl_extract_line buf (usub (len buf) 1) w) as [[l b] w1] eqn:Hx.
      injection H as <- <- <- <-. rewrite (extract_line_eof _ _ _ _ _ _ Hx). exact He.
    + injection H as <- <- <- <-. exact He.
Qed.

(** A call touches no other entry of [g_buffers]. *)
Lemma call_frame cfg fuel fd line d m ret line' m' :
  get_next_line_delim cfg fuel fd line d m = Some (ret, line', m') ->
  forall fd', fd' <> fd -> g_buffers m' !! fd' = g_buffers m !! fd'.
Proof.
  unfold get_next_line_delim, gnl_get_buffer. intros H fd' Hne.
  destruct line as [old|]; [|injection H as <- <- <-; reflexivity].
  destruct ((fd <? 0) || (GNL_MAX_FD cfg <=? fd));
    [injection H as <- <- <-; reflexivity|].
  destruct (g_buffers m !! fd) as [buf|] eqn:Hg.
  - destruct (gnl_read_loop cfg fuel fd d buf (os m)) as [[[[r l] b] w1]|];
      [|discriminate].
    injection H as <- <- <-. cbn. apply lookup_insert_ne. congruence.
  - destruct (calloc_buffer (os m)) as [[buf0|] w1];
      [|injection H as <- <- <-; reflexivity].
    destruct (malloc (to_size (GNL_BUFFER_SIZE cfg)) w1) as [[block|] w2];
      [|injection H as <- <- <-; reflexivity].
    cbn [g_buffers os] in H.
    match type of H with
    | context [gnl_read_loop cfg fuel fd d ?b ?w] =>
        destruct (gnl_read_loop cfg fuel fd d b w) as [[[[r l] b'] w3]|];
          [|discriminate]
    end.
    injection H as <- <- <-. cbn.
    rewrite !lookup_insert_ne by congruence. reflexivity.
Qed.

(** Once a buffer has seen the end of its stream, a call keeps the flag. *)
Lemma call_eof_kept cfg fuel fd line d m ret line' m' buf :
  get_next_line_delim cfg fuel fd line d m = Some (ret, line', m') ->
  g_buffers m !! fd = Some buf -> eof_reached buf <> 0 ->
  exists buf', g_buffers m' !! fd = Some buf' /\ eof_reached buf' <> 0.
Proof.
  unfold get_next_line_delim, gnl_get_buffer. intros H Hg He.
  destruct line as [old|]; [|injection H as <- <- <-; eauto].
  destruct ((fd <? 0) || (GNL_MAX_FD cfg <=? fd));
    [injection H as <- <- <-; eauto|].
  rewrite Hg in H.
  destruct (gnl_read_loop cfg fuel fd d buf (os m)) as [[[[r l] b] w1]|] eqn:Hl;
    [|discriminate].
  injection H as <- <- <-. exists b. cbn. split; [apply lookup_insert_eq|].
  exact (read_loop_eof_kept _ _ _ _ _ _ _ _ _ _ Hl He).
Qed.

(** C8.  Every operation keeps the invariant [wf_buf] ([len <= size], the
    block has [size] bytes) with [valid] as the unconsumed data, and never
    clears [eof_reached]: [gnl_ensure_capacity] keeps [valid];
    [gnl_extract_line] splits [valid] into the segment and what remains;
    [gnl_fill_buffer] appends the bytes read; a whole call leaves a
    well-formed machine, keeps a set flag set and touches no other
    handle. *)
Theorem buffer_invariant_preserved cfg fd m buf f fuel :
  wf_machine cfg fd m ->
  g_buffers m !! fd = Some buf ->
  w_files (os m) !! fd = Some f ->
  (call_fuel cfg fd m <= fuel)%nat ->
  wf_buf buf /\
  (exists r buf' w',
     gnl_ensure_capacity fuel buf (GNL_BUFFER_SIZE cfg) (os m)
       = Some (r, buf', w') /\
     wf_buf buf' /\ valid buf' = valid buf /\
     eof_reached buf' = eof_reached buf) /\
  (forall pos, 0 <= pos < len buf ->
     exists line buf' w',
       gnl_extract_line buf pos (os m) = (line, buf', w') /\
       wf_buf buf' /\ eof_reached buf' = eof_reached buf /\
       (line = None -> buf' = buf) /\
       (forall block, line = Some block ->
          valid buf = segment block ++ valid buf')) /\
  (exists r buf' w',
     gnl_fill_buffer cfg fuel fd buf (os m) = Some (r, buf', w') /\
     wf_buf buf' /\
     (eof_reached buf <> 0 -> eof_reached buf' <> 0) /\
     exists got, valid buf' = valid buf ++ got /\
       unread fd (os m) = got ++ unread fd w') /\
  (forall d old,
     exists ret line m' buf',
       get_next_line_delim cfg fuel fd (Some old) d m
         = Some (ret, Some line, m') /\
       wf_machine cfg fd m' /\
       g_buffers m' !! fd = Some buf' /\ wf_buf buf' /\
       (eof_reached buf <> 0 -> eof_reached buf' <> 0) /\
       (forall fd', fd' <> fd -> g_buffers m' !! fd' = g_buffers m !! fd')).
Proof.
  intros Hwf Hg Hf Hfuel.
  pose proof Hwf as (Hfd & Hbs & _ & Hbuf & Hsum).
  destruct (Hbuf buf Hg) as [Hwfb Heof].
  pose proof (valid_length buf Hwfb) as Hvl.
  assert (Hun : unread fd (os m) = f_bytes f) by (unfold unread; rewrite Hf; reflexivity).
  assert (HP : pending fd m = valid buf ++ f_bytes f).
  { unfold pending, buffered. rewrite Hg, Hun. reflexivity. }
  rewrite HP, length_app in Hsum.
  unfold call_fuel in Hfuel. rewrite HP, length_app in Hfuel.
  assert (Hr : len buf + GNL_BUFFER_SIZE cfg <= 2 ^ 63) by lia.
  assert (Hfu : (Z.to_nat (len buf + GNL_BUFFER_SIZE cfg) <= fuel)%nat) by lia.
  split; [exact Hwfb|]. split; [|split; [|split]].
  - destruct (ensure_capacity_spec fuel buf (GNL_BUFFER_SIZE cfg) (os m) Hwfb Hr Hfu)
      as (r & buf' & w' & He & _ & Hcase).
    exists r, buf', w'. split; [exact He|].
    destruct Hcase as [(_ & Hwf' & _ & He' & Hv' & _)|(_ & -> & _)]; auto.
  - intros pos Hpos.
    destruct (extract_line_spec buf pos (os m) Hwfb Hpos) as
      (line & buf' & w' & He & _ & Hcase); [lia|].
    exists line, buf', w'. split; [exact He|].
    destruct Hcase as [(-> & Hwf' & Hv' & _ & _ & He' & _)|(-> & -> & _)].
    + split; [exact Hwf'|]. split; [exact He'|]. split; [discriminate|].
      intros block Hb. injection Hb as <-.
      rewrite segment_line, Hv'. symmetry. apply take_drop.
    + split; [exact Hwfb|]. split; [reflexivity|]. split; [reflexivity|].
      discriminate.
  - destruct (fill_buffer_spec cfg fuel fd buf (os m) f Hwfb Hbs Hr Hf Hfu)
      as (r & buf' & w' & f' & Hfill & Hwf' & Hfiles & Hcase).
    exists r, buf', w'. split; [exact Hfill|]. split; [exact Hwf'|].
    assert (Hun' : unread fd w' = f_bytes f').
    { unfold unread. rewrite Hfiles, lookup_insert_eq. reflexivity. }
    rewrite Hun, Hun'.
    destruct Hcase as [(_ & Hv & _ & He' & Hb & _)
                      |(_ & got & -> & Hv & Hb & _ & Hz & Hnz)].
    + split; [congruence|]. exists []. rewrite app_nil_r, Hb. auto.
    + split.
      * intros He. destruct (Z.eq_dec (Z.of_nat (length got)) 0) as [H0|H0].
        -- destruct (Hz H0) as [-> _]. discriminate.
        -- rewrite (Hnz H0). exact He.
      * exists got. auto.
  - intros d old.
    destruct (call_spec cfg fd d old m fuel Hwf) as
      (ret & line & m' & Hcall & Hwf' & _ & _).
    { unfold call_fuel. rewrite HP, length_app. exact Hfuel. }
    pose proof (call_frame _ _ _ _ _ _ _ _ _ Hcall) as Hframe.
    assert (Hb' : exists buf', g_buffers m' !! fd = Some buf').
    { revert Hcall. unfold get_next_line_delim, gnl_get_buffer.
      destruct ((fd <? 0) || (GNL_MAX_FD cfg <=? fd)).
      - intros H. injection H as <- <- <-. eauto.
      - rewrite Hg.
        destruct (gnl_read_loop cfg fuel fd d buf (os m)) as [[[[r l] b] w1]|];
          [|discriminate].
        intros H. injection H as <- <- <-. exists b. cbn. apply lookup_insert_eq. }
    destruct Hb' as [buf' Hg'].
    exists ret, line, m', buf'. split; [exact Hcall|]. split; [exact Hwf'|].
    split; [exact Hg'|].
    destruct Hwf' as (_ & _ & _ & Hbuf' & _).
    split; [exact (proj1 (Hbuf' buf' Hg'))|]. split; [|exact Hframe].
    intros He. destruct (call_eof_kept _ _ _ _ _ _ _ _ _ _ Hcall Hg He)
      as (b & Hb & Hne). congruence.
Qed.

Lemma buffer_invariant_preserved_witness :
  let cfg := {| GNL_BUFFER_SIZE := 4; GNL_MAX_FD := 1024;
                GNL_DEFAULT_DELIM := x0a |} in
  let buf := {| data := list_byte_of_string "ab,cdefg"; size := 8; len := 5;
                eof_reached := 0 |} in
  let f := {| f_bytes := list_byte_of_string "xyz"; f_script := [] |} in
  let m := {| g_buffers := {[ 3 := buf ]};
              os := {| w_files := {[ 3 := f ]}; w_allocs := [] |} |} in
  wf_buf buf /\
  (exists r buf' w',
     gnl_ensure_capacity 40 buf (GNL_BUFFER_SIZE cfg) (os m)
       = Some (r, buf', w') /\
     wf_buf buf' /\ valid buf' = valid buf /\
     eof_reached buf' = eof_reached buf) /\
  (forall pos, 0 <= pos < len buf ->
     exists line buf' w',
       gnl_extract_line buf pos (os m) = (line, buf', w') /\
       wf_buf buf' /\ eof_reached buf' = eof_reached buf /\
       (line = None -> buf' = buf) /\
       (forall block, line = Some block ->
          valid buf = segment block ++ valid buf')) /\
  (exists r buf' w',
     gnl_fill_buffer cfg 40 3 buf (os m) = Some (r, buf', w') /\
     wf_buf buf' /\
     (eof_reached buf <> 0 -> eof_reached buf' <> 0) /\
     exists got, valid buf' = valid buf ++ got /\
       unread 3 (os m) = got ++ unread 3 w') /\
  (forall d old,
     exists ret line m' buf',
       get_next_line_delim cfg 40 3 (Some old) d m
         = Some (ret, Some line, m') /\
       wf_machine cfg 3 m' /\
       g_buffers m' !! 3 = Some buf' /\ wf_buf buf' /\
       (eof_reached buf <> 0 -> eof_reached buf' <> 0) /\
       (forall fd', fd' <> 3 -> g_buffers m' !! fd' = g_buffers m !! fd')).
Proof.
  intros cfg buf f m.
  apply (buffer_invariant_preserved cfg 3 m buf f 40).
  - unfold wf_machine. split; [simpl; lia|]. split; [reflexivity|].
    split; [exists f; reflexivity|]. split; [|vm_compute; congruence].
    intros b Hb. vm_compute in Hb. injection Hb as <-. split.
    + unfold wf_buf. repeat split; vm_compute; congruence.
    + intros H. exfalso. apply H. reflexivity.
  - reflexivity.
  - reflexivity.
  - vm_compute. lia.
Defined.

(** ** Releasing a handle *)

(** C9.  [gnl_close] is idempotent and total: closing twice is closing
    once; closing a descriptor that has no buffer, or one out of range
    (negative included), changes nothing; in every case the other entries
    of [g_buffers] and the environment are untouched, and no buffer is left
    for a descriptor in range. *)
Theorem gnl_close_idempotent cfg fd m :
  gnl_close cfg fd (gnl_close cfg fd m) = gnl_close cfg fd m /\
  (g_buffers m !! fd = None -> gnl_close cfg fd m = m) /\
  (fd < 0 \/ GNL_MAX_FD cfg <= fd -> gnl_close cfg fd m = m) /\
  (forall fd', fd' <> fd ->
     g_buffers (gnl_close cfg fd m) !! fd' = g_buffers m !! fd') /\
  os (gnl_close cfg fd m) = os m /\
  (0 <= fd < GNL_MAX_FD cfg -> g_buffers (gnl_close cfg fd m) !! fd = None).
Proof.
  unfold gnl_close.
  destruct ((fd <? 0) || (GNL_MAX_FD cfg <=? fd)) eqn:Hrange.
  - repeat split; try reflexivity.
    intros Hfd. apply orb_true_iff in Hrange. destruct Hrange as [H|H].
    + apply Z.ltb_lt in H. lia.
    + apply Z.leb_le in H. lia.
  - apply orb_false_iff in Hrange. destruct Hrange as [H1 H2].
    apply Z.ltb_ge in H1. apply Z.leb_gt in H2.
    destruct (g_buffers m !! fd) as [buf|] eqn:Hg.
    + cbn [g_buffers os]. rewrite lookup_delete_eq.
      split; [reflexivity|]. split; [discriminate|]. split; [lia|].
      split; [intros fd' Hne; apply lookup_delete_ne; congruence|].
      split; [reflexivity|]. intros _. reflexivity.
    + rewrite Hg. repeat split; try reflexivity; intros; assumption.
Qed.

(** ** The returned line *)

Lemma read_loop_status cfg fuel : forall fd d buf w ret line buf' w',
  gnl_read_loop cfg fuel fd d buf w = Some (ret, line, buf', w') ->
  (ret = GNL_LINE_READ /\ is_Some line) \/
  ((ret = GNL_EOF \/ ret = GNL_ERROR) /\ line = None).
Proof.
  induction fuel as [|fuel IH]; intros fd d buf w ret line buf' w' H;
    [discriminate|].
  cbn [gnl_read_loop] in H.
  assert (Hx : forall pos l b w1,
    gnl_extract_line buf pos w = (l, b, w1) ->
    Some (line_status l, l, b, w1) = Some (ret, line, buf', w') ->
    (ret = GNL_LINE_READ /\ is_Some line) \/
    ((ret = GNL_EOF \/ ret = GNL_ERROR) /\ line = None)).
  { intros pos l b w1 _ E. injection E as <- <- <- <-.
    destruct l; cbn; [left|right]; eauto. }
  destruct (0 <=? gnl_find_delim buf d).
  - destruct (gnl_extract_line buf (to_size (gnl_find_delim buf d)) w)
      as [[l b] w1] eqn:E. exact (Hx _ _ _ _ E H).
  - destruct (negb (eof_reached buf =? 0)).
    + destruct (0 <? len buf).
      * destruct (gnl_extract_line buf (usub (len buf) 1) w)
          as [[l b] w1] eqn:E. exact (Hx _ _ _ _ E H).
      * injection H as <- <- <- <-. right. auto.
    + destruct (gnl_fill_buffer cfg fuel fd buf w) as [[[r b] w1]|]; [|discriminate].
      destruct (r <? 0).
      * injection H as <- <- <- <-. right. auto.
      * exact (IH _ _ _ _ _ _ _ _ H).
Qed.

(** C10.  A call that returns [GNL_LINE_READ] stores a block of [L + 1]
    bytes for a segment of [L] bytes: the segment (the first segment of the
    pending bytes) followed by a zero byte at index [L].  A call that
    passes the argument checks and returns [GNL_EOF] or [GNL_ERROR] leaves
    a null pointer in [*line]; this second part holds on every machine. *)
Theorem line_block_terminated cfg fd d old m fuel :
  wf_machine cfg fd m ->
  (call_fuel cfg fd m <= fuel)%nat ->
  (exists ret line m',
     get_next_line_delim cfg fuel fd (Some old) d m
       = Some (ret, Some line, m') /\
     (ret = GNL_LINE_READ \/ ret = GNL_EOF \/ ret = GNL_ERROR) /\
     (ret = GNL_LINE_READ ->
      exists seg block,
        line = Some block /\
        seg = fst (cut_segment d (pending fd m)) /\
        block = seg ++ [x00] /\
        length block = S (length seg) /\
        block !! length seg = Some x00 /\
        take (length seg) block = seg) /\
     (ret = GNL_EOF \/ ret = GNL_ERROR -> line = None)) /\
  (forall fuel0 old0 m0 ret0 line0 m0',
     get_next_line_delim cfg fuel0 fd (Some old0) d m0
       = Some (ret0, line0, m0') ->
     ret0 = GNL_EOF \/ ret0 = GNL_ERROR -> line0 = Some None).
Proof.
  intros Hwf Hfuel. split.
  - destruct (call_spec cfg fd d old m fuel Hwf Hfuel)
      as (ret & line & m' & Hcall & _ & _ & Hcase).
    exists ret, line, m'. split; [exact Hcall|].
    destruct Hcase as [(-> & Hne & seg & -> & Hcut & _)
                      |[(-> & -> & _)|(-> & -> & _)]].
    + split; [auto|]. split; [|intros [H|H]; discriminate].
      intros _. exists seg, (seg ++ [x00]). rewrite Hcut.
      split; [reflexivity|]. split; [reflexivity|]. split; [reflexivity|].
      split; [rewrite length_app; cbn; lia|].
      split; [|apply take_app_length].
      rewrite lookup_app_r by lia. rewrite Nat.sub_diag. reflexivity.
    + split; [auto|]. split; [discriminate|reflexivity].
    + split; [auto|]. split; [discriminate|reflexivity].
  - destruct Hwf as (Hfd & _).
    intros fuel0 old0 m0 ret0 line0 m0' H Hret.
    unfold get_next_line_delim in H.
    destruct (Z.ltb_spec fd 0); [lia|].
    destruct (Z.leb_spec (GNL_MAX_FD cfg) fd); [lia|]. cbn [orb] in H.
    destruct (gnl_get_buffer cfg fd m0) as [[buf|] m1].
    + destruct (gnl_read_loop cfg fuel0 fd d buf (os m1))
        as [[[[r l] b] w1]|] eqn:Hl; [|discriminate].
      injection H as <- <- <-.
      destruct (read_loop_status _ _ _ _ _ _ _ _ _ _ Hl) as [[-> _]|[_ ->]].
      * destruct Hret; discriminate.
      * reflexivity.
    + injection H as <- <- <-. reflexivity.
Qed.

Lemma line_block_terminated_witness :
  let cfg := default_config in
  let m := fresh_machine 3 (list_byte_of_string "a,b,,c") [] [] in
  (exists ret line m',
     get_next_line_delim cfg 5000 3 (Some None) "," m
       = Some (ret, Some line, m') /\
     (ret = GNL_LINE_READ \/ ret = GNL_EOF \/ ret = GNL_ERROR) /\
     (ret = GNL_LINE_READ ->
      exists seg block,
        line = Some block /\
        seg = fst (cut_segment "," (pending 3 m)) /\
        block = seg ++ [x00] /\
        length block = S (length seg) /\
        block !! length seg = Some x00 /\
        take (length seg) block = seg) /\
     (ret = GNL_EOF \/ ret = GNL_ERROR -> line = None)) /\
  (forall fuel0 old0 m0 ret0 line0 m0',
     get_next_line_delim cfg fuel0 3 (Some old0) "," m0
       = Some (ret0, line0, m0') ->
     ret0 = GNL_EOF \/ ret0 = GNL_ERROR -> line0 = Some None).
Proof.
  intros cfg m.
  apply (line_block_terminated cfg 3 "," None m 5000).
  - apply (fresh_wf cfg 3 m
             {| f_bytes := list_byte_of_string "a,b,,c"; f_script := [] |}).
    concrete_handle.
  - vm_compute. lia.
Defined.

(** * Further properties of get_next_line.c *)

(** ** What a call leaves alone *)

Lemma next_alloc_files w r w' : next_alloc w = (r, w') -> w_files w' = w_files w.
Proof.
  unfold next_alloc. intros H.
  destruct (w_allocs w) as [|[|junk] s]; injection H as <- <-; reflexivity.
Qed.

Lemma sys_read_frame fd count w r got w' :
  sys_read fd count w = (r, got, w') ->
  forall fd', fd' <> fd -> w_files w' !! fd' = w_files w !! fd'.
Proof.
  unfold sys_read. intros H fd' Hne.
  destruct (w_files w !! fd) as [f|]; [|injection H as <- <- <-; reflexivity].
  destruct (f_script f) as [|[|k] s]; injection H as <- <- <-; cbn;
    apply lookup_insert_ne; congruence.
Qed.

Lemma ensure_capacity_files fuel buf needed w r buf' w' :
  gnl_ensure_capacity fuel buf needed w = Some (r, buf', w') ->
  w_files w' = w_files w.
Proof.
  unfold gnl_ensure_capacity, realloc. intros H.
  destruct (needed <=? usub (size buf) (len buf)).
  - injection H as <- <- <-. reflexivity.
  - destruct (grow_size fuel (size buf) (len buf) needed); [|discriminate].
    destruct (next_alloc w) as [[junk|] w1] eqn:Hn;
      injection H as <- <- <-; exact (next_alloc_files _ _ _ Hn).
Qed.

Lemma extract_line_files buf pos w line buf' w' :
  gnl_extract_line buf pos w = (line, buf', w') -> w_files w' = w_files w.
Proof.
  unfold gnl_extract_line, malloc. intros H.
  destruct (next_alloc w) as [[junk|] w1] eqn:Hn;
    injection H as <- <- <-; exact (next_alloc_files _ _ _ Hn).
Qed.

Lemma fill_buffer_frame cfg fuel fd buf w r buf' w' :
  gnl_fill_buffer cfg fuel fd buf w = Some (r, buf', w') ->
  forall fd', fd' <> fd -> w_files w' !! fd' = w_files w !! fd'.
Proof.
  unfold gnl_fill_buffer. intros H fd' Hne.
  destruct (gnl_ensure_capacity fuel buf (to_size (GNL_BUFFER_SIZE cfg)) w)
    as [[[r1 buf1] w1]|] eqn:He; [|discriminate].
  pose proof (ensure_capacity_files _ _ _ _ _ _ _ He) as Hf1.
  destruct (r1 <? 0).
  - injection H as <- <- <-. rewrite Hf1. reflexivity.
  - destruct (sys_read fd (to_size (GNL_BUFFER_SIZE cfg)) w1)
      as [[rd got] w2] eqn:Hr.
    pose proof (sys_read_frame _ _ _ _ _ _ Hr fd' Hne) as Hf2.
    destruct (rd <? 0); injection H as <- <- <-; rewrite Hf2, Hf1; reflexivity.
Qed.

Lemma read_loop_frame cfg fd d fuel : forall buf w ret line buf' w',
  gnl_read_loop cfg fuel fd d buf w = Some (ret, line, buf', w') ->
  forall fd', fd' <> fd -> w_files w' !! fd' = w_files w !! fd'.
Proof.
  induction fuel as [|fuel IH]; intros buf w ret line buf' w' H fd' Hne;
    [discriminate|].
  cbn [gnl_read_loop] in H.
  destruct (0 <=? gnl_find_delim buf d).
  - destruct (gnl_extract_line buf (to_size (gnl_find_delim buf d)) w)
      as [[l b] w1] eqn:Hx.
    injection H as <- <- <- <-. rewrite (extract_line_files _ _ _ _ _ _ Hx).
    reflexivity.
  - destruct (negb (eof_reached buf =? 0)).
    + destruct (0 <? len buf).
      * destruct (gnl_extract_line buf (usub (len buf) 1) w)
          as [[l b] w1] eqn:Hx.
        injection H as <- <- <- <-. rewrite (extract_line_files _ _ _ _ _ _ Hx).
        reflexivity.
      * injection H as <- <- <- <-. reflexivity.
    + destruct (gnl_fill_buffer cfg fuel fd buf w) as [[[r b] w1]|] eqn:Hf;
        [|discriminate].
      pose proof (fill_buffer_frame _ _ _ _ _ _ _ _ Hf fd' Hne) as Hf1.
      destruct (r <? 0).
      * injection H as <- <- <- <-. exact Hf1.
      * rewrite <- Hf1. exact (IH _ _ _ _ _ _ H fd' Hne).
Qed.

(** A call reads no other descriptor. *)
Lemma call_files_frame cfg fuel fd line d m ret line' m' :
  get_next_line_delim cfg fuel fd line d m = Some (ret, line', m') ->
  forall fd', fd' <> fd -> w_files (os m') !! fd' = w_files (os m) !! fd'.
Proof.
  unfold get_next_line_delim, gnl_get_buffer, calloc_buffer, malloc.
  intros H fd' Hne.
  destruct line as [old|]; [|injection H as <- <- <-; reflexivity].
  destruct ((fd <? 0) || (GNL_MAX_FD cfg <=? fd));
    [injection H as <- <- <-; reflexivity|].
  destruct (g_buffers m !! fd) as [buf|] eqn:Hg.
  - destruct (gnl_read_loop cfg fuel fd d buf (os m)) as [[[[r l] b] w1]|] eqn:Hl;
      [|discriminate].
    injection H as <- <- <-. cbn.
    exact (read_loop_frame _ _ _ _ _ _ _ _ _ _ Hl fd' Hne).
  - destruct (next_alloc (os m)) as [[j1|] w1] eqn:Hn1.
    + pose proof (next_alloc_files _ _ _ Hn1) as Hf1.
      destruct (next_alloc w1) as [[j2|] w2] eqn:Hn2.
      * pose proof (next_alloc_files _ _ _ Hn2) as Hf2. cbn [g_buffers os] in H.
        match type of H with
        | context [gnl_read_loop cfg fuel fd d ?b ?w] =>
            destruct (gnl_read_loop cfg fuel fd d b w) as [[[[r l] b'] w3]|] eqn:Hl;
              [|discriminate]
        end.
        injection H as <- <- <-. cbn.
        rewrite (read_loop_frame _ _ _ _ _ _ _ _ _ _ Hl fd' Hne), Hf2, Hf1.
        reflexivity.
      * pose proof (next_alloc_files _ _ _ Hn2) as Hf2.
        injection H as <- <- <-. cbn. rewrite Hf2, Hf1. reflexivity.
    + injection H as <- <- <-. cbn.
      rewrite (next_alloc_files _ _ _ Hn1). reflexivity.
Qed.

Lemma wf_machine_frame cfg fd m m' :
  g_buffers m' !! fd = g_buffers m !! fd ->
  w_files (os m') !! fd = w_files (os m) !! fd ->
  pending fd m' = pending fd m /\
  call_fuel cfg fd m' = call_fuel cfg fd m /\
  (wf_machine cfg fd m -> wf_machine cfg fd m').
Proof.
  intros Hg Hf.
  assert (Hu : unread fd (os m') = unread fd (os m)) by (unfold unread; rewrite Hf; reflexivity).
  assert (HP : pending fd m' = pending fd m).
  { unfold pending, buffered. rewrite Hg, Hu. reflexivity. }
  split; [exact HP|]. split; [unfold call_fuel; rewrite HP, Hu; reflexivity|].
  unfold wf_machine. rewrite HP, Hg, Hf, Hu. auto.
Qed.

(** ** Independent handles *)

Lemma segments_cons o outs : segments (o :: outs) = segments [o] ++ segments outs.
Proof.
  destruct o as [ret [[block|]|]]; cbn [segments]; try reflexivity.
  destruct (ret =? GNL_LINE_READ); reflexivity.
Qed.

(** The effect of one call on [fd0], seen from any readable descriptor. *)
Lemma call_seen_from cfg fuel d fd0 m :
  wf_machine cfg fd0 m ->
  (call_fuel cfg fd0 m <= fuel)%nat ->
  exists ret line m',
    get_next_line_delim cfg fuel fd0 (Some None) d m = Some (ret, Some line, m') /\
    forall fd,
      wf_machine cfg fd m -> (call_fuel cfg fd m <= fuel)%nat ->
      wf_machine cfg fd m' /\ (call_fuel cfg fd m' <= fuel)%nat /\
      split_segments d (pending fd m) =
        segments (outcomes_for fd [(fd0, (ret, Some line))]) ++
        split_segments d (pending fd m').
Proof.
  intros Hwf0 Hfuel0.
  destruct (call_spec cfg fd0 d None m fuel Hwf0 Hfuel0)
    as (ret & line & m' & Hcall & Hwf' & Hfuel' & Hcase).
  exists ret, line, m'. split; [exact Hcall|]. intros fd Hwf Hfuel.
  cbn [outcomes_for]. destruct (Z.eqb_spec fd0 fd) as [<-|Hne].
  - split; [exact Hwf'|]. split; [lia|].
    destruct Hcase as [(-> & Hnil & seg & -> & Hcut & _)
                      |[(-> & -> & Hp & Hp' & _)|(-> & -> & Hp & _)]].
    + cbn [segments]. change (GNL_LINE_READ =? GNL_LINE_READ) with true.
      cbn match. rewrite segment_line. cbn [app].
      apply split_segments_cut; assumption.
    + rewrite Hp, Hp'. reflexivity.
    + rewrite Hp. reflexivity.
  - destruct (wf_machine_frame cfg fd m m') as (HP & HF & Hkeep).
    { apply (call_frame _ _ _ _ _ _ _ _ _ Hcall). congruence. }
    { apply (call_files_frame _ _ _ _ _ _ _ _ _ Hcall). congruence. }
    split; [exact (Hkeep Hwf)|]. split; [lia|]. rewrite HP. reflexivity.
Qed.

(** X1.  Handles are independent: whatever the order in which several
    descriptors are read, every call returns, and the segments returned for
    a descriptor are the first segments of its own pending bytes, the rest
    of which is still pending for it afterwards.  So each descriptor gets
    the segments it would get if it were read alone. *)
Theorem handles_are_independent cfg fuel d sched : forall m,
  Forall (fun fd => wf_machine cfg fd m /\ (call_fuel cfg fd m <= fuel)%nat)
    sched ->
  exists outs m',
    interleave cfg fuel d sched m = Some (outs, m') /\
    forall fd,
      wf_machine cfg fd m -> (call_fuel cfg fd m <= fuel)%nat ->
      wf_machine cfg fd m' /\ (call_fuel cfg fd m' <= fuel)%nat /\
      split_segments d (pending fd m) =
        segments (outcomes_for fd outs) ++ split_segments d (pending fd m').
Proof.
  induction sched as [|fd0 sched IH]; intros m Hs.
  - exists [], m. split; [reflexivity|]. intros fd Hwf Hfuel. auto.
  - apply Forall_cons in Hs. destruct Hs as [[Hwf0 Hfuel0] Hs].
    destruct (call_seen_from cfg fuel d fd0 m Hwf0 Hfuel0)
      as (ret & line & m1 & Hcall & Hstep).
    destruct (IH m1) as (outs & m2 & Hrun & Hrest).
    { eapply Forall_impl; [exact Hs|]. intros fd [Hwf Hfuel]. cbn.
      destruct (Hstep fd Hwf Hfuel) as (? & ? & _). auto. }
    cbn [interleave]. rewrite Hcall, Hrun.
    eexists _, m2. split; [reflexivity|]. intros fd Hwf Hfuel.
    destruct (Hstep fd Hwf Hfuel) as (Hwf1 & Hfuel1 & Hsplit1).
    destruct (Hrest fd Hwf1 Hfuel1) as (Hwf2 & Hfuel2 & Hsplit2).
    split; [exact Hwf2|]. split; [exact Hfuel2|].
    rewrite Hsplit1, Hsplit2, app_assoc. f_equal.
    cbn [outcomes_for]. destruct (fd0 =? fd); [|reflexivity].
    rewrite (segments_cons _ (outcomes_for fd outs)). reflexivity.
Qed.

Lemma handles_are_independent_witness :
  let cfg := {| GNL_BUFFER_SIZE := 2; GNL_MAX_FD := 8;
                GNL_DEFAULT_DELIM := x0a |} in
  let f3 := {| f_bytes := list_byte_of_string "a,b"; f_script := [] |} in
  let f4 := {| f_bytes := list_byte_of_string "x,,"; f_script := [ReadFail] |} in
  let m := {| g_buffers := ∅;
              os := {| w_files := <[3 := f3]> {[ 4 := f4 ]};
                       w_allocs := [] |} |} in
  exists outs m',
    interleave cfg 20 "," [3; 4; 4; 3; 4] m = Some (outs, m') /\
    forall fd,
      wf_machine cfg fd m -> (call_fuel cfg fd m <= 20)%nat ->
      wf_machine cfg fd m' /\ (call_fuel cfg fd m' <= 20)%nat /\
      split_segments "," (pending fd m) =
        segments (outcomes_for fd outs) ++ split_segments "," (pending fd m').
Proof.
  intros cfg f3 f4 m.
  apply (handles_are_independent cfg 20 "," [3; 4; 4; 3; 4] m).
  assert (H3 : wf_machine cfg 3 m /\ (call_fuel cfg 3 m <= 20)%nat).
  { split; [apply (fresh_wf cfg 3 m f3); concrete_handle|vm_compute; lia]. }
  assert (H4 : wf_machine cfg 4 m /\ (call_fuel cfg 4 m <= 20)%nat).
  { split; [apply (fresh_wf cfg 4 m f4); concrete_handle|vm_compute; lia]. }
  repeat (apply Forall_cons_2; [first [exact H3 | exact H4]|]).
  apply Forall_nil_2.
Defined.

(** ** Searching the buffer *)

Lemma first_match_unique (l : list byte) d p q :
  l !! p = Some d -> d ∉ take p l ->
  l !! q = Some d -> d ∉ take q l -> p = q.
Proof.
  intros Hp Hnp Hq Hnq.
  destruct (Nat.lt_trichotomy p q) as [Hlt|[Heq|Hlt]]; [|exact Heq|].
  - exfalso. apply Hnq. apply list_elem_of_lookup. exists p.
    rewrite lookup_take_lt by lia. exact Hp.
  - exfalso. apply Hnp. apply list_elem_of_lookup. exists q.
    rewrite lookup_take_lt by lia. exact Hq.
Qed.

(** X2.  [gnl_find_delim] returns [-1] exactly when the delimiter does not
    occur among the [len] valid bytes; otherwise it returns the offset of
    its first occurrence there.  Its result depends on the valid bytes only:
    whatever lies in the scratch space behind [len] is never matched. *)
Theorem find_delim_first_match buf d :
  wf_buf buf -> len buf <= 2 ^ 63 ->
  (gnl_find_delim buf d = -1 <-> d ∉ valid buf) /\
  (gnl_find_delim buf d <> -1 ->
   0 <= gnl_find_delim buf d < len buf /\
   data buf !! Z.to_nat (gnl_find_delim buf d) = Some d /\
   d ∉ take (Z.to_nat (gnl_find_delim buf d)) (data buf)) /\
  (forall buf2, wf_buf buf2 -> len buf2 <= 2 ^ 63 ->
     valid buf2 = valid buf ->
     gnl_find_delim buf2 d = gnl_find_delim buf d).
Proof.
  intros Hwf Hr.
  assert (Hfound : forall b (p : nat),
    Z.of_nat p < len b -> valid b !! p = Some d -> d ∈ valid b).
  { intros b p _ Hlk. apply list_elem_of_lookup. eauto. }
  destruct (find_delim_cases buf d Hwf Hr)
    as [[Hf Hnot]|(p & Hf & Hp & Hlk & Hnot)].
  - split; [split; auto|]. split; [congruence|].
    intros buf2 Hwf2 Hr2 Hv.
    destruct (find_delim_cases buf2 d Hwf2 Hr2)
      as [[Hf2 _]|(p2 & _ & Hp2 & Hlk2 & _)]; [congruence|].
    exfalso. apply Hnot. rewrite <- Hv. eapply Hfound; eassumption.
  - split.
    { split; [lia|]. intros Hn. exfalso. apply Hn. eapply Hfound; eassumption. }
    split.
    { intros _. rewrite Hf, Nat2Z.id. split; [lia|].
      unfold valid in Hlk, Hnot. rewrite lookup_take_lt in Hlk by lia.
      rewrite take_take in Hnot.
      replace (Nat.min p (Z.to_nat (len buf))) with p in Hnot by lia. auto. }
    intros buf2 Hwf2 Hr2 Hv.
    destruct (find_delim_cases buf2 d Hwf2 Hr2)
      as [[_ Hnot2]|(p2 & Hf2 & Hp2 & Hlk2 & Hnot2)].
    + exfalso. apply Hnot2. rewrite Hv. eapply Hfound; eassumption.
    + rewrite Hv in Hlk2, Hnot2.
      rewrite Hf, Hf2, (first_match_unique _ _ _ _ Hlk2 Hnot2 Hlk Hnot).
      reflexivity.
Qed.

Lemma find_delim_first_match_witness :
  let buf := {| data := list_byte_of_string "ab;cd;;;"; size := 8; len := 5;
                eof_reached := 0 |} in
  (gnl_find_delim buf ";" = -1 <-> ";"%byte ∉ valid buf) /\
  (gnl_find_delim buf ";" <> -1 ->
   0 <= gnl_find_delim buf ";" < len buf /\
   data buf !! Z.to_nat (gnl_find_delim buf ";") = Some ";"%byte /\
   ";"%byte ∉ take (Z.to_nat (gnl_find_delim buf ";")) (data buf)) /\
  (forall buf2, wf_buf buf2 -> len buf2 <= 2 ^ 63 ->
     valid buf2 = valid buf ->
     gnl_find_delim buf2 ";" = gnl_find_delim buf ";").
Proof.
  intros buf. apply (find_delim_first_match buf ";").
  - unfold wf_buf. repeat split; first [reflexivity | simpl; lia | vm_compute; congruence].
  - simpl. lia.
Defined.

(** ** Creating and releasing buffers *)

(** X3.  [gnl_get_buffer] is a get-or-create: a buffer it hands out is
    registered under [fd], and asking again returns the same buffer and
    changes nothing (no allocation).  A newly created buffer is empty, with
    room for one chunk.  When it fails, the registry is exactly as before
    (no half-built entry) and the allocator has refused a request.  Other
    descriptors and the open files are never touched. *)
Theorem get_buffer_get_or_create cfg fd m ob m1 :
  gnl_get_buffer cfg fd m = (ob, m1) ->
  (forall buf, ob = Some buf ->
     g_buffers m1 !! fd = Some buf /\
     gnl_get_buffer cfg fd m1 = (Some buf, m1) /\
     (g_buffers m !! fd = None ->
      len buf = 0 /\ eof_reached buf = 0 /\
      size buf = to_size (GNL_BUFFER_SIZE cfg) /\
      length (data buf) = Z.to_nat (size buf))) /\
  (ob = None ->
   g_buffers m !! fd = None /\ g_buffers m1 = g_buffers m /\
   S (alloc_failures (w_allocs (os m1))) = alloc_failures (w_allocs (os m))) /\
  (forall fd', fd' <> fd -> g_buffers m1 !! fd' = g_buffers m !! fd') /\
  w_files (os m1) = w_files (os m).
Proof.
  unfold gnl_get_buffer at 1. unfold calloc_buffer, malloc. intros H.
  destruct (g_buffers m !! fd) as [buf|] eqn:Hg.
  - injection H as <- <-. split.
    { intros b Hb. injection Hb as <-. split; [exact Hg|].
      split; [unfold gnl_get_buffer; rewrite Hg; reflexivity|congruence]. }
    split; [discriminate|]. auto.
  - destruct (next_alloc_cases (os m))
      as [(j1 & w1 & Hn1 & Hf1 & Ha1)|(w1 & Hn1 & Hf1 & Ha1)];
      rewrite Hn1 in H.
    + destruct (next_alloc_cases w1)
        as [(j2 & w2 & Hn2 & Hf2 & Ha2)|(w2 & Hn2 & Hf2 & Ha2)];
        rewrite Hn2 in H; injection H as <- <-; cbn [g_buffers os].
      * split.
        { intros b Hb. injection Hb as <-.
          split; [apply lookup_insert_eq|]. split.
          - unfold gnl_get_buffer. cbn [g_buffers]. rewrite lookup_insert_eq.
            reflexivity.
          - intros _. cbn. rewrite length_replicate. auto. }
        split; [discriminate|].
        split; [intros fd' Hne; apply lookup_insert_ne; congruence|congruence].
      * split; [discriminate|]. split; [intros _; split; [reflexivity|]; split; [reflexivity|]; congruence|].
        split; [reflexivity|congruence].
    + injection H as <- <-. cbn [g_buffers os].
      split; [discriminate|]. split; [auto|]. auto.
Qed.

Lemma get_buffer_get_or_create_witness :
  let cfg := {| GNL_BUFFER_SIZE := 4; GNL_MAX_FD := 8;
                GNL_DEFAULT_DELIM := x0a |} in
  let m := fresh_machine 3 (list_byte_of_string "ab") [] [AllocOk x2e] in
  let buf := {| data := [x00; x00; x00; x00]; size := 4; len := 0;
                eof_reached := 0 |} in
  let m1 := {| g_buffers := {[ 3 := buf ]};
               os := {| w_files := w_files (os m); w_allocs := [] |} |} in
  (forall b, Some buf = Some b ->
     g_buffers m1 !! 3 = Some b /\
     gnl_get_buffer cfg 3 m1 = (Some b, m1) /\
     (g_buffers m !! 3 = None ->
      len b = 0 /\ eof_reached b = 0 /\
      size b = to_size (GNL_BUFFER_SIZE cfg) /\
      length (data b) = Z.to_nat (size b))) /\
  (Some buf = None ->
   g_buffers m !! 3 = None /\ g_buffers m1 = g_buffers m /\
   S (alloc_failures (w_allocs (os m1))) = alloc_failures (w_allocs (os m))) /\
  (forall fd', fd' <> 3 -> g_buffers m1 !! fd' = g_buffers m !! fd') /\
  w_files (os m1) = w_files (os m).
Proof.
  intros cfg m buf m1.
  apply (get_buffer_get_or_create cfg 3 m (Some buf) m1).
  vm_compute. reflexivity.
Defined.

Lemma close_lookup cfg fd0 m fd :
  g_buffers (gnl_close cfg fd0 m) !! fd =
    (if decide (fd = fd0 /\ 0 <= fd0 < GNL_MAX_FD cfg) then None
     else g_buffers m !! fd) /\
  os (gnl_close cfg fd0 m) = os m.
Proof.
  unfold gnl_close.
  destruct (Z.ltb_spec fd0 0); cbn [orb].
  { case_decide; [lia|auto]. }
  destruct (Z.leb_spec (GNL_MAX_FD cfg) fd0); cbn [orb].
  { case_decide; [lia|auto]. }
  destruct (g_buffers m !! fd0) as [buf|] eqn:Hg; cbn [g_buffers os].
  - split; [|reflexivity]. case_decide as Hd.
    + destruct Hd as [-> _]. apply lookup_delete_eq.
    + apply lookup_delete_ne. intros ->. apply Hd. split; [reflexivity|lia].
  - split; [|reflexivity]. case_decide as Hd; [|reflexivity].
    destruct Hd as [-> _]. exact Hg.
Qed.

Lemma cleanup_loop_lookup cfg : forall n i m fd,
  0 <= i ->
  g_buffers (gnl_cleanup_loop cfg n i m) !! fd =
    (if decide (i <= fd < i + Z.of_nat n /\ fd < GNL_MAX_FD cfg) then None
     else g_buffers m !! fd) /\
  os (gnl_cleanup_loop cfg n i m) = os m.
Proof.
  induction n as [|n IH]; intros i m fd Hi; cbn [gnl_cleanup_loop].
  - split; [|reflexivity]. case_decide; [lia|reflexivity].
  - destruct (IH (i + 1) (gnl_close cfg i m) fd) as [Hg Ho]; [lia|].
    destruct (close_lookup cfg i m fd) as [Hc Hoc].
    rewrite Hg, Ho, Hc, Hoc. split; [|reflexivity].
    repeat case_decide; try reflexivity; lia.
Qed.

Lemma machine_eq (m1 m2 : machine) :
  g_buffers m1 = g_buffers m2 -> os m1 = os m2 -> m1 = m2.
Proof. destruct m1, m2. cbn. intros -> ->. reflexivity. Qed.

(** X4.  [gnl_cleanup_all] releases every descriptor of the range
    [0, GNL_MAX_FD): afterwards none of them has a buffer, so a registry
    whose entries all lie in the range becomes empty.  Nothing outside the
    range and nothing of the environment is touched; a second cleanup, or a
    [gnl_close] after it, changes nothing. *)
Theorem cleanup_all_clears cfg m :
  (forall fd, 0 <= fd < GNL_MAX_FD cfg ->
     g_buffers (gnl_cleanup_all cfg m) !! fd = None) /\
  (forall fd, ~ 0 <= fd < GNL_MAX_FD cfg ->
     g_buffers (gnl_cleanup_all cfg m) !! fd = g_buffers m !! fd) /\
  os (gnl_cleanup_all cfg m) = os m /\
  ((forall fd, is_Some (g_buffers m !! fd) -> 0 <= fd < GNL_MAX_FD cfg) ->
   g_buffers (gnl_cleanup_all cfg m) = ∅) /\
  gnl_cleanup_all cfg (gnl_cleanup_all cfg m) = gnl_cleanup_all cfg m /\
  (forall fd, gnl_close cfg fd (gnl_cleanup_all cfg m) = gnl_cleanup_all cfg m).
Proof.
  assert (Hlk : forall m0 fd,
    g_buffers (gnl_cleanup_all cfg m0) !! fd =
      (if decide (0 <= fd < GNL_MAX_FD cfg) then None else g_buffers m0 !! fd) /\
    os (gnl_cleanup_all cfg m0) = os m0).
  { intros m0 fd. unfold gnl_cleanup_all.
    destruct (cleanup_loop_lookup cfg (Z.to_nat (GNL_MAX_FD cfg)) 0 m0 fd)
      as [Hg Ho]; [lia|].
    rewrite Hg, Ho. split; [|reflexivity]. repeat case_decide; try reflexivity; lia. }
  split; [intros fd Hfd; rewrite (proj1 (Hlk m fd)); case_decide; [reflexivity|contradiction]|].
  split; [intros fd Hfd; rewrite (proj1 (Hlk m fd)); case_decide; [contradiction|reflexivity]|].
  split; [exact (proj2 (Hlk m 0))|].
  split.
  { intros Hdom. apply map_eq. intros fd. rewrite lookup_empty, (proj1 (Hlk m fd)).
    case_decide as Hd; [reflexivity|].
    destruct (g_buffers m !! fd) eqn:E; [|reflexivity].
    exfalso. apply Hd, Hdom. rewrite E. eauto. }
  split.
  - apply machine_eq.
    + apply map_eq. intros fd. rewrite (proj1 (Hlk _ fd)), (proj1 (Hlk m fd)).
      case_decide; reflexivity.
    + rewrite (proj2 (Hlk _ 0)). reflexivity.
  - intros fd. apply machine_eq.
    + apply map_eq. intros k.
      rewrite (proj1 (close_lookup cfg fd _ k)), (proj1 (Hlk m k)).
      repeat case_decide; try reflexivity. lia.
    + apply (close_lookup cfg fd _ 0).
Qed.

(** ** After the end of the stream *)

Lemma find_delim_empty buf d : len buf <= 0 -> gnl_find_delim buf d = -1.
Proof.
  intros Hl. unfold gnl_find_delim.
  destruct (len buf =? 0); [reflexivity|].
  replace (Z.to_nat (len buf)) with O by lia.
  destruct (data buf); reflexivity.
Qed.

Lemma read_loop_eof_state cfg fd d fuel : forall buf w line buf' w',
  gnl_read_loop cfg fuel fd d buf w = Some (GNL_EOF, line, buf', w') ->
  line = None /\ eof_reached buf' <> 0 /\ len buf' <= 0.
Proof.
  induction fuel as [|fuel IH]; intros buf w line buf' w' H; [discriminate|].
  cbn [gnl_read_loop] in H.
  assert (Hx : forall l b w1,
    Some (line_status l, l, b, w1) = Some (GNL_EOF, line, buf', w') -> False).
  { intros l b w1 E. destruct l; discriminate. }
  destruct (0 <=? gnl_find_delim buf d).
  - destruct (gnl_extract_line buf (to_size (gnl_find_delim buf d)) w)
      as [[l b] w1]. destruct (Hx _ _ _ H).
  - destruct (Z.eqb_spec (eof_reached buf) 0) as [He|He]; cbn [negb] in H.
    + destruct (gnl_fill_buffer cfg fuel fd buf w) as [[[r b] w1]|]; [|discriminate].
      destruct (r <? 0); [discriminate|]. exact (IH _ _ _ _ _ H).
    + destruct (Z.ltb_spec 0 (len buf)).
      * destruct (gnl_extract_line buf (usub (len buf) 1) w) as [[l b] w1].
        destruct (Hx _ _ _ H).
      * injection H as <- <- <-. auto.
Qed.

(** X5.  The end of the stream is final: once a call has returned
    [GNL_EOF] for a descriptor, every later call on it (with any delimiter)
    returns [GNL_EOF] with a null line and leaves the whole machine as it
    is; in particular it reads nothing and allocates nothing. *)
Theorem eof_is_final cfg fuel fd d old m line m' :
  get_next_line_delim cfg fuel fd (Some old) d m = Some (GNL_EOF, line, m') ->
  forall fuel' old' d',
    (0 < fuel')%nat ->
    get_next_line_delim cfg fuel' fd (Some old') d' m'
      = Some (GNL_EOF, Some None, m').
Proof.
  unfold get_next_line_delim at 1. intros H fuel' old' d' Hfuel.
  destruct ((fd <? 0) || (GNL_MAX_FD cfg <=? fd)) eqn:Hrange; [discriminate|].
  destruct (gnl_get_buffer cfg fd m) as [[buf|] m1]; [|discriminate].
  destruct (gnl_read_loop cfg fuel fd d buf (os m1)) as [[[[r l] b] w1]|] eqn:Hl;
    [|discriminate].
  injection H as -> <- <-.
  destruct (read_loop_eof_state _ _ _ _ _ _ _ _ _ Hl) as (-> & He & Hlen).
  unfold get_next_line_delim, gnl_get_buffer. rewrite Hrange.
  cbn [g_buffers os]. rewrite lookup_insert_eq.
  destruct fuel' as [|fuel']; [lia|]. cbn [gnl_read_loop].
  rewrite (find_delim_empty b d' Hlen). change (0 <=? -1) with false. cbn match.
  destruct (Z.eqb_spec (eof_reached b) 0); [contradiction|]. cbn [negb].
  destruct (Z.ltb_spec 0 (len b)); [lia|].
  cbn [g_buffers os]. rewrite insert_insert_eq. reflexivity.
Qed.

Lemma eof_is_final_witness :
  let m := fresh_machine 3 [] [] [] in
  let buf := {| data := replicate 4096 x00; size := 4096; len := 0;
                eof_reached := 1 |} in
  let m' := {| g_buffers := {[ 3 := buf ]}; os := os m |} in
  get_next_line_delim default_config 1 3 (Some (Some [x61; x00])) "," m'
    = Some (GNL_EOF, Some None, m').
Proof.
  intros m buf m'.
  apply (eof_is_final default_config 3 3 x0a None m (Some None) m').
  - vm_compute. reflexivity.
  - lia.
Defined.

(** ** What one call accounts for *)

(** X6.  On any readable handle, fresh or not, a call returns and accounts
    for the pending bytes: [GNL_LINE_READ] hands out a non-empty prefix of
    them and leaves the rest pending; [GNL_EOF] is returned only when
    nothing is pending; [GNL_ERROR] changes nothing pending and occurs only
    when the environment has an allocation or read failure in store.  So
    without failures the call returns a line exactly when bytes are
    pending, and [GNL_EOF] on an empty stream. *)
Theorem call_accounts_for_bytes cfg fd d old m fuel :
  wf_machine cfg fd m ->
  (call_fuel cfg fd m <= fuel)%nat ->
  exists ret line m',
    get_next_line_delim cfg fuel fd (Some old) d m = Some (ret, Some line, m') /\
    (ret = GNL_LINE_READ ->
     exists seg, line = Some (seg ++ [x00]) /\ seg <> [] /\
       pending fd m = seg ++ pending fd m') /\
    (ret = GNL_EOF -> line = None /\ pending fd m = [] /\ pending fd m' = []) /\
    (ret = GNL_ERROR ->
     line = None /\ pending fd m' = pending fd m /\
     (0 < failures fd (os m))%nat) /\
    (failures fd (os m) = O ->
     (pending fd m <> [] -> ret = GNL_LINE_READ) /\
     (pending fd m = [] -> ret = GNL_EOF)).
Proof.
  intros Hwf Hfuel.
  destruct (call_spec cfg fd d old m fuel Hwf Hfuel)
    as (ret & line & m' & Hcall & _ & _ & Hcase).
  exists ret, line, m'. split; [exact Hcall|].
  destruct Hcase as [(-> & Hne & seg & -> & Hcut & _)
                    |[(-> & -> & Hp & Hp' & _)|(-> & -> & Hp & HF)]].
  - split.
    { intros _. exists seg. split; [reflexivity|].
      split; [exact (cut_segment_nonempty _ _ _ _ Hne Hcut)|].
      exact (cut_segment_app _ _ _ _ Hcut). }
    split; [discriminate|]. split; [discriminate|].
    intros _. split; [reflexivity|contradiction].
  - split; [discriminate|]. split; [auto|]. split; [discriminate|].
    intros _. split; [contradiction|reflexivity].
  - split; [discriminate|]. split; [discriminate|].
    split; [intros _; split; [reflexivity|split; [exact Hp|lia]]|].
    intros H0. lia.
Qed.

Lemma call_accounts_for_bytes_witness :
  let cfg := default_config in
  let m := fresh_machine 3 [] [] [] in
  exists ret line m',
    get_next_line_delim cfg 5000 3 (Some None) x0a m = Some (ret, Some line, m') /\
    (ret = GNL_LINE_READ ->
     exists seg, line = Some (seg ++ [x00]) /\ seg <> [] /\
       pending 3 m = seg ++ pending 3 m') /\
    (ret = GNL_EOF -> line = None /\ pending 3 m = [] /\ pending 3 m' = []) /\
    (ret = GNL_ERROR ->
     line = None /\ pending 3 m' = pending 3 m /\
     (0 < failures 3 (os m))%nat) /\
    (failures 3 (os m) = O ->
     (pending 3 m <> [] -> ret = GNL_LINE_READ) /\
     (pending 3 m = [] -> ret = GNL_EOF)).
Proof.
  intros cfg m.
  apply (call_accounts_for_bytes cfg 3 x0a None m 5000).
  - apply (fresh_wf cfg 3 m {| f_bytes := []; f_script := [] |}).
    concrete_handle.
  - vm_compute. lia.
Defined.

(** X7.  A line that is already buffered is returned without any [read]:
    when the delimiter occurs among the valid bytes, the call leaves every
    open file as it is (it works even on a descriptor that is not open),
    and either returns the buffered bytes through the first delimiter, or
    fails because [malloc] refused the line. *)
Theorem buffered_line_needs_no_read cfg fuel fd d old m buf :
  0 <= fd < GNL_MAX_FD cfg ->
  g_buffers m !! fd = Some buf ->
  wf_buf buf -> len buf <= 2 ^ 63 ->
  d ∈ valid buf ->
  (0 < fuel)%nat ->
  exists ret line m',
    get_next_line_delim cfg fuel fd (Some old) d m = Some (ret, Some line, m') /\
    w_files (os m') = w_files (os m) /\
    ((ret = GNL_LINE_READ /\
      exists seg, line = Some (seg ++ [x00]) /\ delimited d seg /\
        valid buf = seg ++ buffered fd m') \/
     (ret = GNL_ERROR /\ line = None /\ g_buffers m' = g_buffers m /\
      S (alloc_failures (w_allocs (os m'))) = alloc_failures (w_allocs (os m)))).
Proof.
  intros Hfd Hg Hwf Hr Hin Hfuel.
  unfold get_next_line_delim, gnl_get_buffer.
  destruct (Z.ltb_spec fd 0); [lia|].
  destruct (Z.leb_spec (GNL_MAX_FD cfg) fd); [lia|]. cbn [orb].
  rewrite Hg. destruct fuel as [|fuel]; [lia|]. cbn [gnl_read_loop].
  destruct (find_delim_cases buf d Hwf Hr)
    as [[_ Hnot]|(p & Hfind & Hp & Hlk & Hnot)]; [contradiction|].
  rewrite Hfind.
  destruct (Z.leb_spec 0 (Z.of_nat p)); [|lia].
  pose proof Hwf as (Hs & Hl & Hd).
  rewrite to_size_small by (pose proof size_modulus_eq; lia).
  destruct (extract_line_spec buf (Z.of_nat p) (os m) Hwf) as
    (line & buf' & w' & He & Hfiles & Hcase); [lia|exact Hr|].
  rewrite He. eexists _, _, _. split; [reflexivity|]. cbn [os g_buffers].
  split; [exact Hfiles|].
  replace (Z.to_nat (Z.of_nat p + 1)) with (S p) in Hcase by lia.
  destruct Hcase as [(-> & Hwf' & Hv' & _ & _ & _ & _)|(-> & -> & Ha)].
  - left. split; [reflexivity|]. eexists. split; [reflexivity|]. split.
    + exists (take p (valid buf)). split; [apply take_S_r; exact Hlk|exact Hnot].
    + unfold buffered. cbn. rewrite lookup_insert_eq, Hv'.
      symmetry. apply take_drop.
  - right. split; [reflexivity|]. split; [reflexivity|].
    split; [apply insert_id; exact Hg|exact Ha].
Qed.

Lemma buffered_line_needs_no_read_witness :
  let cfg := default_config in
  let buf := {| data := list_byte_of_string "ab,cd..."; size := 8; len := 5;
                eof_reached := 0 |} in
  let m := {| g_buffers := {[ 3 := buf ]};
              os := {| w_files := ∅; w_allocs := [] |} |} in
  exists ret line m',
    get_next_line_delim cfg 1 3 (Some None) "," m = Some (ret, Some line, m') /\
    w_files (os m') = w_files (os m) /\
    ((ret = GNL_LINE_READ /\
      exists seg, line = Some (seg ++ [x00]) /\ delimited "," seg /\
        valid buf = seg ++ buffered 3 m') \/
     (ret = GNL_ERROR /\ line = None /\ g_buffers m' = g_buffers m /\
      S (alloc_failures (w_allocs (os m'))) = alloc_failures (w_allocs (os m)))).
Proof.
  intros cfg buf m.
  apply (buffered_line_needs_no_read cfg 1 3 "," None m buf).
  - simpl. lia.
  - reflexivity.
  - unfold wf_buf. repeat split; first [reflexivity | simpl; lia | vm_compute; congruence].
  - simpl. lia.
  - vm_compute. do 2 apply list_elem_of_further. apply list_elem_of_here.
  - lia.
Defined.

(** ** Closing in the middle of a stream *)

(** X8.  [gnl_close] throws the buffered bytes away: after it the handle is
    as if never read, and reading it to the end returns only the bytes the
    stream had not delivered yet.  Bytes that were read ahead into the
    buffer and not yet returned are lost to the caller. *)
Theorem close_drops_buffered_bytes cfg fd d m f :
  wf_machine cfg fd m ->
  w_files (os m) !! fd = Some f ->
  fresh_handle cfg fd (gnl_close cfg fd m) f /\
  pending fd (gnl_close cfg fd m) = f_bytes f /\
  pending fd m = buffered fd m ++ f_bytes f /\
  exists bound,
    forall calls fuel, (bound <= calls)%nat -> (bound <= fuel)%nat ->
    exists outs m',
      read_to_eof cfg calls fuel fd d (gnl_close cfg fd m) = Some (outs, m') /\
      last outs = Some eof_outcome /\
      concat (segments outs) = f_bytes f.
Proof.
  intros (Hfd & Hbs & _ & _ & Hsum) Hf.
  destruct (close_lookup cfg fd m fd) as [Hg Ho].
  assert (HP : pending fd m = buffered fd m ++ f_bytes f).
  { unfold pending, unread. rewrite Hf. reflexivity. }
  assert (Hfresh : fresh_handle cfg fd (gnl_close cfg fd m) f).
  { unfold fresh_handle. split; [exact Hfd|]. split; [exact Hbs|].
    split; [rewrite Hg; case_decide as Hd; [reflexivity|]; exfalso; apply Hd; auto|].
    split; [rewrite Ho; exact Hf|].
    rewrite HP, length_app in Hsum. lia. }
  split; [exact Hfresh|].
  split; [exact (proj2 (fresh_wf _ _ _ _ Hfresh))|]. split; [exact HP|].
  exists (run_bound cfg fd (gnl_close cfg fd m)). intros calls fuel Hc Hfu.
  destruct (fresh_run cfg fd d _ f Hfresh calls fuel Hc Hfu) as (outs & m' & Hrun & Hof).
  exists outs, m'. split; [exact Hrun|].
  split; [exact (run_of_last _ _ _ _ Hof)|].
  rewrite (run_of_segments _ _ _ _ Hof). apply split_segments_concat.
Qed.

Lemma close_drops_buffered_bytes_witness :
  let cfg := {| GNL_BUFFER_SIZE := 4; GNL_MAX_FD := 8;
                GNL_DEFAULT_DELIM := x0a |} in
  let buf := {| data := list_byte_of_string "b,c,...."; size := 8; len := 4;
                eof_reached := 0 |} in
  let f := {| f_bytes := list_byte_of_string "d,e"; f_script := [] |} in
  let m := {| g_buffers := {[ 3 := buf ]};
              os := {| w_files := {[ 3 := f ]}; w_allocs := [] |} |} in
  fresh_handle cfg 3 (gnl_close cfg 3 m) f /\
  pending 3 (gnl_close cfg 3 m) = f_bytes f /\
  pending 3 m = buffered 3 m ++ f_bytes f /\
  exists bound,
    forall calls fuel, (bound <= calls)%nat -> (bound <= fuel)%nat ->
    exists outs m',
      read_to_eof cfg calls fuel 3 "," (gnl_close cfg 3 m) = Some (outs, m') /\
      last outs = Some eof_outcome /\
      concat (segments outs) = f_bytes f.
Proof.
  intros cfg buf f m.
  apply (close_drops_buffered_bytes cfg 3 "," m f).
  - unfold wf_machine. split; [simpl; lia|]. split; [reflexivity|].
    split; [exists f; reflexivity|]. split; [|vm_compute; congruence].
    intros b Hb. vm_compute in Hb. injection Hb as <-. split.
    + unfold wf_buf. repeat split; vm_compute; congruence.
    + intros H. exfalso. apply H. reflexivity.
  - reflexivity.
Defined.

(** ** The registry stays within its bounds *)

Lemma call_in_range_or_same cfg fuel fd line d m ret line' m' :
  get_next_line_delim cfg fuel fd line d m = Some (ret, line', m') ->
  0 <= fd < GNL_MAX_FD cfg \/ m' = m.
Proof.
  unfold get_next_line_delim. intros H.
  destruct line as [old|]; [|injection H as <- <- <-; auto].
  destruct (Z.ltb_spec fd 0); cbn [orb] in H; [injection H as <- <- <-; auto|].
  destruct (Z.leb_spec (GNL_MAX_FD cfg) fd); cbn [orb] in H;
    [injection H as <- <- <-; auto|].
  left. lia.
Qed.

(** X9.  The array [g_buffers] is never indexed outside
    [0, GNL_MAX_FD): if every entry of the registry lies in that range,
    so does every entry after any call of [get_next_line_delim], of
    [gnl_close] or of [gnl_cleanup_all], whatever descriptor (negative, too
    large) they are given. *)
Theorem registry_stays_in_range cfg m :
  (forall k, is_Some (g_buffers m !! k) -> 0 <= k < GNL_MAX_FD cfg) ->
  (forall fuel fd line d ret line' m',
     get_next_line_delim cfg fuel fd line d m = Some (ret, line', m') ->
     forall k, is_Some (g_buffers m' !! k) -> 0 <= k < GNL_MAX_FD cfg) /\
  (forall fd k, is_Some (g_buffers (gnl_close cfg fd m) !! k) ->
     0 <= k < GNL_MAX_FD cfg) /\
  (forall k, is_Some (g_buffers (gnl_cleanup_all cfg m) !! k) ->
     0 <= k < GNL_MAX_FD cfg).
Proof.
  intros Hdom. split; [|split].
  - intros fuel fd line d ret line' m' Hcall k Hk.
    destruct (call_in_range_or_same _ _ _ _ _ _ _ _ _ Hcall) as [Hfd| ->];
      [|exact (Hdom k Hk)].
    destruct (Z.eq_dec k fd) as [->|Hne]; [exact Hfd|].
    rewrite (call_frame _ _ _ _ _ _ _ _ _ Hcall k Hne) in Hk. exact (Hdom k Hk).
  - intros fd k Hk. rewrite (proj1 (close_lookup cfg fd m k)) in Hk.
    case_decide; [destruct Hk; discriminate|exact (Hdom k Hk)].
  - intros k Hk. unfold gnl_cleanup_all in Hk.
    rewrite (proj1 (cleanup_loop_lookup cfg _ 0 m k (Z.le_refl 0))) in Hk.
    case_decide; [destruct Hk; discriminate|exact (Hdom k Hk)].
Qed.

Lemma registry_stays_in_range_witness :
  let cfg := default_config in
  let m := fresh_machine 3 (list_byte_of_string "ab") [] [] in
  (forall fuel fd line d ret line' m',
     get_next_line_delim cfg fuel fd line d m = Some (ret, line', m') ->
     forall k, is_Some (g_buffers m' !! k) -> 0 <= k < GNL_MAX_FD cfg) /\
  (forall fd k, is_Some (g_buffers (gnl_close cfg fd m) !! k) ->
     0 <= k < GNL_MAX_FD cfg) /\
  (forall k, is_Some (g_buffers (gnl_cleanup_all cfg m) !! k) ->
     0 <= k < GNL_MAX_FD cfg).
Proof.
  intros cfg m. apply (registry_stays_in_range cfg m).
  intros k Hk. simpl in Hk. rewrite lookup_empty in Hk.
  destruct Hk; discriminate.
Defined.

(** ** Geometric growth *)

(** X10.  [gnl_ensure_capacity] never shrinks a buffer, and when it grows
    one the new size is at least twice the old one and less than twice what
    is needed ([len + needed]); a buffer that already has the size of the
    request (as every buffer has for the chunk size) is doubled exactly
    once. *)
Theorem growth_is_geometric fuel buf needed w :
  wf_buf buf ->
  len buf + needed <= 2 ^ 63 ->
  (Z.to_nat (len buf + needed) <= fuel)%nat ->
  exists r buf' w',
    gnl_ensure_capacity fuel buf needed w = Some (r, buf', w') /\
    size buf <= size buf' /\
    (size buf' <> size buf ->
     r = 0 /\ size buf - len buf < needed /\
     2 * size buf <= size buf' < 2 * (len buf + needed) /\
     (needed <= size buf -> size buf' = 2 * size buf)).
Proof.
  intros Hwf Hsum Hfuel. pose proof Hwf as (Hs & Hl & Hd).
  destruct (ensure_capacity_cases fuel buf needed w Hwf Hsum Hfuel)
    as [[Hc Heq]|(Hlt & k & Hk & Hge & Hmod & Hmin & Heq)].
  - exists 0, buf, w. split; [exact Heq|]. split; [lia|]. congruence.
  - rewrite Heq. destruct (next_alloc w) as [[junk|] w'].
    + eexists _, _, _. split; [reflexivity|]. cbn [size].
      destruct k as [|k]; [lia|].
      assert (Hpow : 2 ^ Z.of_nat (S k) = 2 * 2 ^ Z.of_nat k).
      { rewrite Nat2Z.inj_succ, Z.pow_succ_r by lia. reflexivity. }
      assert (H1 : 1 <= 2 ^ Z.of_nat k) by (apply Z.pow_le_mono_r with (b := 0); lia).
      pose proof (Hmin k (Nat.lt_succ_diag_r k)) as Hprev.
      split; [nia|]. intros _. split; [reflexivity|]. split; [exact Hlt|].
      split; [nia|]. intros Hneed.
      destruct k as [|k]; [cbn; lia|]. exfalso.
      pose proof (Hmin 1%nat ltac:(lia)) as H2.
      change (2 ^ Z.of_nat 1) with 2 in H2. lia.
    + exists (-1), buf, w'. split; [reflexivity|]. split; [lia|]. congruence.
Qed.

Lemma growth_is_geometric_witness :
  let buf := {| data := list_byte_of_string "abcdefgh"; size := 8; len := 6;
                eof_reached := 0 |} in
  let w := {| w_files := ∅; w_allocs := [] |} in
  exists r buf' w',
    gnl_ensure_capacity 30 buf 8 w = Some (r, buf', w') /\
    size buf <= size buf' /\
    (size buf' <> size buf ->
     r = 0 /\ size buf - len buf < 8 /\
     2 * size buf <= size buf' < 2 * (len buf + 8) /\
     (8 <= size buf -> size buf' = 2 * size buf)).
Proof.
  intros buf w. apply (growth_is_geometric 30 buf 8 w).
  - unfold wf_buf. repeat split; first [reflexivity | simpl; lia | vm_compute; congruence].
  - simpl. lia.
  - simpl. lia.
Defined.

(** * The older reader (get_next_line_bonus.c) *)

Import Bonus.

(** ** Zero-terminated blocks *)

Lemma byte_eqb_neq (a b : byte) : a <> b -> Byte.eqb a b = false.
Proof.
  intros Hne. destruct (Byte.eqb a b) eqn:E; [|reflexivity].
  apply Byte.byte_dec_bl in E. contradiction.
Qed.

Lemma c_string_app s junk : x00 ∉ s -> c_string (s ++ x00 :: junk) = s.
Proof.
  induction s as [|b s IH]; intros Hs; [reflexivity|].
  apply not_elem_of_cons in Hs. destruct Hs as [Hb Hs]. cbn.
  rewrite byte_eqb_neq by congruence. rewrite IH by exact Hs. reflexivity.
Qed.

Lemma c_string_no_nul blk : x00 ∉ c_string blk.
Proof.
  induction blk as [|b blk IH]; cbn; [apply not_elem_of_nil|].
  destruct (Byte.eqb b x00) eqn:E; [apply not_elem_of_nil|].
  apply not_elem_of_cons. split; [|exact IH].
  intros <-. rewrite byte_eqb_refl in E. discriminate.
Qed.

Lemma c_string_split blk :
  x00 ∈ blk -> exists junk, blk = c_string blk ++ x00 :: junk.
Proof.
  induction blk as [|b blk IH]; intros Hin; [inversion Hin|]. cbn.
  destruct (Byte.eqb b x00) eqn:E.
  - apply Byte.byte_dec_bl in E. subst b. exists blk. reflexivity.
  - apply elem_of_cons in Hin. destruct Hin as [<-|Hin];
      [rewrite byte_eqb_refl in E; discriminate|].
    destruct (IH Hin) as [junk Hj]. exists junk. cbn. f_equal. exact Hj.
Qed.

Lemma c_string_id s : x00 ∉ s -> c_string s = s.
Proof.
  induction s as [|b s IH]; intros Hs; [reflexivity|].
  apply not_elem_of_cons in Hs. destruct Hs as [Hb Hs]. cbn.
  rewrite byte_eqb_neq by congruence. rewrite IH by exact Hs. reflexivity.
Qed.

Lemma char_at_content s junk (i : nat) c :
  s !! i = Some c -> char_at (s ++ x00 :: junk) (Z.of_nat i) = Some c.
Proof.
  intros H. unfold char_at. destruct (Z.ltb_spec (Z.of_nat i) 0); [lia|].
  rewrite Nat2Z.id. apply lookup_app_l_Some. exact H.
Qed.

Lemma char_at_end s junk :
  char_at (s ++ x00 :: junk) (Z.of_nat (length s)) = Some x00.
Proof.
  unfold char_at. destruct (Z.ltb_spec (Z.of_nat (length s)) 0); [lia|].
  rewrite Nat2Z.id. apply list_lookup_middle. reflexivity.
Qed.

Lemma content_not_nul (s : list byte) i c :
  x00 ∉ s -> s !! i = Some c -> Byte.eqb c x00 = false.
Proof.
  intros Hs Hc. apply byte_eqb_neq. intros ->. apply Hs.
  apply list_elem_of_lookup. eauto.
Qed.

Lemma char_at_outside str i :
  Z.of_nat (length str) <= i -> char_at str i = None.
Proof.
  intros H. unfold char_at. destruct (Z.ltb_spec i 0); [reflexivity|].
  apply lookup_ge_None. lia.
Qed.

(** ** ft_strlen *)

Lemma strlen_loop_spec s junk : forall fuel (x : nat),
  x00 ∉ s ->
  Z.of_nat (length s) < SIZE_MODULUS ->
  (x <= length s)%nat -> (length s - x < fuel)%nat ->
  strlen_loop fuel (s ++ x00 :: junk) (Z.of_nat x) = Some (Z.of_nat (length s)).
Proof.
  induction fuel as [|fuel IH]; intros x Hs Hr Hx Hfuel; [lia|].
  cbn [strlen_loop].
  destruct (Nat.eq_dec x (length s)) as [->|Hne].
  - rewrite char_at_end. cbn. reflexivity.
  - destruct (lookup_lt_is_Some_2 s x) as [c Hc]; [lia|].
    rewrite (char_at_content _ _ _ _ Hc). cbn.
    rewrite (content_not_nul _ _ _ Hs Hc).
    rewrite uadd_small by lia.
    replace (Z.of_nat x + 1) with (Z.of_nat (S x)) by lia.
    apply IH; [assumption|assumption|lia|lia].
Qed.

Lemma strlen_loop_none str : forall fuel (x : nat),
  x00 ∉ drop x str ->
  Z.of_nat (length str) < SIZE_MODULUS ->
  strlen_loop fuel str (Z.of_nat x) = None.
Proof.
  induction fuel as [|fuel IH]; intros x Hs Hr; [reflexivity|].
  cbn [strlen_loop]. destruct (le_lt_dec (length str) x) as [Hge|Hlt].
  - rewrite char_at_outside by lia. reflexivity.
  - destruct (lookup_lt_is_Some_2 str x) as [c Hc]; [lia|].
    unfold char_at. destruct (Z.ltb_spec (Z.of_nat x) 0); [lia|].
    rewrite Nat2Z.id, Hc. cbn.
    rewrite (drop_S _ _ _ Hc) in Hs. apply not_elem_of_cons in Hs.
    destruct Hs as [Hc0 Hs]. rewrite byte_eqb_neq by congruence.
    rewrite uadd_small by lia.
    replace (Z.of_nat x + 1) with (Z.of_nat (S x)) by lia.
    apply IH; assumption.
Qed.

Lemma ft_strlen_ok str :
  x00 ∈ str -> Z.of_nat (length str) < SIZE_MODULUS ->
  ft_strlen str = Some (Z.of_nat (length (c_string str))).
Proof.
  intros Hin Hr. destruct (c_string_split str Hin) as [junk Hj].
  pose proof (c_string_no_nul str) as Hs.
  assert (Hlen : (length (c_string str) <= length str)%nat).
  { rewrite Hj at 2. rewrite length_app. lia. }
  unfold ft_strlen. rewrite Hj at 2.
  apply (strlen_loop_spec _ _ _ O); [exact Hs|lia|lia|lia].
Qed.

(** X11.  [ft_strlen] returns the number of bytes before the first zero
    byte of the block; on a block without a zero byte it reads past the
    end, which is undefined. *)
Theorem ft_strlen_counts_string str :
  Z.of_nat (length str) < SIZE_MODULUS ->
  ft_strlen str =
    if decide (x00 ∈ str) then Some (Z.of_nat (length (c_string str)))
    else None.
Proof.
  intros Hr. case_decide as Hin.
  - apply ft_strlen_ok; assumption.
  - unfold ft_strlen.
    apply (strlen_loop_none str _ O); [rewrite drop_0; exact Hin|exact Hr].
Qed.

Lemma ft_strlen_counts_string_witness :
  let str := list_byte_of_string "ab" ++ [x00; x63] in
  ft_strlen str =
    if decide (x00 ∈ str) then Some (Z.of_nat (length (c_string str)))
    else None.
Proof.
  intros str. apply (ft_strlen_counts_string str). reflexivity.
Defined.

(** ** ft_strchr *)

Lemma int_add_small a b :
  - 2 ^ 31 <= a + b <= INT_MAX -> int_add a b = Some (a + b).
Proof.
  intros H. unfold int_add.
  destruct (Z.leb_spec (- 2 ^ 31) (a + b)); [|lia].
  destruct (Z.leb_spec (a + b) INT_MAX); [reflexivity|lia].
Qed.

Lemma int_max_eq : INT_MAX = 2147483647.
Proof. reflexivity. Qed.

Lemma strchr_loop_spec s junk c : forall fuel (i : nat),
  x00 ∉ s ->
  Z.of_nat (length s) <= INT_MAX ->
  (i <= length s)%nat -> (length s - i < fuel)%nat ->
  strchr_loop fuel (s ++ x00 :: junk) c (Z.of_nat i) =
    Some (if decide (c ∈ drop i s) then 1 else 0).
Proof.
  induction fuel as [|fuel IH]; intros i Hs Hr Hi Hfuel; [lia|].
  pose proof int_max_eq as HM.
  cbn [strchr_loop].
  destruct (Nat.eq_dec i (length s)) as [->|Hne].
  - rewrite char_at_end. cbn. rewrite drop_all.
    case_decide as Hd; [inversion Hd|reflexivity].
  - destruct (lookup_lt_is_Some_2 s i) as [b Hb]; [lia|].
    rewrite (char_at_content _ _ _ _ Hb). cbn.
    rewrite (content_not_nul _ _ _ Hs Hb).
    rewrite int_add_small by lia. cbn.
    rewrite (drop_S _ _ _ Hb).
    destruct (Byte.eqb b c) eqn:E.
    + apply Byte.byte_dec_bl in E. subst b.
      case_decide as Hd; [reflexivity|]. exfalso. apply Hd. apply list_elem_of_here.
    + replace (Z.of_nat i + 1) with (Z.of_nat (S i)) by lia.
      rewrite IH by (assumption || lia).
      repeat case_decide; try reflexivity.
      * exfalso. apply H0. apply list_elem_of_further. assumption.
      * exfalso. apply elem_of_cons in H0. destruct H0 as [->|?]; [|contradiction].
        rewrite byte_eqb_refl in E. discriminate.
Qed.

(** X12.  [ft_strchr] is a membership test, not a search: it answers [0]
    for a null string, [1] for the character code [0] without looking at
    the string, and otherwise [1] exactly when [(char)c] occurs in the
    string. *)
Theorem ft_strchr_is_membership s c :
  terminated s ->
  Z.of_nat (length (string_of s)) <= INT_MAX ->
  ft_strchr s c =
    Some (match s with
          | None => 0
          | Some _ =>
              if c =? 0 then 1
              else if decide (to_char c ∈ string_of s) then 1 else 0
          end).
Proof.
  intros Ht Hr. destruct s as [str|]; [|reflexivity].
  destruct Ht as [Hin _]. cbn [string_of] in *. unfold ft_strchr.
  destruct (Z.eqb_spec c 0); [reflexivity|].
  destruct (c_string_split str Hin) as [junk Hj].
  assert (Hlen : (length (c_string str) <= length str)%nat).
  { rewrite Hj at 2. rewrite length_app. lia. }
  rewrite Hj at 2.
  rewrite (strchr_loop_spec _ _ _ _ O) by
    (first [apply c_string_no_nul | lia]).
  rewrite drop_0. reflexivity.
Qed.

Lemma ft_strchr_is_membership_witness :
  let s := Some (list_byte_of_string "ab" ++ [x0a; x00; x63]) in
  ft_strchr s 10 =
    Some (match s with
          | None => 0
          | Some _ =>
              if 10 =? 0 then 1
              else if decide (to_char 10 ∈ string_of s) then 1 else 0
          end).
Proof.
  intros s. apply (ft_strchr_is_membership s 10).
  - split; [apply (bool_decide_unpack _); vm_compute; exact I|reflexivity].
  - vm_compute. discriminate.
Defined.

(** ** ft_strjoin *)

Lemma store_in str (i : nat) c :
  (i < length str)%nat -> store str (Z.of_nat i) c = Some (<[i := c]> str).
Proof.
  intros H. unfold store.
  destruct (Z.leb_spec 0 (Z.of_nat i)); [|lia].
  destruct (Z.ltb_spec (Z.of_nat i) (Z.of_nat (length str))); [|lia].
  cbn. rewrite Nat2Z.id. reflexivity.
Qed.

Lemma take_S_insert (str : list byte) i c :
  (i < length str)%nat -> take (S i) (<[i := c]> str) = take i str ++ [c].
Proof.
  intros H. rewrite (take_S_r _ _ c) by (apply list_lookup_insert_eq; exact H).
  rewrite take_insert_ge by lia. reflexivity.
Qed.

Lemma join_first_spec s junk : forall fuel (x : nat) str i,
  x00 ∉ s ->
  Z.of_nat (length str) < SIZE_MODULUS ->
  (length s <= length str)%nat ->
  (x <= length s)%nat -> (length s - x < fuel)%nat ->
  uadd i 1 = Z.of_nat x ->
  join_first fuel (s ++ x00 :: junk) str i =
    Some (Z.of_nat (length s), take x str ++ drop x s ++ drop (length s) str).
Proof.
  induction fuel as [|fuel IH]; intros x str i Hs Hr Hroom Hx Hfuel Hi; [lia|].
  cbn [join_first]. rewrite Hi.
  destruct (Nat.eq_dec x (length s)) as [->|Hne].
  - rewrite char_at_end. cbn. rewrite drop_all. cbn. rewrite take_drop.
    reflexivity.
  - destruct (lookup_lt_is_Some_2 s x) as [c Hc]; [lia|].
    rewrite (char_at_content _ _ _ _ Hc). cbn.
    rewrite (content_not_nul _ _ _ Hs Hc).
    rewrite store_in by lia. cbn.
    rewrite (IH (S x)); try assumption; try lia.
    + rewrite take_S_insert by lia. rewrite drop_insert_lt by lia.
      rewrite (drop_S _ _ _ Hc), <- app_assoc. reflexivity.
    + rewrite length_insert. exact Hr.
    + rewrite length_insert. exact Hroom.
    + rewrite uadd_small by lia. lia.
Qed.

Lemma join_second_spec s junk : forall fuel (y k : nat) str,
  x00 ∉ s ->
  Z.of_nat (length str) < SIZE_MODULUS ->
  Z.of_nat (length s) < SIZE_MODULUS ->
  (k + (length s - y) <= length str)%nat ->
  (y <= length s)%nat -> (length s - y < fuel)%nat ->
  join_second fuel (s ++ x00 :: junk) str (Z.of_nat k) (Z.of_nat y) =
    Some (Z.of_nat (k + (length s - y)),
          take k str ++ drop y s ++ drop (k + (length s - y)) str).
Proof.
  induction fuel as [|fuel IH]; intros y k str Hs Hr Hr2 Hroom Hy Hfuel; [lia|].
  cbn [join_second].
  destruct (Nat.eq_dec y (length s)) as [->|Hne].
  - rewrite char_at_end. cbn. rewrite drop_all, Nat.sub_diag, Nat.add_0_r. cbn.
    rewrite take_drop. reflexivity.
  - destruct (lookup_lt_is_Some_2 s y) as [c Hc]; [lia|].
    rewrite (char_at_content _ _ _ _ Hc). cbn.
    rewrite (content_not_nul _ _ _ Hs Hc).
    rewrite store_in by lia. cbn.
    rewrite !uadd_small by lia.
    replace (Z.of_nat k + 1) with (Z.of_nat (S k)) by lia.
    replace (Z.of_nat y + 1) with (Z.of_nat (S y)) by lia.
    rewrite IH; try assumption; try lia.
    + rewrite take_S_insert by lia. rewrite drop_insert_lt by lia.
      rewrite (drop_S _ _ _ Hc), <- app_assoc.
      replace (S k + (length s - S y))%nat with (k + (length s - y))%nat by lia.
      reflexivity.
    + rewrite length_insert. exact Hr.
    + rewrite length_insert. lia.
Qed.

Lemma next_alloc_ok w :
  alloc_failures (w_allocs w) = O ->
  exists junk w', next_alloc w = (Some junk, w') /\
    w_files w' = w_files w /\ alloc_failures (w_allocs w') = O.
Proof.
  intros H0.
  destruct (next_alloc_cases w) as [(j & w' & Hn & Hf & Ha)|(w' & Hn & Hf & Ha)].
  - exists j, w'. split; [exact Hn|]. split; [exact Hf|]. congruence.
  - rewrite H0 in Ha. discriminate.
Qed.

Lemma strjoin_ok first_str b2 w :
  terminated first_str ->
  x00 ∈ b2 -> Z.of_nat (length b2) < SIZE_MODULUS ->
  Z.of_nat (length (string_of first_str)) + Z.of_nat (length (c_string b2)) + 1
    < SIZE_MODULUS ->
  alloc_failures (w_allocs w) = O ->
  exists w',
    ft_strjoin first_str (Some b2) w =
      Some (Some (string_of first_str ++ c_string b2 ++ [x00]), w') /\
    w_files w' = w_files w /\ alloc_failures (w_allocs w') = O.
Proof.
  intros Hterm Hin2 Hr2 Hsum Ha.
  assert (Hfirst : exists b1 w1,
    match first_str with
    | Some blk => Some (blk, w)
    | None =>
        match malloc 1 w with
        | (None, w') => None
        | (Some blk, w') => blk' ← store blk 0 x00; Some (blk', w')
        end
    end = Some (b1, w1) /\
    x00 ∈ b1 /\ Z.of_nat (length b1) < SIZE_MODULUS /\
    c_string b1 = string_of first_str /\
    w_files w1 = w_files w /\ alloc_failures (w_allocs w1) = O).
  { destruct first_str as [b1|].
    - destruct Hterm as [Hin1 Hr1]. exists b1, w. repeat split; auto.
    - unfold malloc. destruct (next_alloc_ok w Ha) as (j & w1 & Hn & Hf & Ha1).
      rewrite Hn. exists [x00], w1. cbn.
      repeat split; first [assumption | reflexivity | apply list_elem_of_here]. }
  destruct Hfirst as (b1 & w1 & Hfst & Hin1 & Hr1 & Hc1 & Hf1 & Ha1).
  unfold ft_strjoin. rewrite Hfst. cbn [mbind option_bind].
  rewrite (ft_strlen_ok b1 Hin1 Hr1), (ft_strlen_ok b2 Hin2 Hr2). cbn [mbind option_bind].
  rewrite Hc1.
  set (c1 := string_of first_str) in *. set (c2 := c_string b2) in *.
  rewrite (uadd_small (Z.of_nat (length c1))) by lia.
  rewrite uadd_small by lia.
  unfold malloc. destruct (next_alloc_ok w1 Ha1) as (j & w2 & Hn & Hf2 & Ha2).
  rewrite Hn.
  replace (Z.to_nat (Z.of_nat (length c1) + Z.of_nat (length c2) + 1))
    with (length c1 + length c2 + 1)%nat by lia.
  destruct (c_string_split b1 Hin1) as [junk1 Hj1].
  destruct (c_string_split b2 Hin2) as [junk2 Hj2].
  rewrite Hc1 in Hj1. fold c2 in Hj2.
  assert (Hn1 : x00 ∉ c1) by (rewrite <- Hc1; apply c_string_no_nul).
  assert (Hn2 : x00 ∉ c2) by apply c_string_no_nul.
  assert (Hl1 : (length c1 <= length b1)%nat) by (rewrite Hj1, length_app; lia).
  assert (Hl2 : (length c2 <= length b2)%nat) by (rewrite Hj2, length_app; lia).
  exists w2. split; [|split; congruence].
  assert (Hjf : forall str, (length c1 <= length str)%nat ->
    Z.of_nat (length str) < SIZE_MODULUS ->
    join_first (S (length b1)) b1 str (to_size (-1)) =
      Some (Z.of_nat (length c1), c1 ++ drop (length c1) str)).
  { intros str Hroom Hrs. rewrite Hj1 at 2.
    rewrite (join_first_spec c1 junk1 _ O); try assumption; try lia;
      [|reflexivity].
    rewrite take_0, drop_0. reflexivity. }
  assert (Hjs : forall str, (length c1 + length c2 <= length str)%nat ->
    Z.of_nat (length str) < SIZE_MODULUS ->
    join_second (S (length b2)) b2 str (Z.of_nat (length c1)) 0 =
      Some (Z.of_nat (length c1 + length c2),
            take (length c1) str ++ c2 ++ drop (length c1 + length c2) str)).
  { intros str Hroom Hrs. rewrite Hj2 at 2.
    rewrite (join_second_spec c2 junk2 _ O (length c1)); try assumption; try lia.
    rewrite Nat.sub_0_r, drop_0. reflexivity. }
  rewrite Hjf by (rewrite length_replicate; lia).
  cbn [mbind option_bind].
  rewrite Hjs by (rewrite length_app, length_drop, length_replicate; lia).
  cbn [mbind option_bind].
  rewrite take_app_length.
  rewrite drop_app_add', drop_drop by reflexivity.
  rewrite drop_replicate.
  replace (length c1 + length c2 + 1 - (length c1 + length c2))%nat with 1%nat by lia.
  cbn [replicate].
  rewrite store_in by (rewrite !length_app; cbn; lia).
  cbn [mbind option_bind].
  do 3 f_equal.
  rewrite app_assoc.
  replace (length c1 + length c2)%nat with (length (c1 ++ c2) + 0)%nat
    by (rewrite length_app; lia).
  rewrite insert_app_r. cbn. rewrite <- app_assoc. reflexivity.
Qed.

(** ** Lines of a C string *)

Lemma line_end_le c : (line_end c <= length c)%nat.
Proof.
  induction c as [|b c IH]; cbn; [lia|]. destruct (Byte.eqb b x0a); lia.
Qed.

Lemma line_end_newline c :
  (line_end c < length c)%nat -> c !! line_end c = Some x0a.
Proof.
  induction c as [|b c IH]; cbn; [lia|]. intros H.
  destruct (Byte.eqb b x0a) eqn:E.
  - apply Byte.byte_dec_bl in E. subst b. reflexivity.
  - cbn. apply IH. lia.
Qed.

Lemma line_end_before c : forall i b,
  (i < line_end c)%nat -> c !! i = Some b -> Byte.eqb b x0a = false.
Proof.
  induction c as [|a c IH]; cbn; intros i b Hi Hb; [lia|].
  destruct (Byte.eqb a x0a) eqn:E; [lia|].
  destruct i as [|i]; cbn in Hb.
  - injection Hb as <-. exact E.
  - apply (IH i); [lia|exact Hb].
Qed.

Lemma cut_segment_line_end c :
  cut_segment x0a c = (take (S (line_end c)) c, drop (S (line_end c)) c).
Proof.
  induction c as [|b c IH]; [reflexivity|]. cbn [cut_segment line_end].
  destruct (Byte.eqb b x0a); [reflexivity|].
  rewrite IH. reflexivity.
Qed.

Lemma char_at_string c junk (k : nat) :
  (k <= length c)%nat ->
  char_at (c ++ x00 :: junk) (Z.of_nat k) = (c ++ [x00]) !! k.
Proof.
  intros Hk. unfold char_at. destruct (Z.ltb_spec (Z.of_nat k) 0); [lia|].
  rewrite Nat2Z.id.
  change (c ++ x00 :: junk) with (c ++ [x00] ++ junk). rewrite app_assoc.
  apply lookup_app_l. rewrite length_app. cbn. lia.
Qed.

Lemma scan_line_spec c junk : forall fuel (i : nat),
  x00 ∉ c ->
  Z.of_nat (length c) <= INT_MAX ->
  (i <= line_end c)%nat -> (line_end c - i < fuel)%nat ->
  scan_line fuel (c ++ x00 :: junk) (Z.of_nat i) = Some (Z.of_nat (line_end c)).
Proof.
  induction fuel as [|fuel IH]; intros i Hc Hr Hi Hfuel; [lia|].
  pose proof (line_end_le c) as Hle. pose proof int_max_eq as HM.
  cbn [scan_line].
  destruct (Nat.eq_dec i (line_end c)) as [->|Hne].
  - destruct (Nat.eq_dec (line_end c) (length c)) as [He|He].
    + rewrite He, char_at_end. reflexivity.
    + rewrite (char_at_content _ _ _ _ (line_end_newline c ltac:(lia))).
      reflexivity.
  - destruct (lookup_lt_is_Some_2 c i) as [b Hb]; [lia|].
    rewrite (char_at_content _ _ _ _ Hb). cbn.
    rewrite (content_not_nul _ _ _ Hc Hb).
    rewrite (line_end_before c i b) by (lia || assumption). cbn.
    rewrite int_add_small by lia. cbn.
    replace (Z.of_nat i + 1) with (Z.of_nat (S i)) by lia.
    apply IH; [assumption|assumption|lia|lia].
Qed.

Lemma save_copy_spec c junk : forall fuel (i : nat) new_line,
  x00 ∉ c ->
  Z.of_nat (length c) < INT_MAX ->
  (line_end c <= length new_line)%nat ->
  (i <= line_end c)%nat -> (line_end c - i < fuel)%nat ->
  save_copy fuel (c ++ x00 :: junk) new_line (Z.of_nat i) (Z.of_nat i) =
    Some (Z.of_nat (line_end c), Z.of_nat (line_end c),
          take i new_line ++ take (line_end c - i) (drop i c) ++
          drop (line_end c) new_line).
Proof.
  induction fuel as [|fuel IH]; intros i new_line Hc Hr Hroom Hi Hfuel; [lia|].
  pose proof (line_end_le c) as Hle. pose proof int_max_eq as HM.
  cbn [save_copy].
  destruct (Nat.eq_dec i (line_end c)) as [->|Hne].
  - rewrite Nat.sub_diag, take_0. cbn [app]. rewrite take_drop.
    destruct (Nat.eq_dec (line_end c) (length c)) as [He|He].
    + rewrite He at 1. rewrite char_at_end. cbn. reflexivity.
    + rewrite (char_at_content _ _ _ _ (line_end_newline c ltac:(lia))).
      reflexivity.
  - destruct (lookup_lt_is_Some_2 c i) as [b Hb]; [lia|].
    rewrite (char_at_content _ _ _ _ Hb). cbn.
    rewrite (content_not_nul _ _ _ Hc Hb).
    rewrite (line_end_before c i b) by (lia || assumption). cbn.
    rewrite store_in by lia. cbn.
    rewrite int_add_small by lia. cbn.
    replace (Z.of_nat i + 1) with (Z.of_nat (S i)) by lia.
    rewrite IH; try assumption; try lia; [|rewrite length_insert; lia].
    rewrite take_S_insert by lia. rewrite drop_insert_lt by lia.
    rewrite (drop_S _ _ _ Hb).
    replace (line_end c - i)%nat with (S (line_end c - S i)) by lia.
    cbn [take]. rewrite <- app_assoc. reflexivity.
Qed.

Lemma next_copy_spec c junk : forall fuel (i j : nat) right_line,
  x00 ∉ c ->
  Z.of_nat (length c) + 1 < INT_MAX ->
  (i <= length c)%nat ->
  (j + (length c - i) <= length right_line)%nat ->
  (j <= i)%nat ->
  (length c - i < fuel)%nat ->
  next_copy fuel (c ++ x00 :: junk) right_line (Z.of_nat i) (Z.of_nat j) =
    Some (Z.of_nat (j + (length c - i)),
          take j right_line ++ drop (S i) (c ++ [x00]) ++
          drop (j + (length c - i)) right_line).
Proof.
  induction fuel as [|fuel IH]; intros i j right_line Hc Hr Hi Hroom Hj Hfuel;
    [lia|].
  pose proof int_max_eq as HM. cbn [next_copy].
  destruct (Nat.eq_dec i (length c)) as [->|Hne].
  - rewrite char_at_end. cbn. rewrite int_add_small by lia. cbn.
    rewrite Nat.sub_diag, Nat.add_0_r.
    rewrite drop_ge by (rewrite length_app; cbn; lia). cbn [app].
    rewrite take_drop. reflexivity.
  - destruct (lookup_lt_is_Some_2 c i) as [b Hb]; [lia|].
    rewrite (char_at_content _ _ _ _ Hb). cbn [mbind option_bind].
    rewrite (int_add_small (Z.of_nat i) 1) by lia. cbn [mbind option_bind].
    rewrite (content_not_nul _ _ _ Hc Hb).
    replace (Z.of_nat i + 1) with (Z.of_nat (S i)) by lia.
    rewrite char_at_string by lia.
    destruct (lookup_lt_is_Some_2 (c ++ [x00]) (S i)) as [b' Hb'];
      [rewrite length_app; cbn; lia|].
    rewrite Hb'. cbn [mbind option_bind].
    rewrite store_in by lia. cbn [mbind option_bind].
    rewrite (int_add_small (Z.of_nat j) 1) by lia. cbn [mbind option_bind].
    replace (Z.of_nat j + 1) with (Z.of_nat (S j)) by lia.
    rewrite IH; try assumption; try lia; [|rewrite length_insert; lia].
    rewrite take_S_insert by lia. rewrite drop_insert_lt by lia.
    rewrite (drop_S _ _ _ Hb'), <- app_assoc.
    replace (S j + (length c - S i))%nat with (j + (length c - i))%nat by lia.
    reflexivity.
Qed.

(** ** ft_save_line and ft_next_line *)

Lemma malloc_ok n w :
  alloc_failures (w_allocs w) = O ->
  exists junk w', malloc n w = (Some (replicate (Z.to_nat n) junk), w') /\
    w_files w' = w_files w /\ alloc_failures (w_allocs w') = O.
Proof.
  intros Ha. destruct (next_alloc_ok w Ha) as (j & w' & Hn & Hf & Ha').
  exists j, w'. unfold malloc. rewrite Hn. auto.
Qed.

Lemma save_line_empty blk w :
  x00 ∈ blk -> c_string blk = [] -> ft_save_line (Some blk) w = Some (None, w).
Proof.
  intros Hin Hc. destruct (c_string_split blk Hin) as [junk Hj].
  rewrite Hc in Hj. subst blk. reflexivity.
Qed.

Lemma save_line_ok blk w :
  x00 ∈ blk ->
  c_string blk <> [] ->
  Z.of_nat (length (c_string blk)) + 2 <= INT_MAX ->
  alloc_failures (w_allocs w) = O ->
  exists w',
    ft_save_line (Some blk) w =
      Some (Some (take (S (line_end (c_string blk))) (c_string blk) ++ [x00]),
            w') /\
    w_files w' = w_files w /\ alloc_failures (w_allocs w') = O.
Proof.
  intros Hin Hne Hr Ha. pose proof int_max_eq as HM.
  pose proof size_modulus_eq as HS.
  destruct (c_string_split blk Hin) as [junk Hj].
  pose proof (c_string_no_nul blk) as Hc.
  set (c := c_string blk) in *. set (p := line_end c).
  pose proof (line_end_le c) as Hp. fold p in Hp.
  assert (Hlen : (length c < length blk)%nat).
  { rewrite Hj, length_app. cbn. lia. }
  unfold ft_save_line.
  assert (H0 : exists b, char_at blk 0 = Some b /\ Byte.eqb b x00 = false).
  { destruct c as [|b c'] eqn:Ec; [congruence|]. exists b.
    rewrite Hj. split.
    - apply (char_at_content (b :: c') junk O). reflexivity.
    - apply (content_not_nul (b :: c') O); [exact Hc|reflexivity]. }
  destruct H0 as (b0 & Hb0 & Hb0n). rewrite Hb0. cbn [mbind option_bind].
  rewrite Hb0n.
  assert (Hscan : scan_line (S (length blk)) blk 0 = Some (Z.of_nat p)).
  { rewrite Hj at 2. apply (scan_line_spec c junk _ O); try assumption; lia. }
  rewrite Hscan. cbn [mbind option_bind].
  assert (Hcopy : forall nl, (p <= length nl)%nat ->
    save_copy (S (length blk)) blk nl 0 0 =
      Some (Z.of_nat p, Z.of_nat p, take p c ++ drop p nl)).
  { intros nl Hroom. rewrite Hj at 2.
    rewrite (save_copy_spec c junk _ O); try assumption; try lia.
    rewrite take_0, drop_0, Nat.sub_0_r. reflexivity. }
  assert (Htp : length (take p c) = p) by (rewrite length_take; lia).
  destruct (Nat.eq_dec p (length c)) as [He|He].
  - (* no newline: the line is the whole string *)
    assert (Hci : char_at blk (Z.of_nat p) = Some x00).
    { rewrite Hj, He. apply char_at_end. }
    rewrite Hci. cbn [mbind option_bind].
    change (Byte.eqb x00 x0a) with false. cbn match.
    rewrite int_add_small by lia. cbn [mbind option_bind].
    rewrite to_size_small by lia.
    destruct (malloc_ok (Z.of_nat p + 1) w Ha) as (j & w' & Hm & Hf & Ha').
    rewrite Hm. rewrite Hcopy by (rewrite length_replicate; lia).
    cbn [mbind option_bind]. rewrite Hci. cbn [mbind option_bind].
    change (Byte.eqb x00 x0a) with false. cbn match. cbn [mbind option_bind].
    replace (Z.to_nat (Z.of_nat p + 1)) with (p + 1)%nat by lia.
    rewrite drop_replicate_add. cbn [replicate].
    rewrite store_in by (rewrite length_app; cbn; lia).
    cbn [mbind option_bind]. exists w'. split; [|auto].
    do 3 f_equal. rewrite insert_app_r_alt by lia.
    rewrite Htp, Nat.sub_diag. cbn. f_equal.
    rewrite !take_ge by lia. reflexivity.
  - (* the line ends with the newline at offset p *)
    pose proof (line_end_newline c ltac:(lia)) as Hnl. fold p in Hnl.
    assert (Hci : char_at blk (Z.of_nat p) = Some x0a).
    { rewrite Hj. apply char_at_content. exact Hnl. }
    rewrite Hci. cbn [mbind option_bind].
    change (Byte.eqb x0a x0a) with true. cbn match.
    rewrite int_add_small by lia. cbn [mbind option_bind].
    rewrite to_size_small by lia.
    destruct (malloc_ok (Z.of_nat p + 2) w Ha) as (j & w' & Hm & Hf & Ha').
    rewrite Hm. rewrite Hcopy by (rewrite length_replicate; lia).
    cbn [mbind option_bind]. rewrite Hci. cbn [mbind option_bind].
    change (Byte.eqb x0a x0a) with true. cbn match.
    replace (Z.to_nat (Z.of_nat p + 2)) with (p + 2)%nat by lia.
    rewrite drop_replicate_add. cbn [replicate].
    rewrite store_in by (rewrite length_app; cbn; lia).
    cbn [mbind option_bind].
    rewrite !int_add_small by lia. cbn [mbind option_bind].
    replace (Z.of_nat p + 1) with (Z.of_nat (S p)) by lia.
    rewrite store_in by (rewrite length_insert, length_app; cbn; lia).
    cbn [mbind option_bind]. exists w'. split; [|auto].
    do 3 f_equal. rewrite !insert_app_r_alt by lia.
    rewrite Htp, Nat.sub_diag.
    replace (S p - p)%nat with 1%nat by lia. cbn.
    rewrite (take_S_r _ _ _ Hnl), <- app_assoc. reflexivity.
Qed.

Lemma next_line_ok blk w :
  x00 ∈ blk ->
  Z.of_nat (length blk) < SIZE_MODULUS ->
  Z.of_nat (length (c_string blk)) + 2 <= INT_MAX ->
  alloc_failures (w_allocs w) = O ->
  exists rest w',
    ft_next_line (Some blk) w = Some (Some rest, w') /\
    x00 ∈ rest /\
    c_string rest = drop (S (line_end (c_string blk))) (c_string blk) /\
    (length rest <= length (c_string blk) + 2)%nat /\
    w_files w' = w_files w /\ alloc_failures (w_allocs w') = O.
Proof.
  intros Hin Hrb Hr Ha. pose proof int_max_eq as HM.
  pose proof size_modulus_eq as HS.
  destruct (c_string_split blk Hin) as [junk Hj].
  pose proof (c_string_no_nul blk) as Hc.
  pose proof (ft_strlen_ok blk Hin Hrb) as Hlen.
  set (c := c_string blk) in *. set (p := line_end c).
  pose proof (line_end_le c) as Hp. fold p in Hp.
  assert (Hlb : (length c < length blk)%nat).
  { rewrite Hj, length_app. cbn. lia. }
  unfold ft_next_line.
  assert (Hscan : scan_line (S (length blk)) blk 0 = Some (Z.of_nat p)).
  { rewrite Hj at 2. apply (scan_line_spec c junk _ O); try assumption; lia. }
  rewrite Hscan. cbn [mbind option_bind]. rewrite Hlen. cbn [mbind option_bind].
  rewrite (to_size_small (Z.of_nat p)) by lia.
  rewrite usub_small by lia. rewrite uadd_small by lia.
  destruct (malloc_ok (Z.of_nat (length c) - Z.of_nat p + 1) w Ha)
    as (j & w' & Hm & Hf & Ha').
  rewrite Hm.
  replace (Z.to_nat (Z.of_nat (length c) - Z.of_nat p + 1))
    with ((length c - p) + 1)%nat by lia.
  assert (Hcopy : forall rl, (length c - p <= length rl)%nat ->
    next_copy (S (length blk)) blk rl (Z.of_nat p) 0 =
      Some (Z.of_nat (length c - p),
            drop (S p) (c ++ [x00]) ++ drop (length c - p) rl)).
  { intros rl Hroom. rewrite Hj at 2.
    rewrite (next_copy_spec c junk _ p O); try assumption; try lia.
    rewrite take_0. reflexivity. }
  rewrite Hcopy by (rewrite length_replicate; lia).
  cbn [mbind option_bind]. rewrite drop_replicate_add. cbn [replicate].
  assert (Hld : length (drop (S p) (c ++ [x00])) = (length c - p)%nat).
  { rewrite length_drop, length_app. cbn. lia. }
  rewrite store_in by (rewrite length_app, Hld; cbn; lia).
  cbn [mbind option_bind].
  rewrite insert_app_r_alt by lia. rewrite Hld, Nat.sub_diag. cbn [insert list_insert].
  eexists _, w'. split; [reflexivity|].
  split; [apply elem_of_app; right; apply list_elem_of_here|].
  split; [|split; [|auto]].
  - destruct (Nat.eq_dec p (length c)) as [He|He].
    + rewrite !drop_ge by (rewrite ?length_app; cbn; lia). reflexivity.
    + rewrite drop_app_le by lia. rewrite <- app_assoc. cbn [app].
      apply c_string_app. intros Hd. apply Hc.
      exact (subseteq_drop _ _ _ Hd).
  - rewrite length_app, Hld. cbn. lia.
Qed.

(** ** ft_read_line *)

Lemma ft_strchr_newline str :
  terminated str ->
  Z.of_nat (length (string_of str)) <= INT_MAX ->
  ft_strchr str 10 = Some (if decide (x0a ∈ string_of str) then 1 else 0).
Proof.
  intros Ht Hr. destruct str as [blk|]; cbn [string_of].
  - destruct Ht as [Hin Hrb]. unfold ft_strchr. cbn [Z.eqb].
    destruct (c_string_split blk Hin) as [junk Hj].
    assert (Hlen : (length (c_string blk) <= length blk)%nat).
    { rewrite Hj at 2. rewrite length_app. lia. }
    rewrite Hj at 2.
    rewrite (strchr_loop_spec _ _ _ _ O) by
      (first [apply c_string_no_nul | exact Hr | lia]).
    rewrite drop_0. reflexivity.
  - cbn. case_decide as Hd; [inversion Hd|reflexivity].
Qed.

Lemma sys_read_ok fd count w f :
  w_files w !! fd = Some f ->
  read_failures (f_script f) = O ->
  0 <= count ->
  exists got f' w',
    sys_read fd count w = (Z.of_nat (length got), got, w') /\
    f_bytes f = got ++ f_bytes f' /\
    Z.of_nat (length got) <= count /\
    (0 < count -> got = [] -> f_bytes f = []) /\
    read_failures (f_script f') = O /\
    w_files w' = <[fd := f']> (w_files w) /\
    w_allocs w' = w_allocs w.
Proof.
  intros Hf Hs Hc. unfold sys_read. rewrite Hf.
  assert (Hdeliver : forall n s, 0 <= n <= count -> (0 < count -> 0 < n) ->
    read_failures s = O ->
    exists got f' w',
      (Z.of_nat (length (take (Z.to_nat n) (f_bytes f))),
       take (Z.to_nat n) (f_bytes f),
       {| w_files :=
            <[fd := {| f_bytes := drop (Z.to_nat n) (f_bytes f);
                       f_script := s |}]> (w_files w);
          w_allocs := w_allocs w |}) = (Z.of_nat (length got), got, w') /\
      f_bytes f = got ++ f_bytes f' /\
      Z.of_nat (length got) <= count /\
      (0 < count -> got = [] -> f_bytes f = []) /\
      read_failures (f_script f') = O /\
      w_files w' = <[fd := f']> (w_files w) /\
      w_allocs w' = w_allocs w).
  { intros n s Hn Hpos Hs'.
    exists (take (Z.to_nat n) (f_bytes f)),
      {| f_bytes := drop (Z.to_nat n) (f_bytes f); f_script := s |}.
    eexists. split; [reflexivity|]. cbn.
    split; [symmetry; apply take_drop|].
    split; [rewrite length_take; lia|].
    split; [|auto].
    intros Hcp Hnil. apply take_nil_inv in Hnil.
    destruct Hnil; [specialize (Hpos Hcp); lia|assumption]. }
  destruct (f_script f) as [|[|k] s] eqn:Es.
  - apply Hdeliver; [lia|auto|reflexivity].
  - discriminate.
  - apply Hdeliver; [lia|lia|exact Hs].
Qed.

Lemma chunk_block buff got :
  x00 ∉ got -> (length got < length buff)%nat ->
  exists junk,
    store (mem_write buff 0 got) (Z.of_nat (length got)) x00
      = Some (got ++ x00 :: junk) /\
    length (got ++ x00 :: junk) = length buff.
Proof.
  intros Hg Hl. unfold mem_write. rewrite take_0. cbn [app Nat.add].
  rewrite store_in by (rewrite length_app, length_drop; lia).
  rewrite insert_app_r_alt by lia. rewrite Nat.sub_diag.
  destruct (drop (length got) buff) as [|b junk] eqn:Ed.
  { apply (f_equal length) in Ed. rewrite length_drop in Ed. cbn in Ed. lia. }
  exists junk. split; [reflexivity|].
  apply (f_equal length) in Ed. rewrite length_drop in Ed. cbn in Ed.
  rewrite length_app. cbn. lia.
Qed.

Lemma read_loop_sound bs fd :
  0 < bs < INT_MAX ->
  forall fuel str buff byread w f,
    terminated str ->
    length buff = Z.to_nat (bs + 1) ->
    w_files w !! fd = Some f ->
    x00 ∉ f_bytes f ->
    read_failures (f_script f) = O ->
    alloc_failures (w_allocs w) = O ->
    (byread = 0 -> f_bytes f = []) ->
    Z.of_nat (length (string_of str)) + Z.of_nat (length (f_bytes f)) + 2
      <= INT_MAX ->
    (length (f_bytes f) + (if (byread =? 0)%Z then 0 else 1) < fuel)%nat ->
    exists str' w' f' got,
      read_loop bs fuel fd str buff byread w = Some (str', w') /\
      terminated str' /\
      (str <> None \/ byread <> 0 -> str' <> None) /\
      f_bytes f = got ++ f_bytes f' /\
      string_of str' = string_of str ++ got /\
      (x0a ∈ string_of str' \/ f_bytes f' = []) /\
      w_files w' = <[fd := f']> (w_files w) /\
      read_failures (f_script f') = O /\
      alloc_failures (w_allocs w') = O.
Proof.
  intros Hbs. pose proof int_max_eq as HM. pose proof size_modulus_eq as HS.
  induction fuel as [|fuel IH];
    intros str buff byread w f Ht Hbuf Hf Hnul Hrf Haf Hby Hsum Hfuel; [lia|].
  cbn [read_loop]. rewrite (ft_strchr_newline str Ht) by lia.
  cbn [mbind option_bind].
  assert (Hstop : forall (found : Z),
    (found <> 0 -> x0a ∈ string_of str) ->
    (found =? 0) && negb (byread =? 0) = false ->
    exists str' w' f' got,
      Some (str, w) = Some (str', w') /\
      terminated str' /\
      (str <> None \/ byread <> 0 -> str' <> None) /\
      f_bytes f = got ++ f_bytes f' /\
      string_of str' = string_of str ++ got /\
      (x0a ∈ string_of str' \/ f_bytes f' = []) /\
      w_files w' = <[fd := f']> (w_files w) /\
      read_failures (f_script f') = O /\
      alloc_failures (w_allocs w') = O).
  { intros found Hfound Hcond. exists str, w, f, []. split; [reflexivity|].
    split; [exact Ht|]. split.
    { intros [Hs|Hb]; [exact Hs|].
      destruct (Z.eqb_spec found 0) as [H0|H0].
      - destruct (Z.eqb_spec byread 0); [contradiction|discriminate].
      - intros ->. specialize (Hfound H0). inversion Hfound. }
    split; [reflexivity|]. split; [rewrite app_nil_r; reflexivity|].
    split.
    { destruct (Z.eqb_spec found 0) as [H0|H0]; [|left; auto].
      destruct (Z.eqb_spec byread 0) as [Hb|Hb]; [right; auto|discriminate]. }
    split; [symmetry; apply insert_id; exact Hf|]. auto. }
  case_decide as Hnl.
  { apply (Hstop 1); [auto|reflexivity]. }
  destruct (Z.eqb_spec byread 0) as [Hb0|Hb0].
  { apply (Hstop 0); [congruence|]. try rewrite Hb0. reflexivity. }
  change ((0 =? 0) && negb false) with true. cbn match.
  rewrite to_size_small by lia.
  destruct (sys_read_ok fd bs w f Hf Hrf) as
    (got & f1 & w1 & Hread & Hb & Hle & Hnil & Hrf1 & Hfiles1 & Hal1); [lia|].
  rewrite Hread.
  destruct (Z.ltb_spec (Z.of_nat (length got)) 0); [lia|].
  assert (Hg : x00 ∉ got).
  { intros Hin. apply Hnul. rewrite Hb. apply elem_of_app. auto. }
  destruct (chunk_block buff got Hg) as (junk & Hstore & Hlen1); [lia|].
  rewrite Hstore. cbn [mbind option_bind].
  assert (Hlenf : length (f_bytes f) = (length got + length (f_bytes f1))%nat).
  { rewrite Hb, length_app. reflexivity. }
  assert (Hcg : c_string (got ++ x00 :: junk) = got) by (apply c_string_app; exact Hg).
  destruct (strjoin_ok str (got ++ x00 :: junk) w1 Ht) as (w2 & Hjoin & Hf2 & Ha2).
  { apply elem_of_app. right. apply list_elem_of_here. }
  { rewrite Hlen1, Hbuf. lia. }
  { rewrite Hcg. lia. }
  { rewrite Hal1. exact Haf. }
  rewrite Hjoin, Hcg. cbn [mbind option_bind].
  assert (Hlk1 : w_files w2 !! fd = Some f1).
  { rewrite Hf2, Hfiles1. apply lookup_insert_eq. }
  assert (Hns : x00 ∉ string_of str ++ got).
  { apply not_elem_of_app. split; [|exact Hg].
    destruct str as [blk|]; [apply c_string_no_nul|apply not_elem_of_nil]. }
  destruct (IH (Some (string_of str ++ got ++ [x00])) (got ++ x00 :: junk)
              (Z.of_nat (length got)) w2 f1)
    as (str' & w' & f' & got' & Hloop & Ht' & Hnn & Hb' & Hs' & Hstop' & Hfiles' & Hrf' & Haf').
  { split.
    - rewrite app_assoc. apply elem_of_app. right. apply list_elem_of_here.
    - rewrite !length_app. cbn. lia. }
  { rewrite Hlen1. exact Hbuf. }
  { exact Hlk1. }
  { intros Hin. apply Hnul. rewrite Hb. apply elem_of_app. auto. }
  { exact Hrf1. }
  { exact Ha2. }
  { intros H0. assert (got = []) by (destruct got; [reflexivity|cbn in H0; lia]).
    subst got. rewrite (Hnil ltac:(lia) eq_refl) in Hb. cbn in Hb. auto. }
  { cbn [string_of]. rewrite app_assoc, c_string_app by exact Hns.
    rewrite length_app. lia. }
  { destruct (Z.eqb_spec (Z.of_nat (length got)) 0); lia. }
  cbn [string_of] in Hs'. rewrite app_assoc, c_string_app in Hs' by exact Hns.
  exists str', w', f', (got ++ got'). split; [exact Hloop|].
  split; [exact Ht'|]. split; [intros _; apply Hnn; left; discriminate|].
  split; [rewrite Hb, Hb', app_assoc; reflexivity|].
  split; [rewrite Hs', app_assoc; reflexivity|].
  split; [exact Hstop'|].
  split; [rewrite Hfiles', Hf2, Hfiles1; apply insert_insert_eq|]. auto.
Qed.

(** ** get_next_line (older reader) *)

Lemma line_end_found c : x0a ∈ c -> (line_end c < length c)%nat.
Proof.
  induction c as [|b c IH]; intros Hin; [inversion Hin|]. cbn.
  destruct (Byte.eqb b x0a) eqn:E; [lia|].
  apply elem_of_cons in Hin. destruct Hin as [<-|Hin].
  - rewrite byte_eqb_refl in E. discriminate.
  - specialize (IH Hin). lia.
Qed.

Lemma line_end_take c : x0a ∉ take (line_end c) c.
Proof.
  induction c as [|b c IH]; cbn; [apply not_elem_of_nil|].
  destruct (Byte.eqb b x0a) eqn:E; cbn; [apply not_elem_of_nil|].
  apply not_elem_of_cons. split; [|exact IH].
  intros <-. rewrite byte_eqb_refl in E. discriminate.
Qed.

Lemma cut_first_line c rest :
  x0a ∈ c \/ rest = [] ->
  cut_segment x0a (c ++ rest) =
    (take (S (line_end c)) c, drop (S (line_end c)) c ++ rest).
Proof.
  intros [Hin| ->].
  - apply cut_segment_found; [|apply line_end_take].
    apply line_end_newline, line_end_found, Hin.
  - rewrite !app_nil_r. apply cut_segment_line_end.
Qed.

Lemma ft_read_line_sound bs fd fuel str w f :
  0 < bs < INT_MAX ->
  terminated str ->
  w_files w !! fd = Some f ->
  x00 ∉ f_bytes f ->
  read_failures (f_script f) = O ->
  alloc_failures (w_allocs w) = O ->
  Z.of_nat (length (string_of str)) + Z.of_nat (length (f_bytes f)) + 2
    <= INT_MAX ->
  (length (f_bytes f) + 1 < fuel)%nat ->
  exists blk w' f' got,
    ft_read_line bs fuel fd str w = Some (Some blk, w') /\
    terminated (Some blk) /\
    f_bytes f = got ++ f_bytes f' /\
    c_string blk = string_of str ++ got /\
    (x0a ∈ c_string blk \/ f_bytes f' = []) /\
    w_files w' = <[fd := f']> (w_files w) /\
    read_failures (f_script f') = O /\
    alloc_failures (w_allocs w') = O.
Proof.
  intros Hbs Ht Hf Hnul Hrf Haf Hsum Hfuel.
  pose proof int_max_eq as HM. pose proof size_modulus_eq as HS.
  unfold ft_read_line. rewrite int_add_small by lia. cbn [mbind option_bind].
  rewrite to_size_small by lia.
  destruct (malloc_ok (bs + 1) w Haf) as (j & w1 & Hm & Hf1 & Ha1).
  rewrite Hm.
  destruct (read_loop_sound bs fd Hbs fuel str (replicate (Z.to_nat (bs + 1)) j)
              1 w1 f Ht)
    as (str' & w' & f' & got & Hloop & Ht' & Hnn & Hb & Hs & Hstop & Hfiles & Hrf' & Haf');
    try assumption.
  { apply length_replicate. }
  { rewrite Hf1. exact Hf. }
  { discriminate. }
  destruct str' as [blk|]; [|exfalso; apply Hnn; [right; discriminate|reflexivity]].
  exists blk, w', f', got. rewrite Hloop. cbn [string_of] in Hs, Hstop.
  rewrite Hf1 in Hfiles. auto 10.
Qed.

Lemma bonus_call_spec bs fd m fuel :
  ready bs fd m ->
  (length (unread fd (env m)) + 1 < fuel)%nat ->
  exists line m',
    get_next_line bs fuel fd m = Some (line, m') /\
    ready bs fd m' /\
    (length (unread fd (env m')) <= length (unread fd (env m)))%nat /\
    ((bonus_pending fd m = [] /\ line = None /\ bonus_pending fd m' = [] /\
      container m' !! fd = None) \/
     (bonus_pending fd m <> [] /\
      exists seg, line = Some (seg ++ [x00]) /\
        cut_segment x0a (bonus_pending fd m) = (seg, bonus_pending fd m'))).
Proof.
  intros (Hfd & Hbs & Ht & (f & Hf & Hrf) & Hnul & Haf & Hsum) Hfuel.
  pose proof int_max_eq as HM. pose proof size_modulus_eq as HS.
  assert (Hun : unread fd (env m) = f_bytes f) by (unfold unread; rewrite Hf; reflexivity).
  unfold bonus_pending in Hsum. rewrite Hun, length_app in Hsum.
  rewrite Hun in Hnul, Hfuel.
  unfold get_next_line.
  destruct (Z.ltb_spec fd 0); [lia|].
  destruct (Z.leb_spec 1024 fd); [lia|]. cbn [orb].
  destruct (Z.leb_spec bs 0); [lia|].
  destruct (sys_read_ok fd 0 (env m) f Hf Hrf) as
    (got0 & f1 & w1 & Hprobe & Hb0 & Hle0 & _ & Hrf1 & Hfiles1 & Hal1); [lia|].
  assert (got0 = []) by (destruct got0; [reflexivity|cbn in Hle0; lia]).
  subst got0. cbn in Hprobe, Hb0. rewrite Hprobe. cbn [Z.ltb Z.compare].
  assert (Hlk1 : w_files w1 !! fd = Some f1) by (rewrite Hfiles1; apply lookup_insert_eq).
  destruct (ft_read_line_sound bs fd fuel (container m !! fd) w1 f1 Hbs Ht Hlk1)
    as (blk & w2 & f2 & got & Hrl & Ht2 & Hb & Hc & Hstop & Hfiles2 & Hrf2 & Haf2).
  { rewrite <- Hb0. exact Hnul. }
  { exact Hrf1. }
  { rewrite Hal1. exact Haf. }
  { rewrite <- Hb0. lia. }
  { rewrite <- Hb0. lia. }
  rewrite Hrl. cbn [mbind option_bind].
  destruct Ht2 as [Hin2 Hr2].
  assert (Hlk2 : w_files w2 !! fd = Some f2) by (rewrite Hfiles2; apply lookup_insert_eq).
  assert (HP : bonus_pending fd m = c_string blk ++ f_bytes f2).
  { unfold bonus_pending. rewrite Hun, Hb0, Hb, Hc, app_assoc. reflexivity. }
  assert (Hlen : (length (string_of (container m !! fd)) + length (f_bytes f)
                  = length (c_string blk) + length (f_bytes f2))%nat).
  { rewrite Hc, Hb0, Hb, !length_app. lia. }
  assert (Hnul2 : x00 ∉ f_bytes f2).
  { intros Hin. apply Hnul. rewrite Hb0, Hb. apply elem_of_app. auto. }
  assert (Hmk : forall c w',
    w_files w' = w_files w2 -> alloc_failures (w_allocs w') = O ->
    terminated c ->
    (length (string_of c) <= length (c_string blk))%nat ->
    let m' := {| container := match c with Some r => <[fd := r]> (container m)
                              | None => delete fd (container m) end;
                 env := w' |} in
    ready bs fd m' /\
    (length (unread fd (env m')) <= length (f_bytes f))%nat /\
    bonus_pending fd m' = string_of c ++ f_bytes f2).
  { intros c w' Hfw Haw Htc Hlc m'.
    assert (Hc' : container m' !! fd = c).
    { destruct c; cbn; [apply lookup_insert_eq|apply lookup_delete_eq]. }
    assert (Hu' : unread fd (env m') = f_bytes f2).
    { unfold unread. cbn. rewrite Hfw, Hlk2. reflexivity. }
    assert (HP' : bonus_pending fd m' = string_of c ++ f_bytes f2).
    { unfold bonus_pending. rewrite Hc', Hu'. reflexivity. }
    split; [|split; [rewrite Hu', Hb0, Hb, length_app; lia|exact HP']].
    unfold ready. rewrite HP', Hc', Hu'.
    split; [exact Hfd|]. split; [exact Hbs|]. split; [exact Htc|].
    split; [exists f2; cbn; rewrite Hfw; auto|].
    split; [exact Hnul2|]. split; [exact Haw|].
    rewrite length_app. lia. }
  destruct (c_string blk) as [|b0 c'] eqn:Ec.
  - (* nothing left: the end of the stream *)
    rewrite (save_line_empty blk w2 Hin2 Ec). cbn [mbind option_bind].
    eexists _, _. split; [reflexivity|].
    destruct (Hmk None w2 eq_refl Haf2 I ltac:(cbn; lia)) as (Hr' & Hl' & HP').
    split; [exact Hr'|]. split; [rewrite Hun; exact Hl'|].
    left. rewrite HP', HP. cbn [string_of app].
    destruct Hstop as [Hx|Hx]; [inversion Hx|].
    rewrite Hx. split; [reflexivity|]. split; [reflexivity|].
    split; [reflexivity|]. cbn. apply lookup_delete_eq.
  - rewrite <- Ec in *.
    assert (Hne : c_string blk <> []) by (rewrite Ec; discriminate).
    destruct (save_line_ok blk w2 Hin2 Hne) as (w3 & Hsave & Hf3 & Ha3);
      [lia|exact Haf2|].
    rewrite Hsave. cbn [mbind option_bind].
    destruct (next_line_ok blk w3 Hin2 Hr2) as
      (rest & w4 & Hnext & Hinr & Hcr & Hlr & Hf4 & Ha4); [lia|exact Ha3|].
    rewrite Hnext. cbn [mbind option_bind].
    eexists _, _. split; [reflexivity|].
    destruct (Hmk (Some rest) w4) as (Hr' & Hl' & HP').
    { congruence. }
    { exact Ha4. }
    { split; [exact Hinr|]. lia. }
    { cbn [string_of]. rewrite Hcr, length_drop. lia. }
    split; [exact Hr'|]. split; [rewrite Hun; exact Hl'|].
    right. split.
    { rewrite HP. intros Hp. apply app_eq_nil in Hp. destruct Hp. contradiction. }
    eexists. split; [reflexivity|].
    rewrite HP', HP. cbn [string_of]. rewrite Hcr.
    apply cut_first_line. exact Hstop.
Qed.

(** ** Runs of the older reader *)

Lemma bonus_run_spec bs fd fuel : forall calls m,
  ready bs fd m ->
  (length (unread fd (env m)) + 1 < fuel)%nat ->
  (length (bonus_pending fd m) < calls)%nat ->
  exists m',
    read_lines bs calls fuel fd m =
      Some (map (fun s => s ++ [x00])
              (split_segments x0a (bonus_pending fd m)), m') /\
    bonus_pending fd m' = [] /\ container m' !! fd = None.
Proof.
  induction calls as [|calls IH]; intros m Hr Hf Hc; [lia|].
  cbn [read_lines].
  destruct (bonus_call_spec bs fd m fuel Hr Hf)
    as (line & m1 & Hcall & Hr1 & Hl1 & Hcase).
  rewrite Hcall. cbn [mbind option_bind].
  destruct Hcase as [(HP & -> & HP1 & Hc1)|(HP & seg & -> & Hcut)].
  - exists m1. rewrite HP. split; [reflexivity|]. auto.
  - pose proof (cut_segment_app _ _ _ _ Hcut) as Happ.
    pose proof (cut_segment_nonempty _ _ _ _ HP Hcut) as Hseg.
    destruct (IH m1 Hr1) as (m2 & Hrun & HP2 & Hc2); [lia| |].
    { rewrite Happ, length_app in Hc. destruct seg; [congruence|].
      cbn [length] in Hc. lia. }
    rewrite Hrun. cbn [mbind option_bind]. exists m2.
    rewrite (split_segments_cut _ _ _ _ HP Hcut). auto.
Qed.


(** X13.  [ft_strjoin] on two strings returns a fresh block that holds the
    first string, then the second, then one terminator, and nothing else;
    a null first string counts as the empty string.  No descriptor is
    touched. *)
Theorem strjoin_concatenates first_str b2 w :
  terminated first_str ->
  terminated (Some b2) ->
  Z.of_nat (length (string_of first_str)) + Z.of_nat (length (c_string b2)) + 1
    < SIZE_MODULUS ->
  alloc_failures (w_allocs w) = O ->
  exists w',
    ft_strjoin first_str (Some b2) w =
      Some (Some (string_of first_str ++ c_string b2 ++ [x00]), w') /\
    w_files w' = w_files w.
Proof.
  intros Ht [Hin Hr] Hsum Ha.
  destruct (strjoin_ok first_str b2 w Ht Hin Hr Hsum Ha) as (w' & Hj & Hf & _).
  exists w'. auto.
Qed.

Lemma strjoin_concatenates_witness :
  let w := {| w_files := ∅; w_allocs := [AllocOk x41; AllocOk x42] |} in
  exists w',
    ft_strjoin None (Some (list_byte_of_string "ab" ++ [x00; x63])) w =
      Some (Some (list_byte_of_string "ab" ++ [x00]), w') /\
    w_files w' = w_files w.
Proof.
  intros w.
  apply (strjoin_concatenates None
           (list_byte_of_string "ab" ++ [x00; x63]) w).
  - exact I.
  - split; [apply (bool_decide_unpack _); vm_compute; exact I|reflexivity].
  - reflexivity.
  - reflexivity.
Defined.

(** X14.  [ft_save_line] and [ft_next_line] cut a non-empty string after its
    first newline: the first returns the line, newline included, the second
    what follows it, and the two put together are the string. *)
Theorem save_and_next_split blk w :
  terminated (Some blk) ->
  c_string blk <> [] ->
  Z.of_nat (length (c_string blk)) + 2 <= INT_MAX ->
  alloc_failures (w_allocs w) = O ->
  exists line rest w1 w2,
    ft_save_line (Some blk) w = Some (Some line, w1) /\
    ft_next_line (Some blk) w1 = Some (Some rest, w2) /\
    x00 ∈ line /\ x00 ∈ rest /\
    cut_segment x0a (c_string blk) = (c_string line, c_string rest) /\
    c_string line ++ c_string rest = c_string blk.
Proof.
  intros [Hin Hr] Hne Hint Ha.
  destruct (save_line_ok blk w Hin Hne Hint Ha) as (w1 & Hsave & _ & Ha1).
  destruct (next_line_ok blk w1 Hin Hr Hint Ha1)
    as (rest & w2 & Hnext & Hinr & Hcr & _).
  eexists _, rest, w1, w2. split; [exact Hsave|]. split; [exact Hnext|].
  assert (Hline : c_string (take (S (line_end (c_string blk))) (c_string blk)
                            ++ [x00])
                  = take (S (line_end (c_string blk))) (c_string blk)).
  { apply c_string_app. intros Hx. apply (c_string_no_nul blk).
    exact (subseteq_take _ _ _ Hx). }
  split; [apply elem_of_app; right; apply list_elem_of_here|].
  split; [exact Hinr|].
  rewrite Hline, Hcr. split; [apply cut_segment_line_end|apply take_drop].
Qed.

Lemma save_and_next_split_witness :
  let blk := list_byte_of_string "ab" ++ [x0a; x63; x00; x64] in
  let w := {| w_files := ∅; w_allocs := [] |} in
  exists line rest w1 w2,
    ft_save_line (Some blk) w = Some (Some line, w1) /\
    ft_next_line (Some blk) w1 = Some (Some rest, w2) /\
    x00 ∈ line /\ x00 ∈ rest /\
    cut_segment x0a (c_string blk) = (c_string line, c_string rest) /\
    c_string line ++ c_string rest = c_string blk.
Proof.
  intros blk w. apply (save_and_next_split blk w).
  - split; [apply (bool_decide_unpack _); vm_compute; exact I|reflexivity].
  - vm_compute. discriminate.
  - vm_compute. discriminate.
  - reflexivity.
Defined.

(** X15.  One call of the older [get_next_line] on a descriptor that is
    ready returns: a null pointer when nothing is pending, and the slot of
    the descriptor is then empty; otherwise a block holding the bytes up to
    and including the first newline (or all of them if there is none) and
    a terminator, the rest staying pending.  The state stays ready. *)
Theorem older_call_returns_first_line bs fd m fuel :
  ready bs fd m ->
  (length (unread fd (env m)) + 1 < fuel)%nat ->
  exists line m',
    get_next_line bs fuel fd m = Some (line, m') /\
    ready bs fd m' /\
    ((bonus_pending fd m = [] /\ line = None /\ bonus_pending fd m' = [] /\
      container m' !! fd = None) \/
     (bonus_pending fd m <> [] /\
      exists seg, line = Some (seg ++ [x00]) /\
        cut_segment x0a (bonus_pending fd m) = (seg, bonus_pending fd m'))).
Proof.
  intros Hr Hf.
  destruct (bonus_call_spec bs fd m fuel Hr Hf)
    as (line & m' & Hcall & Hr' & _ & Hcase).
  exists line, m'. auto.
Qed.

Lemma older_call_returns_first_line_witness :
  let m := {| container := {[ 3 := list_byte_of_string "ab" ++ [x00] ]};
              env := {| w_files :=
                          {[ 3 := {| f_bytes := [x63; x0a; x64];
                                     f_script := [ReadShort 1] |} ]};
                        w_allocs := [AllocOk x41] |} |} in
  exists line m',
    get_next_line 2 5 3 m = Some (line, m') /\
    ready 2 3 m' /\
    ((bonus_pending 3 m = [] /\ line = None /\ bonus_pending 3 m' = [] /\
      container m' !! 3 = None) \/
     (bonus_pending 3 m <> [] /\
      exists seg, line = Some (seg ++ [x00]) /\
        cut_segment x0a (bonus_pending 3 m) = (seg, bonus_pending 3 m'))).
Proof.
  intros m. apply (older_call_returns_first_line 2 3 m 5).
  - concrete_ready.
  - vm_compute. lia.
Defined.

(** X16.  On a descriptor that is [ready] (in particular: the stream
    holds no zero byte, no read and no allocation is going to fail, and
    [0 < BUFFER_SIZE < INT_MAX]), calling the older [get_next_line] until it
    returns a null pointer returns, with enough calls and fuel, the pending
    bytes cut after every newline, each piece in a block of its own with a
    terminator; the slot of the descriptor is empty afterwards.  Under
    these conditions the lines are the same for every [BUFFER_SIZE].  (A
    zero byte in the stream ends the string the reader keeps, so none of
    this holds without the condition on the stream.) *)
Theorem older_reader_returns_lines bs fd m calls fuel :
  ready bs fd m ->
  (length (unread fd (env m)) + 1 < fuel)%nat ->
  (length (bonus_pending fd m) < calls)%nat ->
  exists m',
    read_lines bs calls fuel fd m =
      Some (map (fun s => s ++ [x00])
              (split_segments x0a (bonus_pending fd m)), m') /\
    container m' !! fd = None.
Proof.
  intros Hr Hf Hc.
  destruct (bonus_run_spec bs fd fuel calls m Hr Hf Hc) as (m' & Hrun & _ & Hc').
  exists m'. auto.
Qed.

Lemma older_reader_returns_lines_witness :
  let m := {| container := ∅;
              env := {| w_files :=
                          {[ 3 := {| f_bytes := [x61; x0a; x0a; x62];
                                     f_script := [] |} ]};
                        w_allocs := [] |} |} in
  exists m',
    read_lines 3 5 6 3 m =
      Some (map (fun s => s ++ [x00])
              (split_segments x0a (bonus_pending 3 m)), m') /\
    container m' !! 3 = None.
Proof.
  intros m. apply (older_reader_returns_lines 3 3 m 5 6).
  - concrete_ready.
  - vm_compute. lia.
  - vm_compute. lia.
Defined.





(** ** What a call of the older reader leaves alone *)

Lemma malloc_files n w r w' : malloc n w = (r, w') -> w_files w' = w_files w.
Proof.
  unfold malloc. intros H. destruct (next_alloc w) as [[junk|] w1] eqn:E;
    injection H as <- <-; exact (next_alloc_files _ _ _ E).
Qed.

Lemma strjoin_files a b w r w' :
  ft_strjoin a b w = Some (r, w') -> w_files w' = w_files w.
Proof.
  unfold ft_strjoin. intros H.
  assert (Hfirst : forall first1 w1,
            match a with
            | Some blk => Some (blk, w)
            | None =>
                match malloc 1 w with
                | (None, _) => None
                | (Some blk, w'0) => blk' ← store blk 0 x00; Some (blk', w'0)
                end
            end = Some (first1, w1) -> w_files w1 = w_files w).
  { intros first1 w1 E. destruct a as [blk|].
    - injection E as <- <-. reflexivity.
    - destruct (malloc 1 w) as [[blk|] w0] eqn:Em; [|discriminate].
      destruct (store blk 0 x00); [|discriminate]. cbn in E.
      injection E as <- <-. exact (malloc_files _ _ _ _ Em). }
  destruct (match a with Some blk => Some (blk, w) | None => _ end)
    as [[first1 w1]|] eqn:E; [|discriminate].
  cbn [mbind option_bind] in H. clear E.
  pose proof (Hfirst _ _ eq_refl) as E.
  destruct b as [second1|]; [|injection H as <- <-; exact E].
  destruct (ft_strlen first1) as [n1|]; [|discriminate].
  cbn [mbind option_bind] in H.
  destruct (ft_strlen second1) as [n2|]; [|discriminate].
  cbn [mbind option_bind] in H.
  destruct (malloc _ w1) as [[str|] w2] eqn:Em.
  - apply malloc_files in Em.
    destruct (join_first _ _ _ _) as [[i str1]|]; [|discriminate].
    cbn [mbind option_bind] in H.
    destruct (join_second _ _ _ _ _) as [[i' str2]|]; [|discriminate].
    cbn [mbind option_bind] in H.
    destruct (store str2 i' x00); [|discriminate].
    cbn [mbind option_bind] in H. injection H as <- <-. congruence.
  - apply malloc_files in Em. injection H as <- <-. congruence.
Qed.

Lemma save_line_files str w r w' :
  ft_save_line str w = Some (r, w') -> w_files w' = w_files w.
Proof.
  unfold ft_save_line. intros H.
  destruct str as [s|]; [|injection H as <- <-; reflexivity].
  destruct (char_at s 0) as [c0|]; [|discriminate].
  cbn [mbind option_bind] in H.
  destruct (Byte.eqb c0 x00); [injection H as <- <-; reflexivity|].
  destruct (scan_line _ s 0) as [i|]; [|discriminate].
  cbn [mbind option_bind] in H.
  destruct (char_at s i) as [ci|]; [|discriminate].
  cbn [mbind option_bind] in H.
  destruct (if Byte.eqb ci x0a then int_add i 2 else int_add i 1) as [n|];
    [|discriminate].
  cbn [mbind option_bind] in H.
  destruct (malloc (to_size n) w) as [[new_line|] w1] eqn:Em;
    apply malloc_files in Em; [|injection H as <- <-; exact Em].
  destruct (save_copy _ _ _ _ _) as [[[i1 j1] nl1]|]; [|discriminate].
  cbn [mbind option_bind] in H.
  destruct (char_at s i1) as [c1|]; [|discriminate].
  cbn [mbind option_bind] in H.
  destruct (if Byte.eqb c1 x0a then _ else _) as [[i2 nl2]|]; [|discriminate].
  cbn [mbind option_bind] in H.
  destruct (store nl2 i2 x00); [|discriminate].
  cbn [mbind option_bind] in H. injection H as <- <-. exact Em.
Qed.

Lemma next_line_files str w r w' :
  ft_next_line str w = Some (r, w') -> w_files w' = w_files w.
Proof.
  unfold ft_next_line. intros H.
  destruct str as [s|]; [|injection H as <- <-; reflexivity].
  destruct (scan_line _ s 0) as [i|]; [|discriminate].
  cbn [mbind option_bind] in H.
  destruct (ft_strlen s) as [n|]; [|discriminate].
  cbn [mbind option_bind] in H.
  destruct (malloc _ w) as [[right_line|] w1] eqn:Em;
    apply malloc_files in Em; [|injection H as <- <-; exact Em].
  destruct (next_copy _ _ _ _ _) as [[j rl1]|]; [|discriminate].
  cbn [mbind option_bind] in H.
  destruct (store rl1 j x00); [|discriminate].
  cbn [mbind option_bind] in H. injection H as <- <-. exact Em.
Qed.

Lemma bonus_read_loop_frame bs fd fd' : fd' <> fd ->
  forall fuel str buff byread w r w',
    read_loop bs fuel fd str buff byread w = Some (r, w') ->
    w_files w' !! fd' = w_files w !! fd'.
Proof.
  intros Hne. induction fuel as [|fuel IH]; intros str buff byread w r w' H;
    [discriminate|].
  cbn [read_loop] in H.
  destruct (ft_strchr str 10) as [found|]; [|discriminate].
  cbn [mbind option_bind] in H.
  destruct ((found =? 0) && negb (byread =? 0));
    [|injection H as <- <-; reflexivity].
  destruct (sys_read fd (to_size bs) w) as [[rd got] w1] eqn:Er.
  pose proof (sys_read_frame _ _ _ _ _ _ Er fd' Hne) as Hf1.
  destruct (rd <? 0); [injection H as <- <-; exact Hf1|].
  destruct (store _ rd x00) as [buff1|]; [|discriminate].
  cbn [mbind option_bind] in H.
  destruct (ft_strjoin str (Some buff1) w1) as [[str' w2]|] eqn:Ej;
    [|discriminate].
  cbn [mbind option_bind] in H. apply strjoin_files in Ej.
  destruct str' as [blk|].
  - rewrite (IH _ _ _ _ _ _ H), Ej. exact Hf1.
  - injection H as <- <-. rewrite Ej. exact Hf1.
Qed.

Lemma bonus_read_line_frame bs fd fd' fuel str w r w' :
  fd' <> fd ->
  ft_read_line bs fuel fd str w = Some (r, w') ->
  w_files w' !! fd' = w_files w !! fd'.
Proof.
  intros Hne H. unfold ft_read_line in H.
  destruct (int_add bs 1) as [n|]; [|discriminate].
  cbn [mbind option_bind] in H.
  destruct (malloc (to_size n) w) as [[buff|] w1] eqn:Em;
    apply malloc_files in Em.
  - rewrite (bonus_read_loop_frame bs fd fd' Hne _ _ _ _ _ _ _ H), Em.
    reflexivity.
  - injection H as <- <-. rewrite Em. reflexivity.
Qed.

(** X19.  A call of the older [get_next_line] on one descriptor leaves the
    strings kept for the other descriptors, and their streams, as they
    were. *)
Theorem older_call_keeps_other_descriptors bs fuel fd m line m' fd' :
  get_next_line bs fuel fd m = Some (line, m') ->
  fd' <> fd ->
  container m' !! fd' = container m !! fd' /\
  w_files (env m') !! fd' = w_files (env m) !! fd'.
Proof.
  intros H Hne. unfold get_next_line in H.
  destruct ((fd <? 0) || (1024 <=? fd)); [discriminate|].
  assert (Hbad : forall bad w1,
            (if bs <=? 0 then (true, env m)
             else let '(r, _, w'0) := sys_read fd 0 (env m) in (r <? 0, w'0))
            = (bad, w1) ->
            w_files w1 !! fd' = w_files (env m) !! fd').
  { intros bad w1 E. destruct (bs <=? 0).
    - injection E as <- <-. reflexivity.
    - destruct (sys_read fd 0 (env m)) as [[r got] w0] eqn:Er.
      injection E as <- <-. exact (sys_read_frame _ _ _ _ _ _ Er fd' Hne). }
  destruct (if bs <=? 0 then _ else _) as [bad w1].
  pose proof (Hbad _ _ eq_refl) as E.
  assert (Hdel : delete fd (container m) !! fd' = container m !! fd')
    by (apply lookup_delete_ne; congruence).
  destruct bad; [injection H as <- <-; cbn; auto|].
  destruct (ft_read_line bs fuel fd (container m !! fd) w1)
    as [[str w2]|] eqn:Er; [|discriminate].
  cbn [mbind option_bind] in H.
  apply (bonus_read_line_frame bs fd fd') in Er; [|exact Hne].
  destruct str as [s|]; [|injection H as <- <-; cbn; split; congruence].
  destruct (ft_save_line (Some s) w2) as [[buffer w3]|] eqn:Es; [|discriminate].
  cbn [mbind option_bind] in H. apply save_line_files in Es.
  destruct buffer as [l|]; [|injection H as <- <-; cbn; split; congruence].
  destruct (ft_next_line (Some s) w3) as [[rest w4]|] eqn:En; [|discriminate].
  cbn [mbind option_bind] in H. apply next_line_files in En.
  destruct rest as [r|]; injection H as <- <-; cbn.
  - split; [apply lookup_insert_ne; congruence|congruence].
  - split; congruence.
Qed.

Lemma older_call_keeps_other_descriptors_witness :
  let m := {| container := {[ 4 := list_byte_of_string "ab" ++ [x00] ]};
              env := {| w_files :=
                          <[ 3 := {| f_bytes := [x63; x0a; x64];
                                     f_script := [] |} ]>
                          {[ 4 := {| f_bytes := [x65]; f_script := [] |} ]};
                        w_allocs := [] |} |} in
  let m' := {| container := <[ 3 := [x64; x00; x00] ]> (container m);
               env := {| w_files :=
                          <[ 3 := {| f_bytes := []; f_script := [] |} ]>
                            (w_files (env m));
                         w_allocs := [] |} |} in
  container m' !! 4 = container m !! 4 /\
  w_files (env m') !! 4 = w_files (env m) !! 4.
Proof.
  intros m m'.
  apply (older_call_keeps_other_descriptors 4 5 3 m
           (Some [x63; x0a; x00]) m' 4).
  - vm_compute. reflexivity.
  - discriminate.
Defined.

(** ** The end of the string *)

(** X20.  [ft_save_line] returns a null pointer exactly for the empty
    string (a null pointer included): this is how the older reader
    recognises the end of the stream. *)
Theorem save_line_null_iff_empty str w :
  terminated str ->
  Z.of_nat (length (string_of str)) + 2 <= INT_MAX ->
  alloc_failures (w_allocs w) = O ->
  exists r w',
    ft_save_line str w = Some (r, w') /\
    (r = None <-> string_of str = []).
Proof.
  intros Ht Hint Ha. destruct str as [blk|].
  - destruct Ht as [Hin _]. cbn [string_of] in *.
    destruct (c_string blk) as [|b c] eqn:Ec.
    + exists None, w. split; [exact (save_line_empty blk w Hin Ec)|].
      split; reflexivity.
    + assert (Hne : c_string blk <> []) by (rewrite Ec; discriminate).
      destruct (save_line_ok blk w Hin Hne) as (w' & Hsave & _);
        [rewrite Ec; exact Hint|exact Ha|].
      eexists _, w'. split; [exact Hsave|]. split; discriminate.
  - exists None, w. split; [reflexivity|]. split; reflexivity.
Qed.

Lemma save_line_null_iff_empty_witness :
  let str := Some ([x00; x61; x0a]) in
  let w := {| w_files := ∅; w_allocs := [] |} in
  exists r w',
    ft_save_line str w = Some (r, w') /\
    (r = None <-> string_of str = []).
Proof.
  intros str w. apply (save_line_null_iff_empty str w).
  - split; [apply (bool_decide_unpack _); vm_compute; exact I|reflexivity].
  - vm_compute. discriminate.
  - reflexivity.
Defined.
